(** * Video grid planner: layout search, crop geometry, slot sampling and
      filter-graph assembly

    A shallow embedding of the planning code of the video grid generators
    ([video_grid_generator.py], [video_grid_generator_advanced.py],
    [video_grid_generator_v2_advanced.py]) and the properties of it that the
    design document states, followed by discovery, the drivers and the two
    concatenators ([video_concatenator.py], [video_concatenator_advanced.py])
    with properties read off the code.

    Python integers are [Z]; [//] is [Z.div] (both round towards minus
    infinity and agree on every sign combination).  Python floats are IEEE-754
    binary64 numbers, taken from the Standard Library's executable reference
    semantics [SpecFloat] at precision 53 and maximal exponent 1024.
    Exceptions are values of [exn], carried by the [result] monad. *)

From Stdlib Require Import ZArith QArith Qabs String Ascii List Bool Lia Permutation.
From Stdlib Require Import DecimalString DecimalZ DecimalPos.
From Stdlib Require Import SpecFloat.
Import ListNotations.

Local Open Scope Z_scope.

(* ================================================================== *)
(** * Part I: the embedding *)
(* ================================================================== *)

(** ** Exceptions and the error monad *)

Inductive exn : Type :=
| ZeroDivisionError
| IndexError
| TypeError
| OverflowError
| ValueError.

Inductive result (A : Type) : Type :=
| Ok (a : A)
| Raise (e : exn).

Arguments Ok {A} a.
Arguments Raise {A} e.

Definition bind {A B : Type} (m : result A) (k : A -> result B) : result B :=
  match m with
  | Ok a => k a
  | Raise e => Raise e
  end.

Notation "x <- m ;; k" := (bind m (fun x => k))
  (at level 61, m at next level, right associativity).
Notation "' p <- m ;; k" := (bind m (fun p => k))
  (at level 61, p pattern, m at next level, right associativity).

(** A [for] loop whose body may raise: the first exception ends the loop. *)
Fixpoint for_each {A S : Type} (body : S -> A -> result S) (xs : list A) (s : S)
  : result S :=
  match xs with
  | [] => Ok s
  | x :: xs' => s' <- body s x ;; for_each body xs' s'
  end.

(** [range(a, b)] and [range(n)]. *)
Definition range (a b : Z) : list Z :=
  map (fun k => a + Z.of_nat k) (seq 0 (Z.to_nat (b - a))).

Definition range0 (n : Z) : list Z := range 0 n.

(** [len(l)] *)
Definition len {A : Type} (l : list A) : Z := Z.of_nat (length l).

(** [l[:k]], for every sign of [k]. *)
Definition slice_to {A : Type} (l : list A) (k : Z) : list A :=
  if 0 <=? k then firstn (Z.to_nat k) l
  else firstn (length l - Z.to_nat (- k)) l.

(** [l[0]] *)
Definition item0 {A : Type} (l : list A) : result A :=
  match l with
  | [] => Raise IndexError
  | x :: _ => Ok x
  end.

(** [a // b] *)
Definition floordiv (a b : Z) : result Z :=
  if b =? 0 then Raise ZeroDivisionError else Ok (a / b).

(** [str(z)] for an integer, as the f-strings print it. *)
Definition str (z : Z) : string := NilZero.string_of_int (Z.to_int z).

(** ** Binary64 arithmetic as the interpreter performs it *)

Module PyFloat.

Definition prec : Z := 53.
Definition emax : Z := 1024.

Definition float : Type := spec_float.

(** [float('inf')] *)
Definition inf : float := S754_infinity false.

(** Conversion of an integer.  It is exact when [|z| <= 2^53]; the
    statements below keep every converted integer in that range. *)
Definition of_int (z : Z) : float := binary_normalize prec emax z 0 false.

(** An integer of any size as an unrounded number: its sign and magnitude
    with exponent 0. *)
Definition exact_int (z : Z) : float :=
  match z with
  | Z0 => S754_zero false
  | Zpos p => S754_finite false p 0
  | Zneg p => S754_finite true p 0
  end.

(** [a / b] on two integers (true division): [ZeroDivisionError] for
    [b = 0]; otherwise the exact quotient of the two integers rounded once,
    to nearest-even, and [OverflowError] when the rounded quotient is beyond
    the largest float. *)
Definition truediv (a b : Z) : result float :=
  if b =? 0 then Raise ZeroDivisionError
  else
    match SFdiv prec emax (exact_int a) (exact_int b) with
    | S754_infinity _ => Raise OverflowError
    | q => Ok q
    end.

(** [x - y], [abs(x)] and [x < y] on floats. *)
Definition sub (x y : float) : float := SFsub prec emax x y.
Definition abs (x : float) : float := SFabs x.
Definition ltb (x y : float) : bool := SFltb x y.
Definition leb (x y : float) : bool := SFleb x y.

(** [math.ceil(x)]: an integer, or an exception on an infinity or a NaN. *)
Definition ceil (x : float) : result Z :=
  match x with
  | S754_zero _ => Ok 0
  | S754_infinity _ => Raise OverflowError
  | S754_nan => Raise ValueError
  | S754_finite s m e =>
      let v := cond_Zopp s (Zpos m) in
      Ok (if 0 <=? e then v * 2 ^ e else - ((- v) / 2 ^ (- e)))
  end.

End PyFloat.

(** *** Shapes and order of binary64 values *)

Definition is_nan (x : PyFloat.float) : bool :=
  match x with S754_nan => true | _ => false end.

(** Zero, or finite with exponent and leading-bit position at most [u]. *)
Definition within (u : Z) (x : PyFloat.float) : Prop :=
  match x with
  | S754_zero _ => True
  | S754_finite _ m e => e <= u /\ Zpos (digits2_pos m) + e <= u
  | _ => False
  end.

(** The three shapes a rounding can produce. *)
Definition rounded (s : bool) (m e : Z) : PyFloat.float :=
  match m with
  | Z0 => S754_zero s
  | Zpos p => if e <=? 971 then S754_finite s p e else S754_infinity s
  | Zneg _ => S754_nan
  end.

(** A sort key: comparing two numbers that are not NaN is comparing their
    keys lexicographically. *)
Definition key (x : PyFloat.float) : option (Z * Z * Z) :=
  match x with
  | S754_nan => None
  | S754_infinity true => Some (-2, 0, 0)
  | S754_infinity false => Some (2, 0, 0)
  | S754_zero _ => Some (0, 0, 0)
  | S754_finite false m e => Some (1, e, Zpos m)
  | S754_finite true m e => Some (-1, - e, Zneg m)
  end.

Definition key_lt (a b : Z * Z * Z) : Prop :=
  let '(a1, a2, a3) := a in
  let '(b1, b2, b3) := b in
  a1 < b1 \/ (a1 = b1 /\ (a2 < b2 \/ (a2 = b2 /\ a3 < b3))).

Definition key_le (a b : Z * Z * Z) : Prop :=
  let '(a1, a2, a3) := a in
  let '(b1, b2, b3) := b in
  a1 < b1 \/ (a1 = b1 /\ (a2 < b2 \/ (a2 = b2 /\ a3 <= b3))).

Definition flt (x y : PyFloat.float) : Prop :=
  match key x, key y with
  | Some a, Some b => key_lt a b
  | _, _ => False
  end.

Definition fle (x y : PyFloat.float) : Prop :=
  match key x, key y with
  | Some a, Some b => key_le a b
  | _, _ => False
  end.

(** ** Grid layout search: [calculate_optimal_grid] *)

Module Layout.

(** [(rows, cols, cell_width, cell_height)] *)
Definition layout : Type := (Z * Z * Z * Z)%type.

Record search : Type := mkSearch {
  best_ratio_diff : PyFloat.float;
  best_layout : option layout
}.

Definition search0 : search := mkSearch PyFloat.inf None.

(** [cols = math.ceil(num_videos / rows)] *)
Definition cols_of (num_videos rows : Z) : result Z :=
  q <- PyFloat.truediv num_videos rows ;; PyFloat.ceil q.

(** [ratio_diff = abs(cols / rows - target_ratio)] *)
Definition ratio_diff_of (cols rows : Z) (target_ratio : PyFloat.float)
  : result PyFloat.float :=
  grid_ratio <- PyFloat.truediv cols rows ;;
  Ok (PyFloat.abs (PyFloat.sub grid_ratio target_ratio)).

(** The body of the loop over [rows]. *)
Definition grid_step (num_videos target_width target_height : Z)
    (target_ratio : PyFloat.float) (st : search) (rows : Z) : result search :=
  cols <- cols_of num_videos rows ;;
  if rows * cols >=? num_videos then
    ratio_diff <- ratio_diff_of cols rows target_ratio ;;
    cell_width <- floordiv target_width cols ;;
    cell_height <- floordiv target_height rows ;;
    if PyFloat.ltb ratio_diff (best_ratio_diff st) then
      Ok (mkSearch ratio_diff (Some (rows, cols, cell_width, cell_height)))
    else Ok st
  else Ok st.

(** The search returns [None] when no candidate was kept. *)
Definition calculate_optimal_grid (num_videos target_width target_height : Z)
  : result (option layout) :=
  target_ratio <- PyFloat.truediv target_width target_height ;;
  st <- for_each (grid_step num_videos target_width target_height target_ratio)
                 (range 1 20) search0 ;;
  Ok (best_layout st).

(** The driver's layout step: an explicit [grid_layout] bypasses the search;
    unpacking the search's [None] is a [TypeError]. *)
Definition choose_layout (grid_layout : option (Z * Z))
    (total_videos target_width target_height : Z) : result layout :=
  match grid_layout with
  | Some (rows, cols) =>
      cell_width <- floordiv target_width cols ;;
      cell_height <- floordiv target_height rows ;;
      Ok (rows, cols, cell_width, cell_height)
  | None =>
      best <- calculate_optimal_grid total_videos target_width target_height ;;
      match best with
      | Some l => Ok l
      | None => Raise TypeError
      end
  end.

(** Whether the rows still to visit reach one with [cols = 0] that passes the
    guard, after rows whose [cols] is computed and is not 0 and whose
    [cols / rows] is computed when the guard asks for it. *)
Fixpoint reaches_zero_cols (num_videos : Z) (rows_left : list Z) : bool :=
  match rows_left with
  | [] => false
  | rows :: rest =>
      match cols_of num_videos rows with
      | Ok cols =>
          negb (rows =? 0) &&
          (if cols =? 0 then rows * cols >=? num_videos
           else
             (if rows * cols >=? num_videos
              then match PyFloat.truediv cols rows with Ok _ => true | Raise _ => false end
              else true) &&
             reaches_zero_cols num_videos rest)
      | Raise _ => false
      end
  end.

(** The exact ceiling of [a / b], for positive [b]. *)
Definition ceil_div (a b : Z) : Z := (a + b - 1) / b.

(** The difference of a candidate from the target in exact rational
    arithmetic, [|cols/rows - width/height|], for positive [rows] and
    [height]. *)
Definition exact_diff (cols rows target_width target_height : Z) : Q :=
  Qabs (Qminus (Qmake cols (Z.to_pos rows))
               (Qmake target_width (Z.to_pos target_height))).

(** The design document's reading of the result: [rows] is in the range,
    [cols] is the ceiling, no row count of the range is closer to the target
    in exact arithmetic, and every smaller row count is strictly farther. *)
Definition exact_argmin_first (num_videos target_width target_height rows cols : Z)
  : Prop :=
  1 <= rows <= 19 /\ cols = ceil_div num_videos rows /\
  forall r, 1 <= r <= 19 ->
    Qle (exact_diff cols rows target_width target_height)
        (exact_diff (ceil_div num_videos r) r target_width target_height) /\
    (r < rows ->
     Qlt (exact_diff cols rows target_width target_height)
         (exact_diff (ceil_div num_videos r) r target_width target_height)).

(** What the loop body computes for [rows]: its [cols] and [ratio_diff] when
    the guard lets it through. *)
Definition candidate (num_videos target_width target_height rows : Z)
  : result (option (Z * PyFloat.float)) :=
  target_ratio <- PyFloat.truediv target_width target_height ;;
  cols <- cols_of num_videos rows ;;
  if rows * cols >=? num_videos then
    ratio_diff <- ratio_diff_of cols rows target_ratio ;;
    Ok (Some (cols, ratio_diff))
  else Ok None.

(** The state of the search after the rows below [k]. *)
Definition search_inv (n w h k : Z) (st : search) : Prop :=
  match best_layout st with
  | None =>
      best_ratio_diff st = PyFloat.inf /\
      forall r c d, 1 <= r < k -> candidate n w h r = Ok (Some (c, d)) ->
                    PyFloat.ltb d PyFloat.inf = false
  | Some (rows, cols, cell_width, cell_height) =>
      1 <= rows < k /\ cell_width = w / cols /\ cell_height = h / rows /\
      candidate n w h rows = Ok (Some (cols, best_ratio_diff st)) /\
      forall r c d, 1 <= r < k -> candidate n w h r = Ok (Some (c, d)) ->
                    PyFloat.ltb d (best_ratio_diff st) = false /\
                    (r < rows -> PyFloat.leb d (best_ratio_diff st) = false)
  end.

End Layout.

(** ** Crop geometry: [get_video_crop_params] *)

Module Crop.

(** What the probe reports for the video stream of a file. *)
Record stream : Type := mkStream {
  width : Z;
  height : Z;
  r_frame_rate : Z * Z
}.

Record crop_params : Type := mkCrop {
  original_width : Z;
  original_height : Z;
  square_size : Z;
  crop_x : Z;
  crop_y : Z;
  fps : Z * Z
}.

Definition get_video_crop_params (video_stream : stream) (crop_mode : string)
  : crop_params :=
  let width := width video_stream in
  let height := height video_stream in
  let square_size := Z.min width height in
  let '(crop_x, crop_y) :=
    if String.eqb crop_mode "center" then
      ((width - square_size) / 2, (height - square_size) / 2)
    else if String.eqb crop_mode "top" then
      ((width - square_size) / 2, 0)
    else if String.eqb crop_mode "bottom" then
      ((width - square_size) / 2, height - square_size)
    else
      ((width - square_size) / 2, (height - square_size) / 2) in
  mkCrop width height square_size crop_x crop_y (r_frame_rate video_stream).

End Crop.

(** ** Slot sampling: [create_balanced_video_list] *)

Module Sampler.

(** A discovered clip tagged with its task: [(video, task_name)]. *)
Definition clip : Type := (string * string)%type.

(** [task_videos.items()], in the dictionary's insertion order. *)
Definition task_map : Type := list (string * list string).

(** The first loop: every video of every task, tagged, in iteration order. *)
Definition tag_all (task_videos : task_map) : list clip :=
  flat_map (fun '(task_name, videos) => map (fun video => (video, task_name)) videos)
           task_videos.

(** [if max_videos and len(all_videos) > max_videos: all_videos = all_videos[:max_videos]];
    [None] and [0] are both falsy. *)
Definition limit (max_videos : option Z) (all_videos : list clip) : list clip :=
  match max_videos with
  | Some m =>
      if negb (m =? 0) && (len all_videos >? m) then slice_to all_videos m
      else all_videos
  | None => all_videos
  end.

Section WithRandom.

(** The [random] module is the interpreter's, not this program's: its hidden
    process-wide generator state is [RNG], and [random.choices(population, k=k)]
    and [random.shuffle(x)] are taken as state transformers.  The function
    below has no seed argument and never seeds the generator. *)
Variable RNG : Type.
Variable choices : list clip -> Z -> RNG -> result (list clip * RNG).
Variable shuffle : list clip -> RNG -> list clip * RNG.

Definition create_balanced_video_list (task_videos : task_map) (grid_size : Z * Z)
    (max_videos : option Z) (shuffle_on : bool) (g : RNG)
  : result (list string * RNG) :=
  let '(rows, cols) := grid_size in
  let total_slots := rows * cols in
  let all_videos := limit max_videos (tag_all task_videos) in
  '(all_videos, g) <-
    (if len all_videos <? total_slots then
       let needed := total_slots - len all_videos in
       '(additional_videos, g') <- choices all_videos needed g ;;
       Ok (all_videos ++ additional_videos, g')
     else Ok (all_videos, g)) ;;
  let '(all_videos, g) :=
    if shuffle_on then shuffle all_videos g else (all_videos, g) in
  let selected_videos := slice_to all_videos total_slots in
  Ok (map fst selected_videos, g).





(** What the interpreter's documentation promises of the two library calls:
    [choices] returns [k] members of a non-empty population and raises
    [IndexError] on an empty one; [shuffle] permutes. *)
Definition choices_contract : Prop :=
  (forall population k g, population <> [] -> 0 <= k ->
     exists l g', choices population k g = Ok (l, g') /\
                  len l = k /\ incl l population) /\
  (forall k g, 0 < k -> choices [] k g = Raise IndexError).

Definition shuffle_contract : Prop :=
  forall l g, Permutation l (fst (shuffle l g)).

End WithRandom.

(** A small deterministic generator that meets both contracts: the state is a
    counter, [choices] reads the population cyclically from the counter on and
    [shuffle] rotates by the counter. *)
Definition counter_choices (population : list clip) (k : Z) (g : nat)
  : result (list clip * nat) :=
  match population with
  | [] => if 0 <? k then Raise IndexError else Ok ([], g)
  | c :: _ =>
      Ok (map (fun i => nth ((g + i) mod length population) population c)
              (seq 0 (Z.to_nat k)),
          (g + Z.to_nat k)%nat)
  end.

Definition counter_shuffle (l : list clip) (g : nat) : list clip * nat :=
  (skipn (g mod length l) l ++ firstn (g mod length l) l, S g).



End Sampler.

(** A small discovery result used in the examples. *)
Definition demo_tasks : Sampler.task_map :=
  [("pick", ["a.mp4"; "b.mp4"]); ("push", ["c.mp4"])]%string.

(** ** Filter graph assembly *)

Module Graph.

(** One entry of [filter_complex]. *)
Inductive node : Type :=
| CropScale (i : Z) (params : Crop.crop_params) (cell_width cell_height : Z)
| ColorFill (cell_width cell_height duration video_idx : Z)
| HStack (row_videos : list string) (row : Z)
| VStack (rows_inputs : list string).

(** [f"[{name}{k}]"] *)
Definition label (name : string) (k : Z) : string :=
  ("[" ++ name ++ str k ++ "]")%string.

Definition final : string := "[final]"%string.

(** The pad a node writes, and the pads of other nodes it reads.  A
    [CropScale] node reads the input file stream [[i:v]], which no node
    writes. *)
Definition node_output (n : node) : string :=
  match n with
  | CropScale i _ _ _ => label "v" i
  | ColorFill _ _ _ video_idx => label "black" video_idx
  | HStack _ row => label "row" row
  | VStack _ => final
  end.

Definition node_inputs (n : node) : list string :=
  match n with
  | CropScale _ _ _ _ => []
  | ColorFill _ _ _ _ => []
  | HStack row_videos _ => row_videos
  | VStack rows_inputs => rows_inputs
  end.

(** [len(l)] printed, and [''.join(l)]. *)
Definition joined (l : list string) : string := String.concat "" l.

(** The text appended to [filter_complex] for a node. *)
Definition render (n : node) : string :=
  (match n with
   | CropScale i p cell_width cell_height =>
       "[" ++ str i ++ ":v]crop=" ++ str (Crop.square_size p) ++ ":" ++
       str (Crop.square_size p) ++ ":" ++ str (Crop.crop_x p) ++ ":" ++
       str (Crop.crop_y p) ++ ",scale=" ++ str cell_width ++ ":" ++
       str cell_height ++ label "v" i
   | ColorFill cell_width cell_height duration video_idx =>
       "color=black:" ++ str cell_width ++ "x" ++ str cell_height ++
       ":duration=" ++ str duration ++ label "black" video_idx
   | HStack row_videos row =>
       joined row_videos ++ "hstack=inputs=" ++ str (len row_videos) ++
       label "row" row
   | VStack rows_inputs =>
       joined rows_inputs ++ "vstack=inputs=" ++ str (len rows_inputs) ++ final
   end)%string.

(** [enumerate(l)] *)
Definition enumerate {A : Type} (l : list A) : list (Z * A) :=
  combine (range0 (len l)) l.

(** The first loop: one crop-and-scale chain per selected video. *)
Definition crop_scale_nodes (video_params : list Crop.crop_params)
    (cell_width cell_height : Z) : list node :=
  map (fun '(i, params) => CropScale i params cell_width cell_height)
      (enumerate video_params).

(** The body of the loop over [col]; the state is
    [(filter_complex, row_videos)]. *)
Definition cell_step (cols cell_width cell_height duration n_videos row : Z)
    (st : list node * list string) (col : Z) : list node * list string :=
  let '(filter_complex, row_videos) := st in
  let video_idx := row * cols + col in
  if video_idx <? n_videos then
    (filter_complex, row_videos ++ [label "v" video_idx])
  else
    (filter_complex ++ [ColorFill cell_width cell_height duration video_idx],
     row_videos ++ [label "black" video_idx]).

(** The body of the loop over [row]; the state is
    [(filter_complex, rows_inputs)]. *)
Definition row_step (cols cell_width cell_height duration n_videos : Z)
    (st : list node * list string) (row : Z) : result (list node * list string) :=
  let '(filter_complex, rows_inputs) := st in
  let '(filter_complex, row_videos) :=
    fold_left (cell_step cols cell_width cell_height duration n_videos row)
              (range0 cols) (filter_complex, []) in
  if len row_videos >? 1 then
    Ok (filter_complex ++ [HStack row_videos row], rows_inputs ++ [label "row" row])
  else
    first <- item0 row_videos ;;
    Ok (filter_complex, rows_inputs ++ [first]).

(** The whole assembly of [create_video_grid_v2_advanced]: the emitted nodes
    in order, and [output_map]. *)
Definition build_filter_graph (rows cols cell_width cell_height duration : Z)
    (video_params : list Crop.crop_params) : result (list node * string) :=
  let filter_complex := crop_scale_nodes video_params cell_width cell_height in
  '(filter_complex, rows_inputs) <-
    for_each (row_step cols cell_width cell_height duration (len video_params))
             (range0 rows) (filter_complex, []) ;;
  if len rows_inputs >? 1 then
    Ok (filter_complex ++ [VStack rows_inputs], final)
  else
    output_map <- item0 rows_inputs ;;
    Ok (filter_complex, output_map).

(** [create_video_grid] and [create_video_grid_advanced] run the same loops
    over [used_videos = video_files[:rows * cols]], with the one crop window
    of the first video for every clip. *)
Definition build_filter_graph_v1 (rows cols cell_width cell_height duration : Z)
    (video_files : list string) (params : Crop.crop_params)
  : result (list node * string) :=
  let used_videos := slice_to video_files (rows * cols) in
  build_filter_graph rows cols cell_width cell_height duration
                     (map (fun _ => params) used_videos).

(** The pad of grid cell [video_idx]. *)
Definition cell_label (n_videos video_idx : Z) : string :=
  if video_idx <? n_videos then label "v" video_idx else label "black" video_idx.

(** No forward reference: each node reads only pads written by nodes emitted
    before it. *)
Definition topological (nodes : list node) : Prop :=
  forall before n after,
    nodes = before ++ n :: after ->
    incl (node_inputs n) (map node_output before).

Definition is_cell (n : node) : bool :=
  match n with CropScale _ _ _ _ | ColorFill _ _ _ _ => true | _ => false end.
Definition is_hstack (n : node) : bool :=
  match n with HStack _ _ => true | _ => false end.
Definition is_vstack (n : node) : bool :=
  match n with VStack _ => true | _ => false end.

(** *** The emitted sequence in closed form *)

(** The filler nodes the inner loop emits for [row]. *)
Definition blacks_of_row (cols cell_width cell_height duration n_videos row : Z)
  : list node :=
  map (fun col => ColorFill cell_width cell_height duration (row * cols + col))
      (filter (fun col => negb (row * cols + col <? n_videos)) (range0 cols)).

(** [row_videos] at the end of the inner loop for [row]. *)
Definition row_videos_of (cols n_videos row : Z) : list string :=
  map (fun col => cell_label n_videos (row * cols + col)) (range0 cols).

(** Everything the outer loop emits for [row], and the pad it appends to
    [rows_inputs]. *)
Definition row_nodes (cols cell_width cell_height duration n_videos row : Z)
  : list node :=
  blacks_of_row cols cell_width cell_height duration n_videos row ++
  (if cols >? 1 then [HStack (row_videos_of cols n_videos row) row] else []).

Definition row_label (cols n_videos row : Z) : string :=
  if cols >? 1 then label "row" row else cell_label n_videos (row * cols + 0).

(** A sequence is ordered from the pads in [seen] when each node reads only
    pads in [seen] or written by a node before it. *)
Fixpoint ordered_from (seen : list string) (nodes : list node) : Prop :=
  match nodes with
  | [] => True
  | n :: rest =>
      incl (node_inputs n) seen /\ ordered_from (node_output n :: seen) rest
  end.

(** What the design document asks of a compiled grid: the nodes come as cell
    nodes, then row nodes, then the final node, in the stated numbers, and no
    node reads a pad written later. *)
Definition well_formed_grid_graph (rows cols : Z) (r : result (list node * string))
  : Prop :=
  exists cell_nodes row_stacks final_nodes output_map,
    r = Ok (cell_nodes ++ row_stacks ++ final_nodes, output_map) /\
    forallb is_cell cell_nodes = true /\
    forallb is_hstack row_stacks = true /\
    forallb is_vstack final_nodes = true /\
    len cell_nodes = rows * cols /\
    len row_stacks = (if cols >? 1 then rows else 0) /\
    len final_nodes = (if rows >? 1 then 1 else 0) /\
    len (cell_nodes ++ row_stacks ++ final_nodes) =
      rows * cols + (if cols >? 1 then rows else 0) + (if rows >? 1 then 1 else 0) /\
    topological (cell_nodes ++ row_stacks ++ final_nodes).

End Graph.

(** *** Kinds of cell node *)

Definition is_crop_scale (n : Graph.node) : bool :=
  match n with Graph.CropScale _ _ _ _ => true | _ => false end.
Definition is_color_fill (n : Graph.node) : bool :=
  match n with Graph.ColorFill _ _ _ _ => true | _ => false end.

(** ** Discovery: [find_mp4_files] and [find_mp4_files_by_task] *)

Module Discovery.

(** [s.endswith(suffix)] *)
Definition endswith (s suffix : string) : bool :=
  let n := String.length s in
  let m := String.length suffix in
  (m <=? n)%nat && String.eqb (substring (n - m) m s) suffix.

(** One item of [os.walk(directory)]: [(root, dirs, files)]. *)
Definition walk_entry : Type := (string * list string * list string)%type.

(** [task_videos[folder_name].append(video_path)] on a [defaultdict(list)]:
    a known key keeps its place, a new key is added last. *)
Fixpoint append_to (task_videos : Sampler.task_map) (folder_name video_path : string)
  : Sampler.task_map :=
  match task_videos with
  | [] => [(folder_name, [video_path])]
  | (task_name, videos) :: rest =>
      if String.eqb task_name folder_name
      then (task_name, videos ++ [video_path]) :: rest
      else (task_name, videos) :: append_to rest folder_name video_path
  end.

Section WithOs.

(** [os.path.basename], [os.path.join] and [str.lower] are the interpreter's;
    the listing that [os.walk] yields is an argument. *)
Variable basename : string -> string.
Variable join : string -> string -> string.
Variable lower : string -> string.

Definition is_mp4 (file : string) : bool := endswith (lower file) ".mp4".

Definition find_mp4_files (walk : list walk_entry) : list string :=
  flat_map (fun '(root, _, files) => map (join root) (filter is_mp4 files)) walk.

(** [folder_name and folder_name != os.path.basename(directory)] *)
Definition is_task_folder (directory : string) (entry : walk_entry) : bool :=
  let '(root, _, _) := entry in
  negb (String.eqb (basename root) "") &&
  negb (String.eqb (basename root) (basename directory)).

Definition visit_file (root folder_name : string) (task_videos : Sampler.task_map)
    (file : string) : Sampler.task_map :=
  if is_mp4 file then append_to task_videos folder_name (join root file)
  else task_videos.

Definition visit_folder (directory : string) (task_videos : Sampler.task_map)
    (entry : walk_entry) : Sampler.task_map :=
  let '(root, _, files) := entry in
  if is_task_folder directory entry
  then fold_left (visit_file root (basename root)) files task_videos
  else task_videos.

Definition find_mp4_files_by_task (walk : list walk_entry) (directory : string)
  : Sampler.task_map :=
  fold_left (visit_folder directory) walk [].

End WithOs.

End Discovery.

(** What every group of a discovery result satisfies; [top] is the base name
    of the directory searched. *)
Definition group_ok (top : string) (g : string * list string) : Prop :=
  snd g <> [] /\ fst g <> ""%string /\ fst g <> top.

(** ** The drivers, up to the command line *)

Module Driver.

(** [sum(len(videos) for videos in task_videos.values())] *)
Definition total_videos (task_videos : Sampler.task_map) : Z :=
  fold_left Z.add (map (fun '(_, videos) => len videos) task_videos) 0.

(** The task printed beside a selected video: the first one whose list holds
    the path; [None] when no list does. *)
Definition task_of (task_videos : Sampler.task_map) (video_file : string)
  : option string :=
  match find (fun '(_, videos) => existsb (String.eqb video_file) videos) task_videos with
  | Some (task, _) => Some task
  | None => None
  end.

(** [if max_videos and len(video_files) > max_videos: video_files = video_files[:max_videos]] *)
Definition limit_files (max_videos : option Z) (video_files : list string) : list string :=
  match max_videos with
  | Some m =>
      if negb (m =? 0) && (len video_files >? m) then slice_to video_files m
      else video_files
  | None => video_files
  end.

(** What a driver has worked out when it launches the encoder: the layout,
    the input files in order, the crop window of each, the filter graph and
    the pad that is mapped to the output. *)
Record grid_plan : Type := mkPlan {
  grid : Layout.layout;
  inputs : list string;
  video_params : list Crop.crop_params;
  filter_complex : list Graph.node;
  output_map : string
}.

(** [random.shuffle] on the file list of the first two generators. *)
Definition shuffle_files_contract (RNG : Type)
    (shuffle_files : list string -> RNG -> list string * RNG) : Prop :=
  forall l g, Permutation l (fst (shuffle_files l g)).

Section WithEnvironment.

(** Besides the generator, the environment is the probe: the first video
    stream that [get_video_info] reports for a file, with its fields
    converted ([int], [eval]); an exception of any of these steps is an
    exception of the probe. *)
Variable RNG : Type.
Variable choices : list Sampler.clip -> Z -> RNG -> result (list Sampler.clip * RNG).
Variable shuffle : list Sampler.clip -> RNG -> list Sampler.clip * RNG.
Variable shuffle_files : list string -> RNG -> list string * RNG.
Variable probe : string -> result Crop.stream.

(** [get_video_crop_params(video_path, crop_mode)] *)
Definition probe_crop_params (video_path crop_mode : string) : result Crop.crop_params :=
  video_stream <- probe video_path ;;
  Ok (Crop.get_video_crop_params video_stream crop_mode).

(** The crop window worked out for a file is that of its own stream. *)
Definition analysed (crop_mode : string) (video_file : string) (params : Crop.crop_params)
  : Prop :=
  exists video_stream,
    probe video_file = Ok video_stream /\
    params = Crop.get_video_crop_params video_stream crop_mode.

(** The body of the loop over [selected_videos]; formatting a task name that
    is [None] with [:20s] is a [TypeError]. *)
Definition analyse_step (task_videos : Sampler.task_map) (crop_mode : string)
    (verbose : bool) (video_params : list Crop.crop_params) (video_file : string)
  : result (list Crop.crop_params) :=
  params <- probe_crop_params video_file crop_mode ;;
  _ <- (if verbose then
          match task_of task_videos video_file with
          | Some _ => Ok tt
          | None => Raise TypeError
          end
        else Ok tt) ;;
  Ok (video_params ++ [params]).

(** [create_video_grid_v2_advanced]; [None] is its [return False] on an empty
    discovery. *)
Definition create_video_grid_v2_advanced (task_videos : Sampler.task_map)
    (target_width target_height duration : Z) (grid_layout : option (Z * Z))
    (max_videos : option Z) (shuffle_on : bool) (crop_mode : string) (verbose : bool)
    (g : RNG) : result (option (grid_plan * RNG)) :=
  match task_videos with
  | [] => Ok None
  | _ =>
      '(rows, cols, cell_width, cell_height) <-
        Layout.choose_layout grid_layout (total_videos task_videos)
                             target_width target_height ;;
      '(selected_videos, g) <-
        Sampler.create_balanced_video_list RNG choices shuffle task_videos (rows, cols)
                                           max_videos shuffle_on g ;;
      video_params <-
        for_each (analyse_step task_videos crop_mode verbose) selected_videos [] ;;
      '(filter_complex, output_map) <-
        Graph.build_filter_graph rows cols cell_width cell_height duration video_params ;;
      Ok (Some (mkPlan (rows, cols, cell_width, cell_height) selected_videos
                       video_params filter_complex output_map, g))
  end.

(** [create_video_grid_advanced]: one crop window, that of the first file,
    for every clip. *)
Definition create_video_grid_advanced (video_files : list string)
    (target_width target_height duration : Z) (grid_layout : option (Z * Z))
    (max_videos : option Z) (shuffle_on : bool) (crop_mode : string) (g : RNG)
  : result (option (grid_plan * RNG)) :=
  match video_files with
  | [] => Ok None
  | _ =>
      let video_files := limit_files max_videos video_files in
      let '(video_files, g) :=
        if shuffle_on then shuffle_files video_files g else (video_files, g) in
      '(rows, cols, cell_width, cell_height) <-
        Layout.choose_layout grid_layout (len video_files) target_width target_height ;;
      first <- item0 video_files ;;
      params <- probe_crop_params first crop_mode ;;
      '(filter_complex, output_map) <-
        Graph.build_filter_graph_v1 rows cols cell_width cell_height duration
                                    video_files params ;;
      let used_videos := slice_to video_files (rows * cols) in
      Ok (Some (mkPlan (rows, cols, cell_width, cell_height) used_videos
                       (map (fun _ => params) used_videos) filter_complex output_map, g))
  end.

(** [create_video_grid]: no cap, and the centred crop. *)
Definition create_video_grid (video_files : list string)
    (target_width target_height duration : Z) (grid_layout : option (Z * Z))
    (shuffle_on : bool) (g : RNG) : result (option (grid_plan * RNG)) :=
  match video_files with
  | [] => Ok None
  | _ =>
      let '(video_files, g) :=
        if shuffle_on then shuffle_files video_files g else (video_files, g) in
      '(rows, cols, cell_width, cell_height) <-
        Layout.choose_layout grid_layout (len video_files) target_width target_height ;;
      first <- item0 video_files ;;
      video_stream <- probe first ;;
      let original_width := Crop.width video_stream in
      let original_height := Crop.height video_stream in
      let square_size := Z.min original_width original_height in
      let crop_x := (original_width - square_size) / 2 in
      let crop_y := (original_height - square_size) / 2 in
      let params := Crop.mkCrop original_width original_height square_size crop_x crop_y
                                (Crop.r_frame_rate video_stream) in
      '(filter_complex, output_map) <-
        Graph.build_filter_graph_v1 rows cols cell_width cell_height duration
                                    video_files params ;;
      let used_videos := slice_to video_files (rows * cols) in
      Ok (Some (mkPlan (rows, cols, cell_width, cell_height) used_videos
                       (map (fun _ => params) used_videos) filter_complex output_map, g))
  end.

End WithEnvironment.

End Driver.

(** *** Binary64 values on a common scale *)

(** A non-negative finite number times [2^200], its unit in the last place
    on the same scale, and the normal numbers with exponent between [lo] and
    [hi]; used to state how far a rounded quotient or product is from the
    exact one. *)
Definition scaled_value (x : PyFloat.float) : Z :=
  match x with
  | S754_finite false m e => Zpos m * 2 ^ (e + 200)
  | _ => 0
  end.

Definition scaled_ulp (x : PyFloat.float) : Z :=
  match x with
  | S754_finite _ _ e => 2 ^ (e + 200)
  | _ => 0
  end.

Definition normal (lo hi : Z) (x : PyFloat.float) : Prop :=
  exists m e, x = S754_finite false m e /\ 2 ^ 52 <= Zpos m < 2 ^ 53 /\ lo <= e <= hi.

(** ** The concatenators *)

Module Concat.

Definition newline : string := String "010"%char EmptyString.

(** [video.replace("'", "'\\''")]: every quote becomes the four characters
    quote, backslash, quote, quote. *)
Fixpoint escape (video : string) : string :=
  match video with
  | EmptyString => EmptyString
  | String c rest =>
      if Ascii.eqb c "'" then ("'\''" ++ escape rest)%string
      else String c (escape rest)
  end.

(** [f"file '{escaped_path}'\n"] *)
Definition list_file_line (video : string) : string :=
  ("file '" ++ escape video ++ "'" ++ newline)%string.

(** What [create_video_list_file] writes to [video_list.txt]. *)
Definition create_video_list_file (video_files : list string) : string :=
  String.concat "" (map list_file_line video_files).

(** Reading a quoted path back: an escaped quote stands for a quote, a quote
    that starts no escape ends the path. *)
Fixpoint unquote (text : string) : option (string * string) :=
  match text with
  | EmptyString => None
  | String c rest =>
      if Ascii.eqb c "'" then
        match rest with
        | String c1 (String c2 (String c3 rest')) =>
            if Ascii.eqb c1 "\" && Ascii.eqb c2 "'" && Ascii.eqb c3 "'" then
              match unquote rest' with
              | Some (video, tail) => Some (String "'" video, tail)
              | None => None
              end
            else Some (EmptyString, rest)
        | _ => Some (EmptyString, rest)
        end
      else
        match unquote rest with
        | Some (video, tail) => Some (String c video, tail)
        | None => None
        end
  end.

Definition has_quote (video : string) : bool :=
  existsb (Ascii.eqb "'") (list_ascii_of_string video).

(** *** Scaling into the frame *)

(** [int(x)]: truncation towards zero, or an exception on an infinity or a NaN. *)
Definition int_of_float (x : PyFloat.float) : result Z :=
  match x with
  | S754_zero _ => Ok 0
  | S754_infinity _ => Raise OverflowError
  | S754_nan => Raise ValueError
  | S754_finite s m e =>
      Ok (cond_Zopp s (if 0 <=? e then Zpos m * 2 ^ e else Zpos m / 2 ^ (- e)))
  end.

(** [min(a, b)] on two floats: [b] when [b < a], else [a]. *)
Definition min_float (a b : PyFloat.float) : PyFloat.float :=
  if PyFloat.ltb b a then b else a.

(** [n * x] for an integer [n] and a float [x]. *)
Definition mul_int (n : Z) (x : PyFloat.float) : PyFloat.float :=
  SFmul PyFloat.prec PyFloat.emax (PyFloat.of_int n) x.

(** The scale and pad arguments of [concatenate_videos]:
    [(scaled_width, scaled_height, pad_x, pad_y)]. *)
Definition scale_and_pad (target_width target_height original_width original_height : Z)
  : result (Z * Z * Z * Z) :=
  ratio_w <- PyFloat.truediv target_width original_width ;;
  ratio_h <- PyFloat.truediv target_height original_height ;;
  let scale_ratio := min_float ratio_w ratio_h in
  scaled_width <- int_of_float (mul_int original_width scale_ratio) ;;
  scaled_height <- int_of_float (mul_int original_height scale_ratio) ;;
  let scaled_width := scaled_width - scaled_width mod 2 in
  let scaled_height := scaled_height - scaled_height mod 2 in
  let pad_x := (target_width - scaled_width) / 2 in
  let pad_y := (target_height - scaled_height) / 2 in
  Ok (scaled_width, scaled_height, pad_x, pad_y).

(** *** The drivers *)

(** The [-vf] argument: [scale=] with the scaled sides, then [pad=] with the
    frame's sides, the two pads and the background colour. *)
Definition video_filter (scaled_width scaled_height target_width target_height
    pad_x pad_y : Z) (background_color : string) : string :=
  ("scale=" ++ str scaled_width ++ ":" ++ str scaled_height ++
   ",pad=" ++ str target_width ++ ":" ++ str target_height ++ ":" ++
   str pad_x ++ ":" ++ str pad_y ++ ":" ++ background_color)%string.

(** What a concatenator has worked out when it launches the encoder: the
    text of the list file and the [-vf] argument. *)
Record concat_plan : Type := mkConcat {
  list_file : string;
  vf : string
}.

Section WithEnvironment.

(** The generator and the probe, as for the grid drivers. *)
Variable RNG : Type.
Variable shuffle_files : list string -> RNG -> list string * RNG.
Variable probe : string -> result Crop.stream.

(** [concatenate_videos_advanced]; [None] is its [return False] on an empty
    discovery. *)
Definition concatenate_videos_advanced (video_files : list string)
    (target_width target_height : Z) (max_videos : option Z) (shuffle_on : bool)
    (background_color : string) (g : RNG) : result (option (concat_plan * RNG)) :=
  match video_files with
  | [] => Ok None
  | _ =>
      let video_files := Driver.limit_files max_videos video_files in
      let '(video_files, g) :=
        if shuffle_on then shuffle_files video_files g else (video_files, g) in
      first <- item0 video_files ;;
      video_stream <- probe first ;;
      let original_width := Crop.width video_stream in
      let original_height := Crop.height video_stream in
      '(scaled_width, scaled_height, pad_x, pad_y) <-
        scale_and_pad target_width target_height original_width original_height ;;
      Ok (Some (mkConcat (create_video_list_file video_files)
                         (video_filter scaled_width scaled_height target_width
                                       target_height pad_x pad_y background_color), g))
  end.

(** [concatenate_videos]: no cap, always shuffled, black bars. *)
Definition concatenate_videos (video_files : list string)
    (target_width target_height : Z) (g : RNG) : result (option (concat_plan * RNG)) :=
  match video_files with
  | [] => Ok None
  | _ =>
      let '(video_files, g) := shuffle_files video_files g in
      first <- item0 video_files ;;
      video_stream <- probe first ;;
      let original_width := Crop.width video_stream in
      let original_height := Crop.height video_stream in
      '(scaled_width, scaled_height, pad_x, pad_y) <-
        scale_and_pad target_width target_height original_width original_height ;;
      Ok (Some (mkConcat (create_video_list_file video_files)
                         (video_filter scaled_width scaled_height target_width
                                       target_height pad_x pad_y "black"), g))
  end.

End WithEnvironment.

End Concat.

(* ================================================================== *)
(** * Part II: properties *)
(* ================================================================== *)

(** ** Crop geometry *)

Lemma crop_mode_cases (crop_mode : string) :
  crop_mode = "center"%string \/ crop_mode = "top"%string \/
  crop_mode = "bottom"%string \/
  (String.eqb crop_mode "center" = false /\ String.eqb crop_mode "top" = false /\
   String.eqb crop_mode "bottom" = false).
Proof.
  destruct (String.eqb_spec crop_mode "center"); [now left|].
  destruct (String.eqb_spec crop_mode "top"); [now right; left|].
  destruct (String.eqb_spec crop_mode "bottom"); [now right; right; left|].
  right; right; right; repeat split; reflexivity.
Qed.

Lemma crop_x_any_mode (s : Crop.stream) (crop_mode : string) :
  Crop.crop_x (Crop.get_video_crop_params s crop_mode) =
  (Crop.width s - Z.min (Crop.width s) (Crop.height s)) / 2.
Proof.
  unfold Crop.get_video_crop_params.
  destruct (String.eqb crop_mode "center"); [reflexivity|].
  destruct (String.eqb crop_mode "top"); [reflexivity|].
  destruct (String.eqb crop_mode "bottom"); reflexivity.
Qed.

Lemma square_size_any_mode (s : Crop.stream) (crop_mode : string) :
  Crop.square_size (Crop.get_video_crop_params s crop_mode) =
  Z.min (Crop.width s) (Crop.height s).
Proof.
  unfold Crop.get_video_crop_params.
  destruct (String.eqb crop_mode "center"); [reflexivity|].
  destruct (String.eqb crop_mode "top"); [reflexivity|].
  destruct (String.eqb crop_mode "bottom"); reflexivity.
Qed.

Lemma crop_y_unrecognised (s : Crop.stream) (crop_mode : string) :
  String.eqb crop_mode "center" = false ->
  String.eqb crop_mode "top" = false ->
  String.eqb crop_mode "bottom" = false ->
  Crop.get_video_crop_params s crop_mode = Crop.get_video_crop_params s "center".
Proof.
  intros Hc Ht Hb. unfold Crop.get_video_crop_params.
  rewrite Hc, Ht, Hb. reflexivity.
Qed.

(** C4: for a stream with positive width and height, the crop is the square of
    side [min width height]; the horizontal offset is [(width - size) // 2]
    under every anchor; the vertical offset is [(height - size) // 2] for
    [center], [0] for [top] and [height - size] for [bottom]; every other
    anchor gives exactly the [center] result; and 1920x1080 with [center]
    gives size 1080, offsets 420 and 0. *)
Theorem resolve_crop_geometry (w h : Z) (fr : Z * Z) (crop_mode : string) :
  0 < w -> 0 < h ->
  let s := Crop.mkStream w h fr in
  let size := Z.min w h in
  Crop.square_size (Crop.get_video_crop_params s crop_mode) = size /\
  Crop.crop_x (Crop.get_video_crop_params s crop_mode) = (w - size) / 2 /\
  Crop.crop_y (Crop.get_video_crop_params s "center") = (h - size) / 2 /\
  Crop.crop_y (Crop.get_video_crop_params s "top") = 0 /\
  Crop.crop_y (Crop.get_video_crop_params s "bottom") = h - size /\
  (crop_mode <> "center"%string -> crop_mode <> "top"%string ->
   crop_mode <> "bottom"%string ->
   Crop.get_video_crop_params s crop_mode = Crop.get_video_crop_params s "center") /\
  (w = 1920 -> h = 1080 ->
   Crop.square_size (Crop.get_video_crop_params s "center") = 1080 /\
   Crop.crop_x (Crop.get_video_crop_params s "center") = 420 /\
   Crop.crop_y (Crop.get_video_crop_params s "center") = 0).
Proof.
  intros Hw Hh s size.
  split; [apply square_size_any_mode|].
  split; [apply crop_x_any_mode|].
  repeat split; try reflexivity.
  - intros Hc Ht Hb. apply crop_y_unrecognised; apply String.eqb_neq; assumption.
  - subst w h. reflexivity.
  - subst w h. reflexivity.
  - subst w h. reflexivity.
Qed.

Lemma resolve_crop_geometry_witness :
  Crop.square_size
    (Crop.get_video_crop_params (Crop.mkStream 1920 1080 (30, 1)) "middle") = 1080 /\
  Crop.crop_x
    (Crop.get_video_crop_params (Crop.mkStream 1920 1080 (30, 1)) "middle") = 420.
Proof.
  destruct (resolve_crop_geometry 1920 1080 (30, 1) "middle") as (Hs & Hx & _);
    [lia | lia |].
  split; [exact Hs | exact Hx].
Defined.

(** C6: for a stream with positive width and height and any anchor string,
    the crop window has positive size, non-negative offsets, and lies inside
    the source frame. *)
Theorem crop_window_invariant (s : Crop.stream) (crop_mode : string) :
  0 < Crop.width s -> 0 < Crop.height s ->
  let c := Crop.get_video_crop_params s crop_mode in
  0 < Crop.square_size c /\
  0 <= Crop.crop_x c /\
  0 <= Crop.crop_y c /\
  Crop.crop_x c + Crop.square_size c <= Crop.width s /\
  Crop.crop_y c + Crop.square_size c <= Crop.height s.
Proof.
  intros Hw Hh c. subst c.
  rewrite square_size_any_mode, crop_x_any_mode.
  assert (Hx : 0 <= (Crop.width s - Z.min (Crop.width s) (Crop.height s)) / 2
               <= Crop.width s - Z.min (Crop.width s) (Crop.height s)).
  { split; [apply Z.div_pos; lia | apply Z.div_le_upper_bound; lia]. }
  assert (Hy : 0 <= (Crop.height s - Z.min (Crop.width s) (Crop.height s)) / 2
               <= Crop.height s - Z.min (Crop.width s) (Crop.height s)).
  { split; [apply Z.div_pos; lia | apply Z.div_le_upper_bound; lia]. }
  destruct (crop_mode_cases crop_mode) as [E | [E | [E | (Ec & Et & Eb)]]].
  - subst crop_mode. cbn. lia.
  - subst crop_mode. cbn. lia.
  - subst crop_mode. cbn. lia.
  - rewrite (crop_y_unrecognised s crop_mode Ec Et Eb). cbn. lia.
Qed.

Lemma crop_window_invariant_witness :
  let c := Crop.get_video_crop_params (Crop.mkStream 1280 720 (30, 1)) "bottom" in
  0 < Crop.square_size c /\
  0 <= Crop.crop_x c /\
  0 <= Crop.crop_y c /\
  Crop.crop_x c + Crop.square_size c <= 1280 /\
  Crop.crop_y c + Crop.square_size c <= 720.
Proof.
  apply (crop_window_invariant (Crop.mkStream 1280 720 (30, 1)) "bottom");
    simpl; lia.
Defined.

(** ** Lists, slices and loops *)

Lemma len_nonneg {A : Type} (l : list A) : 0 <= len l.
Proof. unfold len. lia. Qed.

Lemma len_app {A : Type} (l1 l2 : list A) : len (l1 ++ l2) = len l1 + len l2.
Proof. unfold len. rewrite length_app. lia. Qed.

Lemma len_nil_iff {A : Type} (l : list A) : len l = 0 <-> l = [].
Proof.
  unfold len. destruct l; cbn [length]; split; intros H;
    try reflexivity; try discriminate; lia.
Qed.

Lemma slice_to_nonneg {A : Type} (l : list A) (k : Z) :
  0 <= k -> slice_to l k = firstn (Z.to_nat k) l.
Proof.
  intros Hk. unfold slice_to.
  destruct (Z.leb_spec 0 k); [reflexivity | lia].
Qed.

Lemma length_slice_to {A : Type} (l : list A) (k : Z) :
  0 <= k <= len l -> len (slice_to l k) = k.
Proof.
  intros Hk. rewrite slice_to_nonneg by lia.
  unfold len in *. rewrite length_firstn. lia.
Qed.

Lemma for_each_app {A S : Type} (body : S -> A -> result S) (xs ys : list A) (s : S) :
  for_each body (xs ++ ys) s = (s' <- for_each body xs s ;; for_each body ys s').
Proof.
  revert s. induction xs as [|x xs IH]; intros s; cbn [for_each app bind].
  - reflexivity.
  - destruct (body s x) as [s'|e]; cbn [bind]; [apply IH | reflexivity].
Qed.

Lemma range_snoc (a b : Z) : a <= b -> range a (b + 1) = range a b ++ [b].
Proof.
  intros Hab. unfold range.
  replace (Z.to_nat (b + 1 - a)) with (Z.to_nat (b - a) + 1)%nat by lia.
  rewrite seq_app, map_app. cbn [seq map]. do 2 f_equal. lia.
Qed.

Lemma in_range (a b x : Z) : In x (range a b) <-> a <= x < b.
Proof.
  unfold range. rewrite in_map_iff. split.
  - intros (k & <- & Hk). apply in_seq in Hk. lia.
  - intros Hx. exists (Z.to_nat (x - a)). split; [lia|]. apply in_seq. lia.
Qed.

Lemma length_range (a b : Z) : a <= b -> len (range a b) = b - a.
Proof. intros Hab. unfold len, range. rewrite length_map, length_seq. lia. Qed.

(** ** Slot sampling *)

Section SamplerFacts.

Variable RNG : Type.
Variable choices : list Sampler.clip -> Z -> RNG -> result (list Sampler.clip * RNG).
Variable shuffle : list Sampler.clip -> RNG -> list Sampler.clip * RNG.

Local Abbreviation select := (Sampler.create_balanced_video_list RNG choices shuffle).

Lemma limit_positive (m : Z) (all_videos : list Sampler.clip) :
  0 < m ->
  Sampler.limit (Some m) all_videos =
  if len all_videos >? m then firstn (Z.to_nat m) all_videos else all_videos.
Proof.
  intros Hm. unfold Sampler.limit.
  destruct (Z.eqb_spec m 0); [lia|]. cbn [negb andb].
  destruct (len all_videos >? m); [apply slice_to_nonneg; lia | reflexivity].
Qed.

Lemma limit_nonempty (max_videos : option Z) (all_videos : list Sampler.clip) :
  (forall m, max_videos = Some m -> 0 < m) ->
  all_videos <> [] -> Sampler.limit max_videos all_videos <> [].
Proof.
  intros Hmax Hne. destruct max_videos as [m|]; [|exact Hne].
  rewrite limit_positive by (apply Hmax; reflexivity).
  destruct (len all_videos >? m); [|exact Hne].
  specialize (Hmax m eq_refl).
  destruct all_videos as [|c l]; [congruence|].
  replace (Z.to_nat m) with (S (Z.to_nat (m - 1))) by lia.
  cbn [firstn]. discriminate.
Qed.

(** With shuffling off and enough clips no library call is made. *)
Lemma select_without_draw (task_videos : Sampler.task_map) (rows cols : Z)
    (max_videos : option Z) (g : RNG) :
  rows * cols <= len (Sampler.limit max_videos (Sampler.tag_all task_videos)) ->
  select task_videos (rows, cols) max_videos false g =
  Ok (map fst (slice_to (Sampler.limit max_videos (Sampler.tag_all task_videos))
                        (rows * cols)), g).
Proof.
  intros Hsupply. unfold Sampler.create_balanced_video_list.
  destruct (Z.ltb_spec (len (Sampler.limit max_videos (Sampler.tag_all task_videos)))
                       (rows * cols)); [lia|].
  reflexivity.
Qed.

(** C10: with shuffling off and at least [rows * cols >= 1] clips after the
    cap, the sampler returns the first [rows * cols] videos of the flattened,
    capped sequence, leaves the generator untouched, and so returns the same
    plan from any two generator states. *)
Theorem select_deterministic_prefix (task_videos : Sampler.task_map)
    (rows cols : Z) (max_videos : option Z) (g : RNG) :
  task_videos <> [] ->
  1 <= rows * cols ->
  rows * cols <= len (Sampler.limit max_videos (Sampler.tag_all task_videos)) ->
  select task_videos (rows, cols) max_videos false g =
    Ok (firstn (Z.to_nat (rows * cols))
               (map fst (Sampler.limit max_videos (Sampler.tag_all task_videos))), g) /\
  forall g2 : RNG,
    (p <- select task_videos (rows, cols) max_videos false g ;; Ok (fst p)) =
    (p <- select task_videos (rows, cols) max_videos false g2 ;; Ok (fst p)).
Proof.
  intros _ Hslots Hsupply. split.
  - rewrite select_without_draw by assumption.
    rewrite slice_to_nonneg by lia. rewrite firstn_map. reflexivity.
  - intros g2. rewrite !select_without_draw by assumption. reflexivity.
Qed.

Lemma incl_firstn {A : Type} (k : nat) (l : list A) : incl (firstn k l) l.
Proof.
  intros x Hx. rewrite <- (firstn_skipn k l). apply in_or_app. now left.
Qed.

(** The videos of the flattened list are the videos of the groups, group
    after group. *)
Lemma tag_all_videos (task_videos : Sampler.task_map) :
  map fst (Sampler.tag_all task_videos) = flat_map snd task_videos.
Proof.
  unfold Sampler.tag_all. induction task_videos as [|[task_name videos] rest IH];
    cbn [flat_map snd]; [reflexivity|].
  rewrite map_app, IH, map_map. cbn [fst]. now rewrite map_id.
Qed.

Lemma tag_all_supplied (task_videos : Sampler.task_map) :
  task_videos <> [] ->
  (forall task_name videos, In (task_name, videos) task_videos -> videos <> []) ->
  Sampler.tag_all task_videos <> [].
Proof.
  intros Hne Hgroups. destruct task_videos as [|[task_name videos] rest]; [congruence|].
  specialize (Hgroups task_name videos (or_introl eq_refl)).
  unfold Sampler.tag_all. cbn [flat_map]. destruct videos; [congruence | discriminate].
Qed.

(** C2: for a non-empty mapping whose groups each hold at least one clip, as
    every mapping that discovery returns does, a slot count of at least 1 and
    a cap that is unset or positive, the sampler returns a plan of exactly
    [rows * cols] videos, built in this order.  The groups are flattened in
    iteration order.  The flat list is cut to its first [max_videos] entries
    when the cap is set and exceeded, before any library call.  A shortfall
    below the slot count is filled by one call
    [random.choices(all_videos, k=needed)] on the cut list, which draws with
    replacement and, no weights being passed, uniformly; its result is
    appended.  With shuffling on, [random.shuffle] is then applied to the
    whole extended list, from the generator state the draw left.  The first
    [rows * cols] entries of the outcome are the plan.  With enough supply no
    video is used more often than it was supplied, so different videos give a
    plan without repeats; with short supply some video repeats. *)
Theorem select_slots_plan (task_videos : Sampler.task_map) (rows cols : Z)
    (max_videos : option Z) (shuffle_on : bool) (g : RNG) :
  Sampler.choices_contract RNG choices ->
  Sampler.shuffle_contract RNG shuffle ->
  task_videos <> [] ->
  (forall task_name videos, In (task_name, videos) task_videos -> videos <> []) ->
  1 <= rows * cols ->
  (forall m, max_videos = Some m -> 0 < m) ->
  let slots := rows * cols in
  let flat := Sampler.tag_all task_videos in
  let truncated :=
    match max_videos with
    | Some m => if len flat >? m then firstn (Z.to_nat m) flat else flat
    | None => flat
    end in
  map fst flat = flat_map snd task_videos /\
  exists extras g1,
    (if len truncated <? slots
     then choices truncated (slots - len truncated) g = Ok (extras, g1)
     else extras = [] /\ g1 = g) /\
    len extras = Z.max 0 (slots - len truncated) /\
    incl extras truncated /\
    let extended := truncated ++ extras in
    let shuffled := if shuffle_on then shuffle extended g1 else (extended, g1) in
    let plan := map fst (firstn (Z.to_nat slots) (fst shuffled)) in
    select task_videos (rows, cols) max_videos shuffle_on g = Ok (plan, snd shuffled) /\
    len plan = slots /\
    (slots <= len truncated ->
       exists rest, Permutation (map fst truncated) (plan ++ rest)) /\
    (slots <= len truncated -> NoDup (map fst truncated) -> NoDup plan) /\
    (len truncated < slots -> ~ NoDup plan).
Proof.
  intros [Hchoose _] Hshuffle Hne Hgroups Hslots Hmax slots flat truncated.
  split; [apply tag_all_videos|].
  assert (Hsupply : flat <> []) by now apply tag_all_supplied.
  assert (Hlimit : Sampler.limit max_videos flat = truncated).
  { subst truncated. destruct max_videos as [m|]; [|reflexivity].
    apply limit_positive. now apply Hmax. }
  assert (Htrunc : truncated <> []).
  { rewrite <- Hlimit. apply limit_nonempty; assumption. }
  (* the fill step *)
  assert (Hfill : exists extras g1,
    (if len truncated <? slots
     then choices truncated (slots - len truncated) g = Ok (extras, g1)
     else extras = [] /\ g1 = g) /\
    len extras = Z.max 0 (slots - len truncated) /\ incl extras truncated).
  { destruct (Z.ltb_spec (len truncated) slots) as [Hshort | Henough].
    - destruct (Hchoose truncated (slots - len truncated) g Htrunc ltac:(lia))
        as (l & g1 & Hrun & Hlen & Hincl).
      exists l, g1. repeat split; [exact Hrun | lia | exact Hincl].
    - exists [], g. repeat split; [cbn; lia | intros x []]. }
  destruct Hfill as (extras & g1 & Hdraw & Hlen & Hincl).
  assert (Hstep :
    (if len truncated <? slots then
       '(additional_videos, g') <- choices truncated (slots - len truncated) g ;;
       Ok (truncated ++ additional_videos, g')
     else Ok (truncated, g)) = Ok (truncated ++ extras, g1)).
  { destruct (len truncated <? slots).
    - rewrite Hdraw. reflexivity.
    - destruct Hdraw as [-> ->]. now rewrite app_nil_r. }
  exists extras, g1. split; [exact Hdraw|]. split; [exact Hlen|]. split; [exact Hincl|].
  intros extended shuffled plan.
  assert (Hperm : Permutation extended (fst shuffled)).
  { subst shuffled. destruct shuffle_on; [apply Hshuffle | reflexivity]. }
  assert (Hlen_ext : len (fst shuffled) = len truncated + len extras).
  { unfold len. rewrite <- (Permutation_length Hperm). subst extended.
    rewrite length_app. lia. }
  pose proof (len_nonneg truncated) as Hc0.
  assert (Hplan_len : len plan = slots).
  { subst plan. unfold len in *. rewrite length_map, length_firstn. lia. }
  assert (Hmulti : slots <= len truncated ->
                   exists rest, Permutation (map fst truncated) (plan ++ rest)).
  { intros Henough.
    assert (Hex : extras = []) by (apply len_nil_iff; lia).
    subst extended. rewrite Hex, app_nil_r in Hperm.
    exists (map fst (skipn (Z.to_nat slots) (fst shuffled))).
    subst plan. rewrite <- map_app, firstn_skipn. apply Permutation_map. exact Hperm. }
  split; [|split; [exact Hplan_len | split; [exact Hmulti | split]]].
  - unfold Sampler.create_balanced_video_list.
    fold flat. rewrite Hlimit. fold slots. rewrite Hstep. cbn [bind].
    fold extended. fold shuffled. subst plan.
    destruct shuffled as [sh g2]. cbn [bind fst snd].
    rewrite slice_to_nonneg by lia. reflexivity.
  - intros Henough Hnodup. destruct (Hmulti Henough) as (rest & Hrest).
    apply (Permutation_NoDup Hrest) in Hnodup.
    now apply NoDup_app_remove_r in Hnodup.
  - intros Hshort Hnodup.
    assert (Hsub : incl plan (map fst truncated)).
    { subst plan. apply incl_map. intros x Hx. apply incl_firstn in Hx.
      apply (Permutation_in _ (Permutation_sym Hperm)) in Hx.
      apply in_app_or in Hx. destruct Hx as [Hx | Hx]; [exact Hx | now apply Hincl]. }
    pose proof (NoDup_incl_length Hnodup Hsub) as Hle.
    unfold len, Sampler.clip in *. rewrite length_map in Hle. lia.
Qed.

End SamplerFacts.

(** *** The counter generator meets the library contracts *)

Lemma counter_choices_contract : Sampler.choices_contract nat Sampler.counter_choices.
Proof.
  split.
  - intros population k g Hne Hk. destruct population as [|c l]; [congruence|].
    eexists _, _. split; [reflexivity|]. split.
    + unfold len. rewrite length_map, length_seq. lia.
    + intros x Hx. apply in_map_iff in Hx. destruct Hx as (i & <- & _).
      apply nth_In. apply Nat.mod_upper_bound. discriminate.
  - intros k g Hk. unfold Sampler.counter_choices.
    destruct (Z.ltb_spec 0 k); [reflexivity | lia].
Qed.

Lemma counter_shuffle_contract : Sampler.shuffle_contract nat Sampler.counter_shuffle.
Proof.
  intros l g. unfold Sampler.counter_shuffle. cbn [fst].
  rewrite <- (firstn_skipn (g mod length l) l) at 1.
  apply Permutation_app_comm.
Qed.

Lemma select_deterministic_prefix_witness :
  Sampler.create_balanced_video_list nat Sampler.counter_choices Sampler.counter_shuffle
    demo_tasks (1, 2) None false 7%nat = Ok (["a.mp4"; "b.mp4"]%string, 7%nat).
Proof.
  refine (proj1 (select_deterministic_prefix nat Sampler.counter_choices
                   Sampler.counter_shuffle demo_tasks 1 2 None 7%nat _ _ _)).
  - discriminate.
  - lia.
  - vm_compute. discriminate.
Defined.

Lemma select_slots_plan_witness :
  exists g',
    Sampler.create_balanced_video_list nat Sampler.counter_choices
      Sampler.counter_shuffle demo_tasks (2, 3) (Some 2) true 0%nat =
      Ok (["a.mp4"; "b.mp4"; "a.mp4"; "b.mp4"; "a.mp4"; "b.mp4"]%string, g') /\
    ~ NoDup ["a.mp4"; "b.mp4"; "a.mp4"; "b.mp4"; "a.mp4"; "b.mp4"]%string.
Proof.
  destruct (select_slots_plan nat Sampler.counter_choices Sampler.counter_shuffle
              demo_tasks 2 3 (Some 2) true 0%nat
              counter_choices_contract counter_shuffle_contract)
    as (_ & extras & g1 & Hdraw & _ & _ & Hrun & _ & _ & _ & Hrep).
  - discriminate.
  - intros task_name videos [E | [E | []]]; injection E as _ <-; discriminate.
  - lia.
  - intros m Hm. injection Hm as <-. lia.
  - vm_compute in Hdraw. injection Hdraw as <- <-.
    exists 5%nat. split; [exact Hrun | apply Hrep; vm_compute; reflexivity].
Defined.

(** *** The plan depends on a generator state that no argument sets *)








(** ** Filter graph assembly *)

Section GraphFacts.

Variables cols cell_width cell_height duration n_videos : Z.

Local Abbreviation cell_step :=
  (Graph.cell_step cols cell_width cell_height duration n_videos).
Local Abbreviation row_step :=
  (Graph.row_step cols cell_width cell_height duration n_videos).
Local Abbreviation blacks_of_row :=
  (Graph.blacks_of_row cols cell_width cell_height duration n_videos).
Local Abbreviation row_nodes :=
  (Graph.row_nodes cols cell_width cell_height duration n_videos).
Local Abbreviation row_videos_of := (Graph.row_videos_of cols n_videos).
Local Abbreviation row_label := (Graph.row_label cols n_videos).

Lemma cell_step_closed (row col : Z) (fc : list Graph.node) (rv : list string) :
  cell_step row (fc, rv) col =
  (fc ++ (if negb (row * cols + col <? n_videos)
          then [Graph.ColorFill cell_width cell_height duration (row * cols + col)]
          else []),
   rv ++ [Graph.cell_label n_videos (row * cols + col)]).
Proof.
  unfold Graph.cell_step, Graph.cell_label.
  destruct (row * cols + col <? n_videos); cbn [negb];
    rewrite ?app_nil_r; reflexivity.
Qed.

Lemma cell_loop_closed (row : Z) (l : list Z) (fc : list Graph.node) (rv : list string) :
  fold_left (cell_step row) l (fc, rv) =
  (fc ++ map (fun col => Graph.ColorFill cell_width cell_height duration (row * cols + col))
             (filter (fun col => negb (row * cols + col <? n_videos)) l),
   rv ++ map (fun col => Graph.cell_label n_videos (row * cols + col)) l).
Proof.
  revert fc rv. induction l as [|col l IH]; intros fc rv; cbn [fold_left filter map].
  - now rewrite !app_nil_r.
  - rewrite cell_step_closed, IH.
    destruct (negb (row * cols + col <? n_videos)); cbn [map];
      rewrite <- ?app_assoc, ?app_nil_r; reflexivity.
Qed.

Lemma length_row_videos (row : Z) : 0 <= cols -> len (row_videos_of row) = cols.
Proof.
  intros Hc. unfold Graph.row_videos_of, len. rewrite length_map.
  fold (len (range0 cols)). unfold range0. rewrite length_range; lia.
Qed.

Lemma row_step_closed (fc : list Graph.node) (ri : list string) (row : Z) :
  1 <= cols ->
  row_step (fc, ri) row = Ok (fc ++ row_nodes row, ri ++ [row_label row]).
Proof.
  intros Hc. unfold Graph.row_step. rewrite cell_loop_closed. cbn [app].
  fold (blacks_of_row row). fold (row_videos_of row).
  rewrite length_row_videos by lia.
  unfold Graph.row_nodes, Graph.row_label.
  destruct (Z.gtb_spec cols 1) as [Hwide | Hone].
  - rewrite <- app_assoc. reflexivity.
  - assert (cols = 1) by lia. subst cols.
    unfold Graph.row_videos_of. cbn [range0 range Z.sub Z.to_nat Pos.to_nat
      Pos.iter_op seq map item0 bind Z.of_nat Z.add].
    rewrite app_nil_r. reflexivity.
Qed.

Lemma row_loop_closed (rs : list Z) (fc : list Graph.node) (ri : list string) :
  1 <= cols ->
  for_each row_step rs (fc, ri) =
  Ok (fc ++ flat_map row_nodes rs, ri ++ map row_label rs).
Proof.
  intros Hc. revert fc ri.
  induction rs as [|row rs IH]; intros fc ri; cbn [for_each flat_map map].
  - now rewrite !app_nil_r.
  - rewrite row_step_closed by assumption. cbn [bind].
    rewrite IH, <- !app_assoc. reflexivity.
Qed.

End GraphFacts.

Lemma range0_one : range0 1 = [0].
Proof. reflexivity. Qed.

Lemma build_filter_graph_closed (rows cols cell_width cell_height duration : Z)
    (video_params : list Crop.crop_params) :
  1 <= rows -> 1 <= cols ->
  Graph.build_filter_graph rows cols cell_width cell_height duration video_params =
  Ok (Graph.crop_scale_nodes video_params cell_width cell_height ++
      flat_map (Graph.row_nodes cols cell_width cell_height duration (len video_params))
               (range0 rows) ++
      (if rows >? 1
       then [Graph.VStack (map (Graph.row_label cols (len video_params)) (range0 rows))]
       else []),
      if rows >? 1 then Graph.final else Graph.row_label cols (len video_params) 0).
Proof.
  intros Hr Hc. unfold Graph.build_filter_graph.
  rewrite row_loop_closed by assumption. cbn [bind app].
  replace (len (map (Graph.row_label cols (len video_params)) (range0 rows))) with rows.
  2:{ unfold len. rewrite length_map. fold (len (range0 rows)).
      unfold range0. rewrite length_range; lia. }
  destruct (Z.gtb_spec rows 1) as [Hmany | Hone].
  - rewrite <- app_assoc. reflexivity.
  - assert (rows = 1) by lia. subst rows.
    rewrite range0_one. cbn [map item0 bind flat_map]. rewrite !app_nil_r. reflexivity.
Qed.

(** *** Ordering *)

Lemma ordered_from_app (seen : list string) (a b : list Graph.node) :
  Graph.ordered_from seen (a ++ b) <->
  Graph.ordered_from seen a /\
  Graph.ordered_from (rev (map Graph.node_output a) ++ seen) b.
Proof.
  revert seen. induction a as [|n a IH]; intros seen; cbn [app Graph.ordered_from map rev].
  - tauto.
  - rewrite IH, <- app_assoc. cbn [app]. tauto.
Qed.

Lemma ordered_from_sources (seen : list string) (l : list Graph.node) :
  (forall n, In n l -> Graph.node_inputs n = []) -> Graph.ordered_from seen l.
Proof.
  revert seen. induction l as [|n l IH]; intros seen Hsrc; cbn [Graph.ordered_from].
  - exact I.
  - split.
    + rewrite (Hsrc n) by now left. intros x [].
    + apply IH. intros m Hm. apply Hsrc. now right.
Qed.

Lemma ordered_topological (nodes : list Graph.node) :
  Graph.ordered_from [] nodes -> Graph.topological nodes.
Proof.
  intros Hord before n after ->.
  apply ordered_from_app in Hord. destruct Hord as [_ [Hin _]].
  rewrite app_nil_r in Hin. intros x Hx. apply in_rev. now apply Hin.
Qed.

Lemma map_combine_fst {A B C : Type} (f : A -> C) (la : list A) (lb : list B) :
  length la = length lb ->
  map (fun p : A * B => f (fst p)) (combine la lb) = map f la.
Proof.
  revert lb. induction la as [|a la IH]; intros [|b lb] Hlen;
    cbn [combine map length] in *; try reflexivity; try discriminate.
  f_equal. apply IH. now injection Hlen.
Qed.

Lemma crop_scale_outputs (video_params : list Crop.crop_params) (cw ch : Z) :
  map Graph.node_output (Graph.crop_scale_nodes video_params cw ch) =
  map (Graph.label "v") (range0 (len video_params)).
Proof.
  unfold Graph.crop_scale_nodes, Graph.enumerate. rewrite map_map.
  rewrite <- (map_combine_fst (Graph.label "v") (range0 (len video_params)) video_params).
  - apply map_ext. intros [i p]. reflexivity.
  - unfold range0, range. rewrite length_map, length_seq. unfold len. lia.
Qed.

Lemma crop_scale_sources (video_params : list Crop.crop_params) (cw ch : Z) (n : Graph.node) :
  In n (Graph.crop_scale_nodes video_params cw ch) ->
  Graph.node_inputs n = [] /\ Graph.is_cell n = true.
Proof.
  unfold Graph.crop_scale_nodes. intros Hn. apply in_map_iff in Hn.
  destruct Hn as ([i p] & <- & _). split; reflexivity.
Qed.

Lemma length_crop_scale_nodes (video_params : list Crop.crop_params) (cw ch : Z) :
  len (Graph.crop_scale_nodes video_params cw ch) = len video_params.
Proof.
  unfold Graph.crop_scale_nodes, Graph.enumerate, len.
  rewrite length_map, length_combine.
  unfold range0, range. rewrite length_map, length_seq. unfold len. lia.
Qed.

Section Ordering.

Variables cols cell_width cell_height duration : Z.
Variable video_params : list Crop.crop_params.

Local Abbreviation n_videos := (len video_params).
Local Abbreviation cells := (Graph.crop_scale_nodes video_params cell_width cell_height).
Local Abbreviation blacks_of_row :=
  (Graph.blacks_of_row cols cell_width cell_height duration n_videos).
Local Abbreviation row_nodes :=
  (Graph.row_nodes cols cell_width cell_height duration n_videos).

(** The pad of a grid cell is written by a crop-and-scale node or by a filler
    node of its own row. *)
Lemma cell_label_written (row col : Z) :
  0 <= row -> In col (range0 cols) ->
  In (Graph.cell_label n_videos (row * cols + col))
     (map Graph.node_output (blacks_of_row row) ++ map Graph.node_output cells).
Proof.
  intros Hrow Hcol. pose proof Hcol as Hcol'.
  apply in_range in Hcol'. apply in_or_app.
  unfold Graph.cell_label.
  destruct (Z.ltb_spec (row * cols + col) n_videos) as [Hreal | Hfill].
  - right. rewrite crop_scale_outputs. apply in_map. apply in_range. nia.
  - left. unfold Graph.blacks_of_row. rewrite map_map. cbn [Graph.node_output].
    apply (in_map (fun col0 => Graph.label "black" (row * cols + col0))).
    apply filter_In. split; [exact Hcol|].
    destruct (Z.ltb_spec (row * cols + col) n_videos); [lia | reflexivity].
Qed.

Lemma blacks_sources (row : Z) (n : Graph.node) :
  In n (blacks_of_row row) -> Graph.node_inputs n = [] /\ Graph.is_cell n = true.
Proof.
  unfold Graph.blacks_of_row. intros Hn. apply in_map_iff in Hn.
  destruct Hn as (col & <- & _). split; reflexivity.
Qed.

Lemma row_nodes_ordered (seen : list string) (row : Z) :
  0 <= row -> incl (map Graph.node_output cells) seen ->
  Graph.ordered_from seen (row_nodes row).
Proof.
  intros Hrow Hseen. unfold Graph.row_nodes. apply ordered_from_app. split.
  - apply ordered_from_sources. intros n Hn. now apply blacks_sources in Hn.
  - destruct (cols >? 1); cbn [Graph.ordered_from]; [|exact I].
    split; [|exact I]. cbn [Graph.node_inputs]. unfold Graph.row_videos_of.
    intros x Hx. apply in_map_iff in Hx. destruct Hx as (col & <- & Hcol).
    pose proof (cell_label_written row col Hrow Hcol) as Hw.
    apply in_app_or in Hw. apply in_or_app.
    destruct Hw as [Hw | Hw]; [left; now apply in_rev in Hw | right; now apply Hseen].
Qed.

Lemma rows_ordered (rs : list Z) (seen : list string) :
  (forall r, In r rs -> 0 <= r) -> incl (map Graph.node_output cells) seen ->
  Graph.ordered_from seen (flat_map row_nodes rs).
Proof.
  revert seen. induction rs as [|r rs IH]; intros seen Hrs Hseen; cbn [flat_map].
  - exact I.
  - apply ordered_from_app. split.
    + apply row_nodes_ordered; [apply Hrs; now left | exact Hseen].
    + apply IH; [intros r' Hr'; apply Hrs; now right|].
      intros x Hx. apply in_or_app. right. now apply Hseen.
Qed.

(** The pad a row contributes to [rows_inputs] is written by that row's nodes
    or by a crop-and-scale node. *)
Lemma row_label_written (rs : list Z) (row : Z) :
  1 <= cols -> 0 <= row -> In row rs ->
  In (Graph.row_label cols n_videos row)
     (map Graph.node_output (flat_map row_nodes rs) ++ map Graph.node_output cells).
Proof.
  intros Hc Hrow Hin. unfold Graph.row_label.
  destruct (Z.gtb_spec cols 1) as [Hwide | Hone].
  - apply in_or_app. left.
    apply (in_map Graph.node_output _
             (Graph.HStack (Graph.row_videos_of cols n_videos row) row)).
    apply in_flat_map. exists row. split; [exact Hin|].
    unfold Graph.row_nodes. apply in_or_app. right.
    destruct (Z.gtb_spec cols 1); [now left | lia].
  - assert (H0 : In 0 (range0 cols)) by (apply in_range; lia).
    pose proof (cell_label_written row 0 Hrow H0) as Hw.
    apply in_app_or in Hw. apply in_or_app. destruct Hw as [Hw | Hw]; [left | now right].
    rewrite flat_map_concat_map, concat_map. apply in_concat.
    exists (map Graph.node_output (row_nodes row)). split.
    + apply in_map, in_map, Hin.
    + unfold Graph.row_nodes. rewrite map_app. apply in_or_app. now left.
Qed.

Lemma emitted_sequence_ordered (rows : Z) :
  1 <= cols ->
  Graph.ordered_from []
    (cells ++ flat_map row_nodes (range0 rows) ++
     (if rows >? 1
      then [Graph.VStack (map (Graph.row_label cols n_videos) (range0 rows))]
      else [])).
Proof.
  intros Hc.
  assert (Hnonneg : forall r, In r (range0 rows) -> 0 <= r).
  { intros r Hr. apply in_range in Hr. lia. }
  apply ordered_from_app. split.
  - apply ordered_from_sources. intros n Hn. now apply crop_scale_sources in Hn.
  - rewrite app_nil_r. apply ordered_from_app. split.
    + apply rows_ordered; [exact Hnonneg|]. intros x Hx. now apply in_rev in Hx.
    + destruct (rows >? 1); cbn [Graph.ordered_from]; [|exact I].
      split; [|exact I]. cbn [Graph.node_inputs].
      intros x Hx. apply in_map_iff in Hx. destruct Hx as (row & <- & Hrow).
      pose proof (row_label_written (range0 rows) row Hc (Hnonneg row Hrow) Hrow) as Hw.
      apply in_app_or in Hw. apply in_or_app.
      destruct Hw as [Hw | Hw]; [left | right]; now apply in_rev in Hw.
Qed.

End Ordering.

(** *** A full selection: no filler, one stack per row *)

Lemma filter_none {A : Type} (f : A -> bool) (l : list A) :
  (forall x, In x l -> f x = false) -> filter f l = [].
Proof.
  induction l as [|x l IH]; intros Hf; cbn [filter]; [reflexivity|].
  rewrite (Hf x) by now left. apply IH. intros y Hy. apply Hf. now right.
Qed.

Lemma blacks_of_row_full (rows cols cw ch duration row : Z) :
  0 <= row < rows ->
  Graph.blacks_of_row cols cw ch duration (rows * cols) row = [].
Proof.
  intros Hrow. unfold Graph.blacks_of_row. rewrite filter_none; [reflexivity|].
  intros col Hcol. apply in_range in Hcol.
  destruct (Z.ltb_spec (row * cols + col) (rows * cols)); [reflexivity | nia].
Qed.

Lemma row_nodes_full (rows cols cw ch duration : Z) (rs : list Z) :
  (forall r, In r rs -> 0 <= r < rows) ->
  flat_map (Graph.row_nodes cols cw ch duration (rows * cols)) rs =
  if cols >? 1
  then map (fun r => Graph.HStack (Graph.row_videos_of cols (rows * cols) r) r) rs
  else [].
Proof.
  induction rs as [|r rs IH]; intros Hrs; cbn [flat_map map].
  - now destruct (cols >? 1).
  - rewrite IH by (intros r' Hr'; apply Hrs; now right).
    unfold Graph.row_nodes. rewrite blacks_of_row_full by (apply Hrs; now left).
    destruct (cols >? 1); reflexivity.
Qed.

Lemma build_filter_graph_full (rows cols cw ch duration : Z)
    (video_params : list Crop.crop_params) :
  1 <= rows -> 1 <= cols -> len video_params = rows * cols ->
  Graph.well_formed_grid_graph rows cols
    (Graph.build_filter_graph rows cols cw ch duration video_params).
Proof.
  intros Hr Hc Hfull.
  pose proof (emitted_sequence_ordered cols cw ch duration video_params rows Hc) as Hord.
  rewrite build_filter_graph_closed by assumption.
  rewrite Hfull in *.
  rewrite row_nodes_full in * by (intros r Hin; apply in_range in Hin; lia).
  eexists _, _, _, _. split; [reflexivity|].
  assert (Hcells : len (Graph.crop_scale_nodes video_params cw ch) = rows * cols).
  { rewrite length_crop_scale_nodes. exact Hfull. }
  assert (Hrows : len (if cols >? 1
                       then map (fun r => Graph.HStack
                                   (Graph.row_videos_of cols (rows * cols) r) r)
                                (range0 rows)
                       else []) = (if cols >? 1 then rows else 0)).
  { destruct (cols >? 1); [|reflexivity].
    unfold len. rewrite length_map. fold (len (range0 rows)).
    unfold range0. rewrite length_range; lia. }
  assert (Hfinal : len (if rows >? 1
                        then [Graph.VStack (map (Graph.row_label cols (rows * cols))
                                                (range0 rows))]
                        else []) = (if rows >? 1 then 1 else 0)).
  { destruct (rows >? 1); reflexivity. }
  repeat split.
  - apply forallb_forall. intros n Hn. now apply crop_scale_sources in Hn.
  - destruct (cols >? 1); [|reflexivity].
    apply forallb_forall. intros n Hn. apply in_map_iff in Hn.
    destruct Hn as (r & <- & _). reflexivity.
  - destruct (rows >? 1); reflexivity.
  - exact Hcells.
  - exact Hrows.
  - exact Hfinal.
  - rewrite !len_app, Hcells, Hrows, Hfinal. lia.
  - apply ordered_topological. exact Hord.
Qed.

(** *** Degenerate stacks *)

Lemma no_vstack_in_cells_and_rows (cols cw ch duration : Z)
    (video_params : list Crop.crop_params) (rs : list Z) :
  forallb (fun n => negb (Graph.is_vstack n))
    (Graph.crop_scale_nodes video_params cw ch ++
     flat_map (Graph.row_nodes cols cw ch duration (len video_params)) rs) = true.
Proof.
  apply forallb_forall. intros n Hn. apply in_app_or in Hn. destruct Hn as [Hn | Hn].
  - apply crop_scale_sources in Hn. destruct n; cbn in *; intuition congruence.
  - apply in_flat_map in Hn. destruct Hn as (r & _ & Hn).
    unfold Graph.row_nodes in Hn. apply in_app_or in Hn. destruct Hn as [Hn | Hn].
    + apply blacks_sources in Hn. destruct n; cbn in *; intuition congruence.
    + destruct (cols >? 1); [|destruct Hn]. destruct Hn as [<- | []]. reflexivity.
Qed.

(** C9: a 1x1 layout with one clip compiles to the single crop-and-scale
    node, whose pad is the output, and no stack; in general a row of a
    one-column layout contributes its cell's own pad and no horizontal stack,
    and a one-row layout has the pad of its only row as output and no
    vertical stack. *)
Theorem degenerate_stacks_are_skipped (cols cell_width cell_height duration : Z)
    (video_params : list Crop.crop_params) (p : Crop.crop_params) :
  1 <= cols ->
  Graph.build_filter_graph 1 1 cell_width cell_height duration [p] =
    Ok ([Graph.CropScale 0 p cell_width cell_height], Graph.label "v" 0) /\
  (forall (filter_complex : list Graph.node) (rows_inputs : list string) (row : Z),
     exists fillers,
       Graph.row_step 1 cell_width cell_height duration (len video_params)
                      (filter_complex, rows_inputs) row =
       Ok (filter_complex ++ fillers,
           rows_inputs ++ [Graph.cell_label (len video_params) row]) /\
       forallb Graph.is_cell fillers = true) /\
  (exists nodes,
     Graph.build_filter_graph 1 cols cell_width cell_height duration video_params =
       Ok (nodes, Graph.row_label cols (len video_params) 0) /\
     forallb (fun n => negb (Graph.is_vstack n)) nodes = true /\
     (cols > 1 -> Graph.row_label cols (len video_params) 0 = Graph.label "row" 0 /\
                  exists inputs, In (Graph.HStack inputs 0) nodes) /\
     (cols = 1 -> Graph.row_label cols (len video_params) 0 =
                  Graph.cell_label (len video_params) 0 /\
                  forallb (fun n => negb (Graph.is_hstack n)) nodes = true)).
Proof.
  intros Hc. split; [reflexivity | split].
  - intros fc ri row. eexists. split.
    + rewrite row_step_closed by lia. unfold Graph.row_nodes, Graph.row_label.
      cbn [Z.gtb Z.compare Pos.compare Pos.compare_cont]. rewrite app_nil_r.
      replace (row * 1 + 0) with row by lia. reflexivity.
    + apply forallb_forall. intros n Hn. now apply blacks_sources in Hn.
  - eexists. split; [|split; [|split]].
    + rewrite build_filter_graph_closed by lia.
      cbn [Z.gtb Z.compare Pos.compare Pos.compare_cont].
      rewrite app_nil_r. reflexivity.
    + apply no_vstack_in_cells_and_rows.
    + intros Hwide. unfold Graph.row_label.
      destruct (Z.gtb_spec cols 1) as [_ | Hone]; [|lia].
      split; [reflexivity|]. eexists. apply in_or_app. right.
      rewrite range0_one. cbn [flat_map]. rewrite app_nil_r.
      unfold Graph.row_nodes. apply in_or_app. right.
      destruct (Z.gtb_spec cols 1); [now left | lia].
    + intros ->. split; [reflexivity|].
      apply forallb_forall. intros n Hn. apply in_app_or in Hn.
      destruct Hn as [Hn | Hn].
      * apply crop_scale_sources in Hn. destruct n; cbn in *; intuition congruence.
      * rewrite range0_one in Hn. cbn [flat_map] in Hn. rewrite app_nil_r in Hn.
        unfold Graph.row_nodes in Hn. cbn [Z.gtb Z.compare Pos.compare
          Pos.compare_cont] in Hn. rewrite app_nil_r in Hn.
        apply blacks_sources in Hn. destruct n; cbn in *; intuition congruence.
Qed.

Lemma degenerate_stacks_are_skipped_witness :
  Graph.build_filter_graph 1 1 1920 1080 30
    [Crop.get_video_crop_params (Crop.mkStream 1920 1080 (30, 1)) "center"] =
  Ok ([Graph.CropScale 0
         (Crop.get_video_crop_params (Crop.mkStream 1920 1080 (30, 1)) "center")
         1920 1080],
      Graph.label "v" 0).
Proof.
  apply (degenerate_stacks_are_skipped 1 1920 1080 30 []). lia.
Defined.

(** ** Layout: an explicit override *)

Lemma floordiv_ok (a b : Z) : b <> 0 -> floordiv a b = Ok (a / b).
Proof.
  intros Hb. unfold floordiv. destruct (Z.eqb_spec b 0); [contradiction | reflexivity].
Qed.

Lemma limit_nil (max_videos : option Z) : Sampler.limit max_videos [] = [].
Proof.
  destruct max_videos as [m|]; [|reflexivity]. unfold Sampler.limit.
  destruct (negb (m =? 0) && (len (@nil Sampler.clip) >? m)); [|reflexivity].
  unfold slice_to. destruct (0 <=? m); apply firstn_nil.
Qed.

(** C8, as the code has it: an explicit [(rows, cols)] bypasses the search
    (the result does not depend on the clip count) and is checked for nothing
    but division by zero: the cell sizes are the integer quotients, whatever
    their sign, and only [rows = 0] or [cols = 0] stops the run, with
    [ZeroDivisionError]. *)
Theorem override_layout_unchecked (rows cols total_videos target_width target_height : Z) :
  Layout.choose_layout (Some (rows, cols)) total_videos target_width target_height =
  if (cols =? 0) || (rows =? 0) then Raise ZeroDivisionError
  else Ok (rows, cols, target_width / cols, target_height / rows).
Proof.
  unfold Layout.choose_layout, floordiv.
  destruct (cols =? 0), (rows =? 0); reflexivity.
Qed.

(** An override with more columns than pixels, and one with negative counts,
    are both accepted. *)
Lemma override_layout_accepts_empty_cells :
  0 < 1 /\ 0 < 3000 /\ 1920 / 3000 = 0 /\
  Layout.choose_layout (Some (1, 3000)) 5 1920 1080 = Ok (1, 3000, 0, 1080) /\
  Layout.choose_layout (Some (-2, -3)) 5 1920 1080 = Ok (-2, -3, -640, -540).
Proof. repeat split; reflexivity. Qed.

(** ** Binary64: digit counts *)

Lemma digits2_pos_size (p : positive) : digits2_pos p = Pos.size p.
Proof. induction p as [p IH | p IH |]; cbn [digits2_pos Pos.size]; congruence. Qed.

Lemma Zdigits2_pos_bounds (p : positive) :
  2 ^ (Zpos (digits2_pos p) - 1) <= Zpos p < 2 ^ Zpos (digits2_pos p).
Proof.
  rewrite digits2_pos_size.
  pose proof (Pos.size_gt p) as Hgt. pose proof (Pos.size_le p) as Hle.
  assert (Hpow : Zpos (2 ^ Pos.size p) = 2 ^ Zpos (Pos.size p))
    by apply Pos2Z.inj_pow.
  assert (Hsplit : 2 ^ Zpos (Pos.size p) = 2 * 2 ^ (Zpos (Pos.size p) - 1)).
  { rewrite <- Z.pow_succ_r by lia. f_equal. lia. }
  split; [|lia].
  assert (Zpos (2 ^ Pos.size p) <= Zpos p~0) by exact Hle. lia.
Qed.

Lemma Zdigits2_nonneg (m : Z) : 0 <= Zdigits2 m.
Proof. destruct m; cbn; lia. Qed.

(** For a non-negative [m], [Zdigits2 m <= d] says [m < 2^d]. *)
Lemma Zdigits2_le_iff (m d : Z) :
  0 <= m -> 0 <= d -> (Zdigits2 m <= d <-> m < 2 ^ d).
Proof.
  intros Hm Hd. destruct m as [|p|p]; [| |lia].
  - cbn [Zdigits2]. pose proof (Z.pow_pos_nonneg 2 d). lia.
  - cbn [Zdigits2]. pose proof (Zdigits2_pos_bounds p) as [Hlo Hhi]. split.
    + intros Hle. apply Z.lt_le_trans with (1 := Hhi).
      apply Z.pow_le_mono_r; lia.
    + intros Hlt. 
      destruct (Z.le_gt_cases (Zpos (digits2_pos p)) d) as [|Hgt]; [assumption|].
      assert (2 ^ d <= 2 ^ (Zpos (digits2_pos p) - 1)) by (apply Z.pow_le_mono_r; lia).
      lia.
Qed.

Lemma Zdigits2_lt_pow (m : Z) : 0 <= m -> m < 2 ^ Zdigits2 m.
Proof. intros Hm. apply Zdigits2_le_iff; [assumption | apply Zdigits2_nonneg | lia]. Qed.

Lemma Zdigits2_le (a b : Z) : 0 <= a <= b -> Zdigits2 a <= Zdigits2 b.
Proof.
  intros Hab. apply Zdigits2_le_iff; [lia | apply Zdigits2_nonneg |].
  pose proof (Zdigits2_lt_pow b). lia.
Qed.

Lemma Zdigits2_succ (m : Z) : 0 <= m -> Zdigits2 (m + 1) <= Zdigits2 m + 1.
Proof.
  intros Hm. pose proof (Zdigits2_nonneg m).
  apply Zdigits2_le_iff; [lia | lia |].
  pose proof (Zdigits2_lt_pow m Hm). rewrite Z.pow_add_r by lia. lia.
Qed.

Lemma Zdigits2_div_pow2 (m k : Z) :
  0 <= m -> 0 <= k -> Zdigits2 (m / 2 ^ k) + k <= Z.max k (Zdigits2 m).
Proof.
  intros Hm Hk. pose proof (Zdigits2_nonneg m) as Hd.
  pose proof (Zdigits2_lt_pow m Hm) as Hlt.
  assert (Hpk : 0 < 2 ^ k) by (apply Z.pow_pos_nonneg; lia).
  assert (Hq : 0 <= m / 2 ^ k) by (apply Z.div_pos; lia).
  destruct (Z.le_gt_cases k (Zdigits2 m)) as [Hle | Hgt].
  - assert (Zdigits2 (m / 2 ^ k) <= Zdigits2 m - k); [|lia].
    apply Zdigits2_le_iff; [assumption | lia |].
    apply Z.div_lt_upper_bound; [assumption|].
    rewrite <- Z.pow_add_r by lia. replace (k + (Zdigits2 m - k)) with (Zdigits2 m) by lia.
    assumption.
  - assert (m / 2 ^ k = 0) as ->.
    { apply Z.div_small. split; [assumption|].
      apply Z.lt_le_trans with (1 := Hlt). apply Z.pow_le_mono_r; lia. }
    cbn [Zdigits2]. lia.
Qed.

Lemma Zdigits2_mul_pow2 (m k : Z) :
  0 < m -> 0 <= k -> Zdigits2 (m * 2 ^ k) = Zdigits2 m + k.
Proof.
  intros Hm Hk. destruct m as [|p|p]; try lia.
  assert (Hpk : 0 < 2 ^ k) by (apply Z.pow_pos_nonneg; lia).
  pose proof (Zdigits2_pos_bounds p) as [Hlo Hhi].
  assert (Hprod : 0 < Zpos p * 2 ^ k) by lia.
  destruct (Zpos p * 2 ^ k) as [|q|q] eqn:Eq; try lia.
  pose proof (Zdigits2_pos_bounds q) as [Hlo' Hhi']. cbn [Zdigits2].
  assert (H1 : 2 ^ (Zpos (digits2_pos p) - 1 + k) <= Zpos q).
  { rewrite Z.pow_add_r by lia. rewrite <- Eq. nia. }
  assert (H2 : Zpos q < 2 ^ (Zpos (digits2_pos p) + k)).
  { rewrite Z.pow_add_r by lia. rewrite <- Eq. nia. }
  assert (Zpos (digits2_pos p) - 1 + k < Zpos (digits2_pos q)).
  { apply (Z.pow_lt_mono_r_iff 2); lia. }
  assert (Zpos (digits2_pos q) - 1 < Zpos (digits2_pos p) + k).
  { apply (Z.pow_lt_mono_r_iff 2); lia. }
  lia.
Qed.

(** ** Binary64: right shifts *)

Lemma shr_1_m (mrs : shr_record) :
  0 <= shr_m mrs -> shr_m (shr_1 mrs) = shr_m mrs / 2.
Proof.
  destruct mrs as [m r s]. cbn [shr_m]. intros Hm.
  destruct m as [|[p|p|]|p]; cbn [shr_1 shr_m]; try lia; try reflexivity.
  - rewrite Pos2Z.inj_xI. apply Z.div_unique with 1; lia.
  - rewrite Pos2Z.inj_xO. apply Z.div_unique with 0; lia.
Qed.

Lemma pow2_xO (n : positive) : 2 ^ Zpos n~0 = 2 ^ Zpos n * 2 ^ Zpos n.
Proof. rewrite <- Z.pow_add_r by lia. f_equal. lia. Qed.

Lemma pow2_xI (n : positive) : 2 ^ Zpos n~1 = 2 * 2 ^ Zpos n * 2 ^ Zpos n.
Proof.
  rewrite <- Z.mul_assoc, <- Z.pow_add_r, <- Z.pow_succ_r by lia. f_equal. lia.
Qed.

Lemma iter_pos_shr_1_m (n : positive) (mrs : shr_record) :
  0 <= shr_m mrs -> shr_m (iter_pos shr_1 n mrs) = shr_m mrs / 2 ^ Zpos n.
Proof.
  revert mrs. induction n as [n IH | n IH |]; intros mrs Hm; cbn [iter_pos].
  - assert (Hp : 0 < 2 ^ Zpos n) by (apply Z.pow_pos_nonneg; lia).
    assert (H1 : 0 <= shr_m (shr_1 mrs)).
    { rewrite shr_1_m by assumption. apply Z.div_pos; lia. }
    assert (H2 : 0 <= shr_m (iter_pos shr_1 n (shr_1 mrs))).
    { rewrite IH by assumption. apply Z.div_pos; lia. }
    rewrite IH, IH, shr_1_m by assumption.
    rewrite pow2_xI, !Z.div_div by lia. f_equal. ring.
  - assert (Hp : 0 < 2 ^ Zpos n) by (apply Z.pow_pos_nonneg; lia).
    assert (H2 : 0 <= shr_m (iter_pos shr_1 n mrs)).
    { rewrite IH by assumption. apply Z.div_pos; lia. }
    rewrite IH, IH by assumption.
    rewrite pow2_xO, !Z.div_div by lia. f_equal.
  - rewrite shr_1_m by assumption. reflexivity.
Qed.

Lemma shr_spec (mrs : shr_record) (e n : Z) :
  0 <= shr_m mrs ->
  shr_m (fst (shr mrs e n)) = shr_m mrs / 2 ^ Z.max 0 n /\
  snd (shr mrs e n) = e + Z.max 0 n.
Proof.
  intros Hm. destruct n as [|p|p]; cbn [shr fst snd].
  - cbn. rewrite Z.div_1_r. lia.
  - rewrite iter_pos_shr_1_m by assumption. split; [f_equal; f_equal; lia | lia].
  - replace (Z.max 0 (Zneg p)) with 0 by lia. cbn. rewrite Z.div_1_r. lia.
Qed.

(** ** Binary64: rounding *)

Local Abbreviation fexp := (SpecFloat.fexp PyFloat.prec PyFloat.emax).
Local Abbreviation shr_fexp := (SpecFloat.shr_fexp PyFloat.prec PyFloat.emax).
Local Abbreviation binary_round_aux :=
  (SpecFloat.binary_round_aux PyFloat.prec PyFloat.emax).
Local Abbreviation binary_round := (SpecFloat.binary_round PyFloat.prec PyFloat.emax).
Local Abbreviation binary_normalize :=
  (SpecFloat.binary_normalize PyFloat.prec PyFloat.emax).

Lemma fexp_eq (x : Z) : fexp x = Z.max (x - 53) (-1074).
Proof. reflexivity. Qed.

Lemma shr_record_of_loc_m (m : Z) (l : location) : shr_m (shr_record_of_loc m l) = m.
Proof. destruct l as [|[| |]]; reflexivity. Qed.

Lemma shr_fexp_spec (m e : Z) (l : location) :
  0 <= m ->
  shr_m (fst (shr_fexp m e l)) = m / 2 ^ Z.max 0 (fexp (Zdigits2 m + e) - e) /\
  snd (shr_fexp m e l) = e + Z.max 0 (fexp (Zdigits2 m + e) - e).
Proof.
  intros Hm. unfold SpecFloat.shr_fexp.
  rewrite <- (shr_record_of_loc_m m l) at 3.
  apply shr_spec. now rewrite shr_record_of_loc_m.
Qed.

Lemma round_nearest_even_bounds (m : Z) (l : location) :
  m <= round_nearest_even m l <= m + 1.
Proof.
  unfold round_nearest_even. destruct l as [|[| |]]; try destruct (Z.even m); lia.
Qed.

(** The shape of a rounded result and where its leading bit can be. *)
Lemma binary_round_aux_spec (s : bool) (m e : Z) (l : location) :
  0 <= m ->
  exists m' e',
    binary_round_aux s m e l = rounded s m' e' /\
    0 <= m' /\
    e' <= Z.max (Z.max e (Zdigits2 m + e - 52)) (-1074) /\
    Zdigits2 m' + e' <= Z.max (Z.max e (Zdigits2 m + e)) (-1074) + 1.
Proof.
  intros Hm. unfold SpecFloat.binary_round_aux.
  pose proof (shr_fexp_spec m e l Hm) as [Hm1 He1].
  destruct (shr_fexp m e l) as [mrs1 e1]. cbn [fst snd] in Hm1, He1.
  set (k1 := Z.max 0 (fexp (Zdigits2 m + e) - e)) in *.
  assert (Hk1 : 0 <= k1) by (subst k1; lia).
  assert (Hm1pos : 0 <= shr_m mrs1).
  { rewrite Hm1. apply Z.div_pos; [lia | apply Z.pow_pos_nonneg; lia]. }
  pose proof (round_nearest_even_bounds (shr_m mrs1) (loc_of_shr_record mrs1)) as Hr.
  set (mr := round_nearest_even (shr_m mrs1) (loc_of_shr_record mrs1)) in *.
  assert (Hmr : 0 <= mr) by lia.
  pose proof (shr_fexp_spec mr e1 loc_Exact Hmr) as [Hm2 He2].
  destruct (shr_fexp mr e1 loc_Exact) as [mrs2 e2]. cbn [fst snd] in Hm2, He2.
  set (k2 := Z.max 0 (fexp (Zdigits2 mr + e1) - e1)) in *.
  assert (Hk2 : 0 <= k2) by (subst k2; lia).
  exists (shr_m mrs2), e2. split; [reflexivity|].
  assert (Hm2pos : 0 <= shr_m mrs2).
  { rewrite Hm2. apply Z.div_pos; [lia | apply Z.pow_pos_nonneg; lia]. }
  split; [exact Hm2pos|].
  pose proof (Zdigits2_div_pow2 m k1 Hm Hk1) as Hd1. rewrite <- Hm1 in Hd1.
  pose proof (Zdigits2_div_pow2 mr k2 Hmr Hk2) as Hd2. rewrite <- Hm2 in Hd2.
  assert (Hdr : Zdigits2 mr <= Zdigits2 (shr_m mrs1) + 1).
  { apply Z.le_trans with (Zdigits2 (shr_m mrs1 + 1)).
    - apply Zdigits2_le. lia.
    - apply Zdigits2_succ. exact Hm1pos. }
  pose proof (Zdigits2_nonneg m). pose proof (Zdigits2_nonneg mr).
  pose proof (Zdigits2_nonneg (shr_m mrs1)). pose proof (Zdigits2_nonneg (shr_m mrs2)).
  subst k1 k2. rewrite !fexp_eq in *. lia.
Qed.

(** A mantissa already in canonical position is left as it is. *)
Lemma binary_round_aux_exact (s : bool) (p : positive) (e : Z) :
  fexp (Zpos (digits2_pos p) + e) = e -> e <= 971 ->
  binary_round_aux s (Zpos p) e loc_Exact = S754_finite s p e.
Proof.
  intros Hcanon He. unfold SpecFloat.binary_round_aux, SpecFloat.shr_fexp.
  cbn [Zdigits2]. rewrite Hcanon, Z.sub_diag. cbn [shr shr_record_of_loc shr_m
    loc_of_shr_record round_nearest_even Zdigits2].
  rewrite Hcanon, Z.sub_diag. cbn [shr shr_m].
  change (PyFloat.emax - PyFloat.prec) with 971.
  destruct (Z.leb_spec e 971); [reflexivity | lia].
Qed.

Lemma pos_iter_xO (p k : positive) : Zpos (Pos.iter xO p k) = Zpos p * 2 ^ Zpos k.
Proof.
  change (Pos.iter xO p k) with (Zpower.shift_pos k p).
  rewrite Zpower.shift_pos_correct, Z.pow_pos_fold. lia.
Qed.

Lemma shl_align_spec (mx : positive) (ex ex' : Z) :
  snd (shl_align mx ex ex') = Z.min ex ex' /\
  Zpos (fst (shl_align mx ex ex')) = Zpos mx * 2 ^ (ex - Z.min ex ex').
Proof.
  unfold shl_align. destruct (ex' - ex) as [|d|d] eqn:Ed; cbn [fst snd].
  - replace (Z.min ex ex') with ex by lia. rewrite Z.sub_diag. cbn. lia.
  - replace (Z.min ex ex') with ex by lia. rewrite Z.sub_diag. cbn. lia.
  - replace (Z.min ex ex') with ex' by lia. split; [reflexivity|].
    rewrite pos_iter_xO. f_equal. f_equal. lia.
Qed.

(** Rounding a positive integer mantissa never gives a NaN, and gives a
    finite number when the leading bit is low enough. *)
Lemma binary_round_spec (s : bool) (p : positive) (e : Z) :
  exists m' e',
    binary_round s p e = rounded s m' e' /\
    0 <= m' /\
    e' <= Z.max (Z.max e (Zpos (digits2_pos p) + e - 52)) (-1074) /\
    Zdigits2 m' + e' <= Z.max (Zpos (digits2_pos p) + e) (-1074) + 1.
Proof.
  unfold SpecFloat.binary_round.
  pose proof (shl_align_spec p e (fexp (Zpos (digits2_pos p) + e))) as [Hez Hmz].
  destruct (shl_align p e (fexp (Zpos (digits2_pos p) + e))) as [mz ez].
  cbn [fst snd] in Hez, Hmz.
  destruct (binary_round_aux_spec s (Zpos mz) ez loc_Exact ltac:(lia))
    as (m' & e' & Heq & Hpos & He' & Hmu).
  exists m', e'. split; [exact Heq|]. split; [exact Hpos|].
  assert (Hdig : Zdigits2 (Zpos mz) = Zpos (digits2_pos p) + (e - ez)).
  { rewrite Hmz. rewrite Zdigits2_mul_pow2 by lia. cbn [Zdigits2]. lia. }
  rewrite Hdig in He', Hmu. rewrite fexp_eq in Hez. lia.
Qed.

Lemma rounded_not_nan (s : bool) (m e : Z) : 0 <= m -> is_nan (rounded s m e) = false.
Proof.
  intros Hm. destruct m as [|p|p]; cbn [rounded]; [reflexivity | | lia].
  now destruct (e <=? 971).
Qed.

Lemma rounded_within (s : bool) (m e u : Z) :
  0 <= m -> e <= u -> Zdigits2 m + e <= u -> u <= 971 -> within u (rounded s m e).
Proof.
  intros Hm He Hmu Hu. destruct m as [|p|p]; cbn [rounded]; [exact I | | lia].
  destruct (Z.leb_spec e 971); [|lia]. cbn [within Zdigits2] in *. lia.
Qed.

(** *** Integers below [2^53] convert exactly *)

Lemma of_int_normal (z : Z) :
  0 < z < 2 ^ 53 ->
  exists m,
    PyFloat.of_int z = S754_finite false m (Zdigits2 z - 53) /\
    Zpos m = z * 2 ^ (53 - Zdigits2 z) /\
    Zpos (digits2_pos m) = 53 /\
    1 <= Zdigits2 z <= 53.
Proof.
  intros Hz. destruct z as [|p|p]; try lia.
  assert (Hd : Zdigits2 (Zpos p) <= 53) by (apply Zdigits2_le_iff; lia).
  cbn [Zdigits2] in *. set (d := Zpos (digits2_pos p)) in *.
  assert (Hd1 : 1 <= d) by (subst d; lia).
  unfold PyFloat.of_int. cbn [SpecFloat.binary_normalize]. unfold SpecFloat.binary_round.
  pose proof (shl_align_spec p 0 (fexp (Zpos (digits2_pos p) + 0))) as [Hez Hmz].
  destruct (shl_align p 0 (fexp (Zpos (digits2_pos p) + 0))) as [mz ez].
  cbn [fst snd] in Hez, Hmz. fold d in Hez, Hmz. rewrite fexp_eq in Hez, Hmz.
  assert (Hez' : ez = d - 53) by lia.
  assert (Hmz' : Zpos mz = Zpos p * 2 ^ (53 - d)).
  { rewrite Hmz. f_equal. f_equal. lia. }
  assert (Hdig : Zpos (digits2_pos mz) = 53).
  { change (Zpos (digits2_pos mz)) with (Zdigits2 (Zpos mz)).
    rewrite Hmz', Zdigits2_mul_pow2 by lia. cbn [Zdigits2]. fold d. lia. }
  exists mz. clear Hez Hmz. subst ez.
  split; [|split; [exact Hmz' | split; [exact Hdig | lia]]].
  apply binary_round_aux_exact; [|lia].
  rewrite Hdig, fexp_eq. lia.
Qed.

Lemma of_int_one : PyFloat.of_int 1 = S754_finite false 4503599627370496 (-52).
Proof. reflexivity. Qed.

(** *** Dividing by one, and the ceiling of an integer *)

Lemma div_by_one (m : positive) (e : Z) :
  Zpos (digits2_pos m) = 53 -> -52 <= e <= 0 ->
  SFdiv PyFloat.prec PyFloat.emax (S754_finite false m e) (PyFloat.of_int 1) =
  S754_finite false m e.
Proof.
  intros Hdig He. rewrite of_int_one. cbn [SFdiv xorb].
  unfold SFdiv_core_binary. cbn [Zdigits2]. rewrite Hdig.
  change (Zpos (digits2_pos 4503599627370496)) with 53.
  replace (Z.min (SpecFloat.fexp PyFloat.prec PyFloat.emax (53 + e - (53 + -52)))
                 (e - -52)) with (e - 1) by (rewrite fexp_eq; lia).
  replace (e - -52 - (e - 1)) with 53 by lia.
  rewrite Z.shiftl_mul_pow2 by lia.
  assert (Hdiv : Z.div_eucl (Zpos m * 2 ^ 53) 4503599627370496 = (Zpos m~0, 0)).
  { pose proof (Z_div_mod (Zpos m * 2 ^ 53) 4503599627370496 ltac:(lia)) as Hdm.
    destruct (Z.div_eucl (Zpos m * 2 ^ 53) 4503599627370496) as [q r].
    destruct Hdm as [Heq Hr]. change (2 ^ 53) with (2 * 4503599627370496) in Heq.
    assert (q = 2 * Zpos m) by nia. assert (r = 0) by nia. subst q r. reflexivity. }
  rewrite Hdiv. change (new_location 4503599627370496 0) with loc_Exact.
  unfold SpecFloat.binary_round_aux, SpecFloat.shr_fexp.
  cbn [Zdigits2 digits2_pos]. rewrite Pos2Z.inj_succ, Hdig.
  replace (SpecFloat.fexp PyFloat.prec PyFloat.emax (Z.succ 53 + (e - 1)) - (e - 1))
    with 1 by (rewrite fexp_eq; lia).
  cbn [shr shr_record_of_loc iter_pos shr_1 fst snd shr_m loc_of_shr_record
       round_nearest_even Zdigits2 orb].
  rewrite Hdig.
  replace (SpecFloat.fexp PyFloat.prec PyFloat.emax (53 + (e - 1 + 1)) - (e - 1 + 1))
    with 0 by (rewrite fexp_eq; lia).
  cbn [shr shr_m]. change (PyFloat.emax - PyFloat.prec) with 971.
  destruct (Z.leb_spec (e - 1 + 1) 971); [|lia].
  f_equal. lia.
Qed.

Lemma ceil_of_scaled (m : positive) (e n : Z) :
  e <= 0 -> Zpos m = n * 2 ^ (- e) ->
  PyFloat.ceil (S754_finite false m e) = Ok n.
Proof.
  intros He Hm. unfold PyFloat.ceil. cbn [cond_Zopp]. f_equal.
  destruct (Z.leb_spec 0 e) as [Hz | Hneg].
  - assert (e = 0) by lia. subst e. cbn in Hm. cbn. lia.
  - rewrite Hm. rewrite <- Z.mul_opp_l, Z.div_mul; [lia|].
    apply Z.pow_nonzero; lia.
Qed.

(** *** Division and subtraction of finite numbers *)

Lemma SFdiv_finite_spec (s1 s2 : bool) (m1 m2 : positive) (e1 e2 : Z) :
  exists m' e',
    SFdiv PyFloat.prec PyFloat.emax (S754_finite s1 m1 e1) (S754_finite s2 m2 e2) =
      rounded (xorb s1 s2) m' e' /\
    0 <= m' /\
    e' <= Z.max (Z.max (e1 - e2) (Zpos (digits2_pos m1) + e1 - e2 - 52)) (-1074) /\
    Zdigits2 m' + e' <= Z.max (Zpos (digits2_pos m1) + e1 - e2) (-1074) + 1.
Proof.
  cbn [SFdiv]. unfold SFdiv_core_binary. cbn [Zdigits2].
  set (d1 := Zpos (digits2_pos m1)). set (d2 := Zpos (digits2_pos m2)).
  set (e' := Z.min (SpecFloat.fexp PyFloat.prec PyFloat.emax (d1 + e1 - (d2 + e2)))
                   (e1 - e2)).
  set (s := e1 - e2 - e').
  set (mm := match s with
             | 0 => Zpos m1
             | Zpos _ => Z.shiftl (Zpos m1) s
             | Zneg _ => 0
             end).
  assert (Hs : 0 <= s) by (subst s e'; lia).
  assert (Hmm : 0 <= mm /\ Zdigits2 mm <= d1 + s).
  { subst mm. destruct s as [|k|k] eqn:Es; [cbn [Zdigits2]; fold d1; lia | | lia].
    rewrite Z.shiftl_mul_pow2 by lia. rewrite Zdigits2_mul_pow2 by lia.
    cbn [Zdigits2]. fold d1. split; [|lia].
    apply Z.mul_nonneg_nonneg; [lia | apply Z.pow_nonneg; lia]. }
  destruct Hmm as [Hmm0 Hmmd].
  pose proof (Z_div_mod mm (Zpos m2) ltac:(lia)) as Hdm.
  destruct (Z.div_eucl mm (Zpos m2)) as [q r]. destruct Hdm as [Heq Hr].
  assert (Hq : 0 <= q <= mm) by nia.
  destruct (binary_round_aux_spec (xorb s1 s2) q e' (new_location (Zpos m2) r)
              ltac:(lia)) as (m' & e'' & Hres & Hpos & He & Hmu).
  exists m', e''. split; [exact Hres|]. split; [exact Hpos|].
  pose proof (Zdigits2_le q mm Hq) as Hdq. pose proof (Zdigits2_nonneg q).
  assert (Hd1 : 1 <= d1) by (subst d1; lia).
  subst s. assert (He' : e' <= e1 - e2) by (subst e'; lia). lia.
Qed.

Lemma SFsub_finite_spec (s1 s2 : bool) (m1 m2 : positive) (e1 e2 : Z) :
  exists s m' e',
    SFsub PyFloat.prec PyFloat.emax (S754_finite s1 m1 e1) (S754_finite s2 m2 e2) =
      rounded s m' e' /\
    0 <= m' /\
    e' <= Z.max (Z.max (Z.min e1 e2)
                       (Z.max (Zpos (digits2_pos m1) + e1) (Zpos (digits2_pos m2) + e2) - 51))
                (-1074) /\
    Zdigits2 m' + e' <=
      Z.max (Z.max (Zpos (digits2_pos m1) + e1) (Zpos (digits2_pos m2) + e2) + 1) (-1074) + 1.
Proof.
  cbn [SFsub]. set (ez := Z.min e1 e2).
  pose proof (shl_align_spec m1 e1 ez) as [_ Ha].
  pose proof (shl_align_spec m2 e2 ez) as [_ Hb].
  set (a := fst (shl_align m1 e1 ez)) in *. set (b := fst (shl_align m2 e2 ez)) in *.
  replace (Z.min e1 ez) with ez in Ha by (subst ez; lia).
  replace (Z.min e2 ez) with ez in Hb by (subst ez; lia).
  set (d1 := Zpos (digits2_pos m1)) in *. set (d2 := Zpos (digits2_pos m2)) in *.
  assert (Hda : Zdigits2 (Zpos a) = d1 + (e1 - ez)).
  { rewrite Ha, Zdigits2_mul_pow2 by (subst ez; lia). reflexivity. }
  assert (Hdb : Zdigits2 (Zpos b) = d2 + (e2 - ez)).
  { rewrite Hb, Zdigits2_mul_pow2 by (subst ez; lia). reflexivity. }
  set (u := Z.max (d1 + e1) (d2 + e2)).
  assert (Hu : 0 <= u - ez) by (subst u ez d1 d2; lia).
  assert (Hbound : Zpos a + Zpos b < 2 ^ (u - ez + 1)).
  { assert (Zpos a < 2 ^ (u - ez)).
    { apply Zdigits2_le_iff; [lia | lia | rewrite Hda; subst u; lia]. }
    assert (Zpos b < 2 ^ (u - ez)).
    { apply Zdigits2_le_iff; [lia | lia | rewrite Hdb; subst u; lia]. }
    rewrite Z.pow_add_r by lia. lia. }
  set (M := cond_Zopp s1 (Zpos a) - cond_Zopp s2 (Zpos b)).
  assert (HM : Z.abs M <= Zpos a + Zpos b).
  { subst M. destruct s1, s2; cbn [cond_Zopp]; lia. }
  destruct M as [|p|p] eqn:EM; cbn [SpecFloat.binary_normalize].
  - exists false, 0, (-1074). cbn [rounded Zdigits2]. split; [reflexivity | lia].
  - destruct (binary_round_spec false p ez) as (m' & e' & Hres & Hpos & He & Hmu).
    exists false, m', e'. split; [exact Hres|]. split; [exact Hpos|].
    assert (Hdp : Zpos (digits2_pos p) <= u - ez + 1).
    { change (Zpos (digits2_pos p)) with (Zdigits2 (Zpos p)).
      apply Zdigits2_le_iff; lia. }
    subst u ez. lia.
  - destruct (binary_round_spec true p ez) as (m' & e' & Hres & Hpos & He & Hmu).
    exists true, m', e'. split; [exact Hres|]. split; [exact Hpos|].
    assert (Hdp : Zpos (digits2_pos p) <= u - ez + 1).
    { change (Zpos (digits2_pos p)) with (Zdigits2 (Zpos p)).
      apply Zdigits2_le_iff; lia. }
    subst u ez. lia.
Qed.

(** *** No NaN arises in the search *)

Lemma of_int_not_nan (z : Z) : is_nan (PyFloat.of_int z) = false.
Proof.
  unfold PyFloat.of_int. destruct z as [|p|p]; cbn [SpecFloat.binary_normalize];
    [reflexivity | |].
  - destruct (binary_round_spec false p 0) as (m' & e' & -> & Hpos & _).
    now apply rounded_not_nan.
  - destruct (binary_round_spec true p 0) as (m' & e' & -> & Hpos & _).
    now apply rounded_not_nan.
Qed.

Lemma SFdiv_not_nan (x : PyFloat.float) (s : bool) (m : positive) (e : Z) :
  is_nan x = false ->
  is_nan (SFdiv PyFloat.prec PyFloat.emax x (S754_finite s m e)) = false.
Proof.
  intros Hx. destruct x as [sx | sx | | sx mx ex]; try reflexivity; try discriminate.
  destruct (SFdiv_finite_spec sx s mx m ex e) as (m' & e' & -> & Hpos & _).
  now apply rounded_not_nan.
Qed.

Lemma SFsub_not_nan (x y : PyFloat.float) (u : Z) :
  is_nan x = false -> within u y ->
  is_nan (SFsub PyFloat.prec PyFloat.emax x y) = false.
Proof.
  intros Hx Hy.
  destruct x as [sx | sx | | sx mx ex]; try discriminate;
    destruct y as [sy | sy | | sy my ey]; try contradiction; try reflexivity.
  - now destruct sx, sy.
  - destruct (SFsub_finite_spec sx sy mx my ex ey) as (s & m' & e' & -> & Hpos & _).
    now apply rounded_not_nan.
Qed.

Lemma SFabs_not_nan (x : PyFloat.float) : is_nan x = false -> is_nan (SFabs x) = false.
Proof. now destruct x. Qed.

(** ** Binary64: the order *)

Lemma key_of_not_nan (x : PyFloat.float) :
  is_nan x = false -> exists a, key x = Some a.
Proof.
  destruct x as [s | s | | s m e]; try discriminate; intros _;
    try destruct s; eexists; reflexivity.
Qed.

Lemma SFcompare_finite_pos (m1 m2 : positive) (e1 e2 : Z) :
  SFcompare (S754_finite false m1 e1) (S754_finite false m2 e2) =
  Some (match e1 ?= e2 with Eq => (Zpos m1 ?= Zpos m2) | c => c end).
Proof. cbn [SFcompare]. now destruct (e1 ?= e2). Qed.

Lemma SFcompare_finite_neg (m1 m2 : positive) (e1 e2 : Z) :
  SFcompare (S754_finite true m1 e1) (S754_finite true m2 e2) =
  Some (match e2 ?= e1 with Eq => (Zpos m2 ?= Zpos m1) | c => c end).
Proof.
  cbn [SFcompare]. rewrite (Z.compare_antisym e1 e2).
  destruct (e1 ?= e2); cbn [CompOpp]; try reflexivity.
  f_equal. symmetry. apply (Pos.compare_antisym m1 m2).
Qed.

Ltac key_cases x y :=
  destruct x as [[|] | [|] | | [|] ? ?], y as [[|] | [|] | | [|] ? ?];
  cbn [key]; try rewrite SFcompare_finite_pos; try rewrite SFcompare_finite_neg;
  cbn [SFcompare key_lt key_le].

Lemma SFltb_key (x y : PyFloat.float) : SFltb x y = true <-> flt x y.
Proof.
  unfold SFltb, flt. key_cases x y;
    try (split; intros H; solve [discriminate H | contradiction H | reflexivity | lia]).
  all: repeat match goal with
              | |- context [?a ?= ?b] => destruct (Z.compare_spec a b)
              end;
       split; intros Hc; try discriminate Hc; try reflexivity; lia.
Qed.

Lemma SFleb_key (x y : PyFloat.float) : SFleb x y = true <-> fle x y.
Proof.
  unfold SFleb, fle. key_cases x y;
    try (split; intros H; solve [discriminate H | contradiction H | reflexivity | lia]).
  all: repeat match goal with
              | |- context [?a ?= ?b] => destruct (Z.compare_spec a b)
              end;
       split; intros Hc; try discriminate Hc; try reflexivity; lia.
Qed.

Lemma ltb_irrefl (x : PyFloat.float) : PyFloat.ltb x x = false.
Proof.
  unfold PyFloat.ltb. destruct (SFltb x x) eqn:E; [|reflexivity].
  apply SFltb_key in E. unfold flt in E.
  destruct (key x) as [[[a1 a2] a3]|]; [cbn in E; lia | contradiction].
Qed.

Lemma ltb_trans (x y z : PyFloat.float) :
  PyFloat.ltb x y = true -> PyFloat.ltb y z = true -> PyFloat.ltb x z = true.
Proof.
  unfold PyFloat.ltb. rewrite !SFltb_key. unfold flt.
  destruct (key x) as [[[a1 a2] a3]|], (key y) as [[[b1 b2] b3]|],
           (key z) as [[[c1 c2] c3]|]; cbn; try contradiction; lia.
Qed.

Lemma leb_ltb_trans (x y z : PyFloat.float) :
  PyFloat.leb x y = true -> PyFloat.ltb y z = true -> PyFloat.ltb x z = true.
Proof.
  unfold PyFloat.ltb, PyFloat.leb. rewrite !SFltb_key, SFleb_key. unfold flt, fle.
  destruct (key x) as [[[a1 a2] a3]|], (key y) as [[[b1 b2] b3]|],
           (key z) as [[[c1 c2] c3]|]; cbn; try contradiction; lia.
Qed.

Lemma ltb_of_not_leb (x y : PyFloat.float) :
  is_nan x = false -> is_nan y = false ->
  PyFloat.leb x y = false -> PyFloat.ltb y x = true.
Proof.
  intros Hx Hy Hle. unfold PyFloat.ltb, PyFloat.leb in *.
  apply SFltb_key. unfold flt.
  destruct (key_of_not_nan x Hx) as ([[a1 a2] a3] & Ha).
  destruct (key_of_not_nan y Hy) as ([[b1 b2] b3] & Hb).
  rewrite Ha, Hb. cbn.
  destruct (Z.lt_trichotomy b1 a1) as [|[|]]; try lia;
    destruct (Z.lt_trichotomy b2 a2) as [|[|]]; try lia;
    destruct (Z.lt_trichotomy b3 a3) as [|[|]]; try lia;
    exfalso;
    (assert (Hfle : fle x y) by (unfold fle; rewrite Ha, Hb; cbn; lia));
    apply SFleb_key in Hfle; congruence.
Qed.

Lemma leb_of_not_ltb (x y : PyFloat.float) :
  is_nan x = false -> is_nan y = false ->
  PyFloat.ltb x y = false -> PyFloat.leb y x = true.
Proof.
  intros Hx Hy Hlt. unfold PyFloat.ltb, PyFloat.leb in *.
  apply SFleb_key. unfold fle.
  destruct (key_of_not_nan x Hx) as ([[a1 a2] a3] & Ha).
  destruct (key_of_not_nan y Hy) as ([[b1 b2] b3] & Hb).
  rewrite Ha, Hb. cbn.
  destruct (Z.lt_trichotomy a1 b1) as [|[|]]; try lia;
    destruct (Z.lt_trichotomy a2 b2) as [|[|]]; try lia;
    destruct (Z.lt_trichotomy a3 b3) as [|[|]]; try lia;
    exfalso;
    (assert (Hflt : flt x y) by (unfold flt; rewrite Ha, Hb; cbn; lia));
    apply SFltb_key in Hflt; congruence.
Qed.

(** ** Binary64: the quotient of two integers, precisely *)

Lemma div_eucl_div_mod (a b : Z) : Z.div_eucl a b = (a / b, a mod b).
Proof. unfold Z.div, Z.modulo. now destruct (Z.div_eucl a b). Qed.

Lemma loc_of_shr_record_of_loc (m : Z) (l : location) :
  loc_of_shr_record (shr_record_of_loc m l) = l.
Proof. destruct l as [|[| |]]; reflexivity. Qed.

(** After one right shift the location records the bit shifted out and
    whether anything was below it. *)
Lemma loc_after_shr_1 (m : Z) (l : location) :
  0 <= m ->
  loc_of_shr_record (shr_1 (shr_record_of_loc m l)) =
  match Z.odd m, l with
  | false, loc_Exact => loc_Exact
  | false, _ => loc_Inexact Lt
  | true, loc_Exact => loc_Inexact Eq
  | true, _ => loc_Inexact Gt
  end.
Proof.
  intros Hm. destruct m as [|[p|p|]|p]; try lia; destruct l as [|[| |]]; reflexivity.
Qed.

Lemma new_location_zero (nb : Z) : new_location nb 0 = loc_Exact.
Proof. unfold new_location. destruct (Z.even nb); reflexivity. Qed.

Lemma new_location_inexact (nb k : Z) :
  0 < k -> exists c, new_location nb k = loc_Inexact c.
Proof.
  intros Hk. unfold new_location.
  destruct (Z.even nb); unfold new_location_even, new_location_odd;
    (destruct (Z.eqb_spec k 0); [lia|]); eexists; reflexivity.
Qed.

(** The location of a remainder does not change when the divisor and the
    remainder are scaled by the same power of two. *)
Lemma new_location_scale (b r G : Z) :
  0 < b -> 0 <= r < b -> 0 <= G ->
  new_location (b * 2 ^ G) (r * 2 ^ G) = new_location b r.
Proof.
  intros Hb Hr HG.
  destruct (Z.eq_dec G 0) as [-> | HG0]; [now rewrite !Z.mul_1_r|].
  assert (HpG : 0 < 2 ^ G) by (apply Z.pow_pos_nonneg; lia).
  assert (Heven : Z.even (b * 2 ^ G) = true).
  { rewrite Z.even_mul, Z.even_pow by lia. apply orb_true_r. }
  assert (Hc : (2 * (r * 2 ^ G) ?= b * 2 ^ G) = (2 * r ?= b)).
  { rewrite Z.mul_assoc. symmetry. apply Zmult_compare_compat_r. lia. }
  unfold new_location. rewrite Heven.
  destruct (Z.even b) eqn:Eb; unfold new_location_even, new_location_odd;
    (destruct (Z.eqb_spec r 0) as [-> | Hr0]; [reflexivity|]);
    (destruct (Z.eqb_spec (r * 2 ^ G) 0) as [E | _]; [nia|]);
    rewrite Hc; [reflexivity|]. f_equal.
  destruct (Z.compare_spec (2 * r) b) as [E | E | E];
    destruct (Z.compare_spec (2 * r + 1) b) as [E' | E' | E'];
    try reflexivity; try lia.
  subst b. rewrite Z.even_mul in Eb. discriminate.
Qed.

Lemma quotient_within (a b : Z) :
  0 < a < 2 ^ 53 -> 0 < b < 2 ^ 53 ->
  within 110 (SFdiv PyFloat.prec PyFloat.emax (PyFloat.of_int a) (PyFloat.of_int b)).
Proof.
  intros Ha Hb.
  destruct (of_int_normal a Ha) as (ma & -> & _ & Hda & Ha').
  destruct (of_int_normal b Hb) as (mb & -> & _ & Hdb & Hb').
  destruct (SFdiv_finite_spec false false ma mb (Zdigits2 a - 53) (Zdigits2 b - 53))
    as (m' & e' & -> & Hpos & He & Hmu).
  rewrite Hda in He, Hmu. apply rounded_within; lia.
Qed.

(** The quotient of the two converted integers, as the division computes it:
    the numerator is scaled by [2^F] so that the integer quotient has 53 or
    54 bits. *)
Lemma SFdiv_converted_ints (a b : Z) :
  0 < a < 2 ^ 53 -> 0 < b < 2 ^ 53 ->
  let F := 53 + Zdigits2 b - Zdigits2 a in
  let G := 53 - Zdigits2 b in
  SFdiv PyFloat.prec PyFloat.emax (PyFloat.of_int a) (PyFloat.of_int b) =
  binary_round_aux false (a * 2 ^ F / b) (- F)
    (new_location (b * 2 ^ G) ((a * 2 ^ F) mod b * 2 ^ G)).
Proof.
  intros Ha Hb F G.
  destruct (of_int_normal a Ha) as (ma & -> & Hma & Hda & Hda').
  destruct (of_int_normal b Hb) as (mb & -> & Hmb & Hdb & Hdb').
  set (da := Zdigits2 a) in *. set (db := Zdigits2 b) in *.
  assert (HF : 1 <= F) by (subst F; lia). assert (HG : 0 <= G) by (subst G; lia).
  assert (HpF : 0 < 2 ^ F) by (apply Z.pow_pos_nonneg; lia).
  assert (HpG : 0 < 2 ^ G) by (apply Z.pow_pos_nonneg; lia).
  assert (Hnum : Zpos ma * 2 ^ 53 = a * 2 ^ F * 2 ^ G).
  { rewrite Hma, <- !Z.mul_assoc, <- !Z.pow_add_r by lia.
    f_equal. f_equal. subst F G. lia. }
  assert (Hden : Zpos mb = b * 2 ^ G) by (rewrite Hmb; reflexivity).
  cbn [SFdiv xorb]. unfold SFdiv_core_binary. cbn [Zdigits2]. rewrite Hda, Hdb.
  replace (Z.min (SpecFloat.fexp PyFloat.prec PyFloat.emax
                    (53 + (da - 53) - (53 + (db - 53))))
                 (da - 53 - (db - 53))) with (- F)
    by (rewrite fexp_eq; subst F; lia).
  replace (da - 53 - (db - 53) - - F) with 53 by (subst F; lia).
  rewrite Z.shiftl_mul_pow2 by lia. rewrite div_eucl_div_mod.
  rewrite Hnum, Hden.
  rewrite Z.div_mul_cancel_r by lia.
  rewrite Z.mul_mod_distr_r by lia.
  reflexivity.
Qed.

(** The quotient of the two integers themselves: the same scaled quotient,
    with the remainder located against the divisor. *)
Lemma SFdiv_exact_ints (a b : Z) :
  0 < a < 2 ^ 53 -> 0 < b < 2 ^ 53 ->
  let F := 53 + Zdigits2 b - Zdigits2 a in
  SFdiv PyFloat.prec PyFloat.emax (PyFloat.exact_int a) (PyFloat.exact_int b) =
  binary_round_aux false (a * 2 ^ F / b) (- F) (new_location b ((a * 2 ^ F) mod b)).
Proof.
  intros Ha Hb.
  assert (Hda : 1 <= Zdigits2 a <= 53).
  { split; [destruct a; cbn [Zdigits2]; lia | apply Zdigits2_le_iff; lia]. }
  assert (Hdb : 1 <= Zdigits2 b <= 53).
  { split; [destruct b; cbn [Zdigits2]; lia | apply Zdigits2_le_iff; lia]. }
  destruct a as [|pa|pa]; try lia. destruct b as [|pb|pb]; try lia.
  set (da := Zdigits2 (Zpos pa)) in *. set (db := Zdigits2 (Zpos pb)) in *.
  intros F.
  assert (HF : 1 <= F) by (subst F; lia).
  cbn [PyFloat.exact_int SFdiv xorb]. unfold SFdiv_core_binary. fold da db.
  replace (Z.min (SpecFloat.fexp PyFloat.prec PyFloat.emax (da + 0 - (db + 0))) (0 - 0))
    with (- F) by (rewrite fexp_eq; subst F; lia).
  replace (0 - 0 - - F) with F by lia.
  destruct F as [|pF|pF] eqn:EF; try lia.
  rewrite Z.shiftl_mul_pow2 by lia. rewrite div_eucl_div_mod. reflexivity.
Qed.

(** For integers below [2^53] the division of the integers and the division
    of their conversions agree, and the quotient is finite. *)
Lemma truediv_ok (a b : Z) :
  0 < a < 2 ^ 53 -> 0 < b < 2 ^ 53 ->
  PyFloat.truediv a b =
  Ok (SFdiv PyFloat.prec PyFloat.emax (PyFloat.of_int a) (PyFloat.of_int b)).
Proof.
  intros Ha Hb. unfold PyFloat.truediv. destruct (Z.eqb_spec b 0); [lia|].
  pose proof (quotient_within a b Ha Hb) as Hw.
  rewrite SFdiv_exact_ints by assumption.
  rewrite SFdiv_converted_ints in * by assumption.
  rewrite new_location_scale in *
    by (try apply Z.mod_pos_bound; pose proof (Zdigits2_le_iff b 53); lia).
  destruct (binary_round_aux _ _ _ _); try reflexivity. contradiction.
Qed.

Lemma truediv_by_one (n : Z) :
  0 < n < 2 ^ 53 -> PyFloat.truediv n 1 = Ok (PyFloat.of_int n).
Proof.
  intros Hn. rewrite truediv_ok by lia.
  destruct (of_int_normal n Hn) as (m & -> & _ & Hdig & Hd).
  rewrite div_by_one; [reflexivity | exact Hdig | lia].
Qed.

Lemma cols_of_one (n : Z) : 0 < n < 2 ^ 53 -> Layout.cols_of n 1 = Ok n.
Proof.
  intros Hn. unfold Layout.cols_of. rewrite truediv_by_one by assumption. cbn [bind].
  destruct (of_int_normal n Hn) as (m & -> & Hm & _ & Hd).
  apply ceil_of_scaled; [lia|]. rewrite Hm. f_equal. f_equal. lia.
Qed.

Lemma Zdigits2_eq (m d : Z) : 1 <= d -> 2 ^ (d - 1) <= m < 2 ^ d -> Zdigits2 m = d.
Proof.
  intros Hd [Hlo Hhi].
  assert (Hm : 0 < m) by (pose proof (Z.pow_pos_nonneg 2 (d - 1)); lia).
  assert (Hle : Zdigits2 m <= d) by (apply Zdigits2_le_iff; lia).
  destruct (Z.le_gt_cases d (Zdigits2 m)) as [|Hlt]; [lia|].
  assert (Hsmall : m < 2 ^ (d - 1)).
  { apply Zdigits2_le_iff; lia. }
  lia.
Qed.

Lemma Zdigits2_53_bounds (m : positive) :
  Zpos (digits2_pos m) = 53 -> 2 ^ 52 <= Zpos m < 2 ^ 53.
Proof. intros Hd. pose proof (Zdigits2_pos_bounds m) as H. rewrite Hd in H. exact H. Qed.

(** Rounding a mantissa of 53 or 54 bits. *)
Lemma binary_round_aux_near (m e : Z) (l : location) :
  2 ^ 52 <= m < 2 ^ 54 -> -200 <= e <= 200 ->
  let k1 := Zdigits2 m - 53 in
  exists mr k2,
    SpecFloat.binary_round_aux PyFloat.prec PyFloat.emax false m e l =
      S754_finite false (Z.to_pos (mr / 2 ^ k2)) (e + k1 + k2) /\
    0 <= k1 <= 1 /\ 0 <= k2 <= 1 /\
    2 ^ 52 <= mr / 2 ^ k2 /\ mr / 2 ^ k2 * 2 ^ k2 = mr /\
    m / 2 ^ k1 <= mr <= m / 2 ^ k1 + 1 /\
    (l = loc_Exact -> m mod 2 ^ k1 = 0 -> mr = m / 2 ^ k1) /\
    (k1 = 1 -> Z.odd m = true -> l <> loc_Exact -> mr = m / 2 + 1).
Proof.
  intros Hm He k1.
  assert (Hk1def : k1 = Zdigits2 m - 53) by reflexivity. clearbody k1.
  assert (Hk1 : (k1 = 0 /\ m < 2 ^ 53) \/ (k1 = 1 /\ 2 ^ 53 <= m)).
  { destruct (Z.lt_ge_cases m (2 ^ 53)).
    - left. rewrite (Zdigits2_eq m 53) in Hk1def; lia.
    - right. rewrite (Zdigits2_eq m 54) in Hk1def; lia. }
  set (m1 := m / 2 ^ k1).
  assert (Hm1 : 2 ^ 52 <= m1 < 2 ^ 53).
  { subst m1. destruct Hk1 as [[-> Hlt] | [-> Hge]].
    - change (2 ^ 0) with 1. rewrite Z.div_1_r. lia.
    - change (2 ^ 1) with 2.
      split; [apply Z.div_le_lower_bound; lia | apply Z.div_lt_upper_bound; lia]. }
  (* the first shift *)
  unfold SpecFloat.binary_round_aux.
  assert (Hshift1 : fexp (Zdigits2 m + e) - e = k1).
  { rewrite fexp_eq. pose proof (Zdigits2_nonneg m). lia. }
  assert (Hfirst : exists mrs1,
    SpecFloat.shr_fexp PyFloat.prec PyFloat.emax m e l = (mrs1, e + k1) /\
    shr_m mrs1 = m1 /\
    (l = loc_Exact -> m mod 2 ^ k1 = 0 -> loc_of_shr_record mrs1 = loc_Exact) /\
    (k1 = 1 -> Z.odd m = true -> l <> loc_Exact ->
     loc_of_shr_record mrs1 = loc_Inexact Gt)).
  { unfold SpecFloat.shr_fexp. rewrite Hshift1. subst m1.
    destruct Hk1 as [[E _] | [E _]]; rewrite E.
    - eexists. split; [cbn [shr]; rewrite Z.add_0_r; reflexivity|].
      rewrite shr_record_of_loc_m, loc_of_shr_record_of_loc.
      change (2 ^ 0) with 1. rewrite Z.div_1_r.
      split; [reflexivity|]. split; [tauto | lia].
    - eexists. split; [cbn [shr iter_pos]; reflexivity|].
      rewrite shr_1_m by (rewrite shr_record_of_loc_m; lia).
      rewrite shr_record_of_loc_m, loc_after_shr_1 by lia.
      change (2 ^ 1) with 2. split; [reflexivity|]. split.
      + intros -> Hmod. rewrite Zmod_odd in Hmod.
        destruct (Z.odd m); [discriminate | reflexivity].
      + intros _ Hodd Hl. rewrite Hodd. destruct l as [|c]; [congruence | reflexivity]. }
  destruct Hfirst as (mrs1 & -> & Hmrs1 & Hexact & Hup).
  rewrite Hmrs1.
  pose proof (round_nearest_even_bounds m1 (loc_of_shr_record mrs1)) as Hr.
  set (mr := round_nearest_even m1 (loc_of_shr_record mrs1)) in *.
  (* the second shift *)
  set (k2 := Zdigits2 mr - 53).
  assert (Hk2 : (k2 = 0 /\ mr < 2 ^ 53) \/ (k2 = 1 /\ mr = 2 ^ 53)).
  { subst k2. destruct (Z.lt_ge_cases mr (2 ^ 53)).
    - left. rewrite (Zdigits2_eq mr 53); lia.
    - right. assert (mr = 2 ^ 53) as -> by lia. split; reflexivity. }
  assert (Hshift2 : fexp (Zdigits2 mr + (e + k1)) - (e + k1) = k2).
  { rewrite fexp_eq. subst k2. pose proof (Zdigits2_nonneg mr). lia. }
  exists mr, k2.
  assert (Hsecond : exists mrs2,
    SpecFloat.shr_fexp PyFloat.prec PyFloat.emax mr (e + k1) loc_Exact =
      (mrs2, e + k1 + k2) /\
    shr_m mrs2 = mr / 2 ^ k2 /\ mr / 2 ^ k2 * 2 ^ k2 = mr /\ 2 ^ 52 <= mr / 2 ^ k2).
  { unfold SpecFloat.shr_fexp. rewrite Hshift2.
    destruct Hk2 as [[E Hlt] | [E Heq]]; rewrite E.
    - eexists. split; [cbn [shr]; rewrite Z.add_0_r; reflexivity|].
      cbn [shr_record_of_loc shr_m]. change (2 ^ 0) with 1. rewrite Z.div_1_r. lia.
    - eexists. split; [cbn [shr iter_pos]; reflexivity|].
      rewrite Heq. split; [reflexivity|]. split; reflexivity || (cbn; lia). }
  destruct Hsecond as (mrs2 & -> & Hmrs2 & Hexact2 & Hlow2).
  rewrite Hmrs2.
  assert (Hpos : 0 < mr / 2 ^ k2) by lia.
  destruct (mr / 2 ^ k2) as [|p|p] eqn:Ep; try lia.
  change (PyFloat.emax - PyFloat.prec) with 971.
  destruct (Z.leb_spec (e + k1 + k2) 971) as [_ | Hbig];
    [|destruct Hk1 as [[? ?] | [? ?]], Hk2 as [[? ?] | [? ?]]; lia].
  split; [reflexivity|].
  split; [lia|]. split; [destruct Hk2 as [[? ?] | [? ?]]; lia|].
  split; [lia|]. split; [exact Hexact2|]. split; [exact Hr|]. split.
  - intros Hl Hmod. subst mr. rewrite (Hexact Hl Hmod). reflexivity.
  - intros E Hodd Hl. subst mr. rewrite (Hup E Hodd Hl).
    unfold m1. rewrite E. reflexivity.
Qed.

Lemma ceil_from_bounds (m e K E k2 : Z) :
  0 < m -> 0 <= E -> 0 <= k2 -> e = k2 - E ->
  (K - 1) * 2 ^ E < m * 2 ^ k2 <= K * 2 ^ E ->
  PyFloat.ceil (S754_finite false (Z.to_pos m) e) = Ok K.
Proof.
  intros Hm HE Hk2 -> Hb. unfold PyFloat.ceil. cbn [cond_Zopp].
  rewrite Z2Pos.id by assumption. f_equal.
  assert (HpE : 0 < 2 ^ E) by (apply Z.pow_pos_nonneg; lia).
  assert (Hpk : 0 < 2 ^ k2) by (apply Z.pow_pos_nonneg; lia).
  destruct (Z.leb_spec 0 (k2 - E)) as [Hge | Hlt].
  - assert (Hsplit : 2 ^ k2 = 2 ^ (k2 - E) * 2 ^ E).
    { rewrite <- Z.pow_add_r by lia. f_equal. lia. }
    assert (Hp : 0 < 2 ^ (k2 - E)) by (apply Z.pow_pos_nonneg; lia).
    rewrite Hsplit in Hb. nia.
  - replace (- (k2 - E)) with (E - k2) by lia.
    assert (Hsplit : 2 ^ E = 2 ^ (E - k2) * 2 ^ k2).
    { rewrite <- Z.pow_add_r by lia. f_equal. lia. }
    assert (Hp : 0 < 2 ^ (E - k2)) by (apply Z.pow_pos_nonneg; lia).
    rewrite Hsplit in Hb.
    assert (Hq : - m / 2 ^ (E - k2) = - K); [|lia].
    symmetry. apply Z.div_unique with (K * 2 ^ (E - k2) - m); nia.
Qed.

(** The integer side of the argument: where the rounded quotient of [a / b]
    scaled by [P = 2^F] can fall. *)
Lemma scaled_quotient_bounds (a b K P : Z) :
  0 < a -> 0 < b -> b < P ->
  (K - 1) * b < a <= K * b ->
  let q := a * P / b in
  (K - 1) * P + 1 <= q <= K * P /\
  (q = K * P -> (a * P) mod b = 0) /\
  (q = (K - 1) * P + 1 -> 0 < (a * P) mod b).
Proof.
  intros Ha Hb HP HK q.
  pose proof (Z.div_mod (a * P) b ltac:(lia)) as Hdm.
  pose proof (Z.mod_pos_bound (a * P) b ltac:(lia)) as Hr.
  fold q in Hdm. set (r := (a * P) mod b) in *.
  assert (Hlo : (K - 1) * P + 1 <= q) by nia.
  assert (Hhi : q <= K * P) by nia.
  repeat split; try assumption.
  - intros Hq. nia.
  - intros Hq. nia.
Qed.

Lemma ceil_div_bounds (a b : Z) :
  0 < b -> ((a + b - 1) / b - 1) * b < a <= (a + b - 1) / b * b.
Proof.
  intros Hb. pose proof (Z.div_mod (a + b - 1) b ltac:(lia)) as Hdm.
  pose proof (Z.mod_pos_bound (a + b - 1) b Hb) as Hr. nia.
Qed.

(** [math.ceil(a / b)] is the exact ceiling for positive integers below
    [2^53]: the rounded quotient never reaches the next integer below and
    never passes the one above. *)
Lemma cols_of_exact (a b : Z) :
  0 < a < 2 ^ 53 -> 0 < b < 2 ^ 53 ->
  Layout.cols_of a b = Ok (Layout.ceil_div a b).
Proof.
  intros Ha Hb. unfold Layout.cols_of, Layout.ceil_div.
  rewrite truediv_ok by lia. cbn [bind].
  destruct (of_int_normal a Ha) as (ma & -> & Hma & Hda & Hda').
  destruct (of_int_normal b Hb) as (mb & -> & Hmb & Hdb & Hdb').
  set (da := Zdigits2 a) in *. set (db := Zdigits2 b) in *.
  pose proof (Zdigits2_53_bounds ma Hda) as Hma53.
  pose proof (Zdigits2_53_bounds mb Hdb) as Hmb53.
  set (F := 53 + db - da). set (G := 53 - db).
  assert (HF : 1 <= F) by (subst F; lia). assert (HG : 0 <= G) by (subst G; lia).
  assert (HpF : 0 < 2 ^ F) by (apply Z.pow_pos_nonneg; lia).
  assert (HpG : 0 < 2 ^ G) by (apply Z.pow_pos_nonneg; lia).
  assert (Hnum : Zpos ma * 2 ^ 53 = a * 2 ^ F * 2 ^ G).
  { rewrite Hma, <- !Z.mul_assoc, <- !Z.pow_add_r by lia.
    f_equal. f_equal. subst F G. lia. }
  assert (Hden : Zpos mb = b * 2 ^ G) by (rewrite Hmb; reflexivity).
  assert (HbP : b < 2 ^ F).
  { apply Z.lt_le_trans with (2 ^ db); [apply Zdigits2_lt_pow; lia|].
    apply Z.pow_le_mono_r; subst F; lia. }
  (* the quotient and remainder the division computes *)
  cbn [SFdiv xorb]. unfold SFdiv_core_binary. cbn [Zdigits2]. rewrite Hda, Hdb.
  replace (Z.min (SpecFloat.fexp PyFloat.prec PyFloat.emax
                    (53 + (da - 53) - (53 + (db - 53))))
                 (da - 53 - (db - 53))) with (- F)
    by (rewrite fexp_eq; subst F; lia).
  replace (da - 53 - (db - 53) - - F) with 53 by (subst F; lia).
  rewrite Z.shiftl_mul_pow2 by lia. rewrite div_eucl_div_mod.
  rewrite Hnum, Hden.
  rewrite Z.div_mul_cancel_r by lia.
  rewrite Z.mul_mod_distr_r by lia.
  set (K := (a + b - 1) / b).
  pose proof (ceil_div_bounds a b ltac:(lia)) as HK. fold K in HK.
  destruct (scaled_quotient_bounds a b K (2 ^ F) ltac:(lia) ltac:(lia) HbP HK)
    as (Hq & Htop & Hbottom).
  set (q := a * 2 ^ F / b) in *. set (r0 := (a * 2 ^ F) mod b) in *.
  assert (Hr0 : 0 <= r0 < b) by (apply Z.mod_pos_bound; lia).
  assert (Hq53 : 2 ^ 52 <= q < 2 ^ 54).
  { assert (Hqeq : q = Zpos ma * 2 ^ 53 / Zpos mb).
    { rewrite Hnum, Hden. rewrite Z.div_mul_cancel_r by lia. reflexivity. }
    rewrite Hqeq. split.
    - apply Z.div_le_lower_bound; [lia|].
      change (2 ^ 53) with (2 * 2 ^ 52) at 1. change (2 ^ 53) with (2 * 2 ^ 52) in Hmb53.
      nia.
    - apply Z.div_lt_upper_bound; [lia|].
      change (2 ^ 54) with (4 * 2 ^ 52). change (2 ^ 53) with (2 * 2 ^ 52) in *. nia. }
  destruct (binary_round_aux_near q (- F) (new_location (b * 2 ^ G) (r0 * 2 ^ G))
              Hq53 ltac:(subst F; lia))
    as (mr & k2 & -> & Hk1 & Hk2 & Hlow & Hexact & Hmr & Hsame & Hup).
  set (k1 := Zdigits2 q - 53) in *.
  assert (Hpos : 0 < mr / 2 ^ k2) by lia.
  (* the rounded mantissa lies strictly above K - 1 and not above K *)
  assert (HpE : 0 < 2 ^ (F - k1)) by (apply Z.pow_pos_nonneg; lia).
  assert (Hsplit : 2 ^ F = 2 ^ (F - k1) * 2 ^ k1).
  { rewrite <- Z.pow_add_r by lia. f_equal. lia. }
  assert (Hbounds : (K - 1) * 2 ^ (F - k1) < mr <= K * 2 ^ (F - k1)).
  { assert (Hk1' : k1 = 0 \/ k1 = 1) by lia.
    destruct Hk1' as [E | E]; rewrite E in *.
    - change (2 ^ 0) with 1 in *. rewrite Z.div_1_r, Z.sub_0_r in *.
      rewrite Z.mul_1_r in Hsplit. split; [lia|].
      destruct (Z.eq_dec q (K * 2 ^ F)) as [Heq | Hne]; [|lia].
      rewrite Hsame; [lia | | apply Z.mod_1_r].
      rewrite (Htop Heq), Z.mul_0_l. apply new_location_zero.
    - change (2 ^ 1) with 2 in *. set (P' := 2 ^ (F - 1)) in *.
      pose proof (Z.div_mod q 2 ltac:(lia)) as Hq2.
      pose proof (Z.mod_pos_bound q 2 ltac:(lia)) as Hq2r.
      split.
      + destruct (Z.eq_dec q ((K - 1) * 2 ^ F + 1)) as [Heq | Hne]; [|lia].
        rewrite Hup; [lia | reflexivity | |].
        * rewrite Zodd_mod. rewrite Heq, Hsplit.
          replace ((K - 1) * (P' * 2) + 1) with (1 + (K - 1) * P' * 2) by lia.
          rewrite Z.mod_add by lia. reflexivity.
        * destruct (new_location_inexact (b * 2 ^ G) (r0 * 2 ^ G)) as (c & ->);
            [specialize (Hbottom Heq); nia | discriminate].
      + destruct (Z.eq_dec q (K * 2 ^ F)) as [Heq | Hne]; [|lia].
        rewrite Hsame; [lia | |].
        * rewrite (Htop Heq), Z.mul_0_l. apply new_location_zero.
        * rewrite Heq, Hsplit, Z.mul_assoc. apply Z.mod_mul. lia. }
  apply (ceil_from_bounds (mr / 2 ^ k2) _ K (F - k1) k2); try lia.
Qed.

(** ** The layout search on inputs inside the contract *)

Lemma sub_within (x y : PyFloat.float) :
  within 110 x -> within 110 y -> within 971 (PyFloat.sub x y).
Proof.
  unfold PyFloat.sub.
  destruct x as [sx | sx | | sx mx ex]; try contradiction;
    destruct y as [sy | sy | | sy my ey]; try contradiction; cbn [within]; intros Hx Hy.
  - destruct sx, sy; exact I.
  - cbn [SFsub within]. lia.
  - cbn [SFsub within]. lia.
  - destruct (SFsub_finite_spec sx sy mx my ex ey) as (s & m' & e' & -> & Hpos & He & Hmu).
    apply rounded_within; lia.
Qed.

Lemma abs_lt_inf (u : Z) (x : PyFloat.float) :
  within u x -> PyFloat.ltb (PyFloat.abs x) PyFloat.inf = true.
Proof. destruct x as [s | s | | s m e]; cbn [within]; try contradiction; reflexivity. Qed.

Lemma of_int_within (z : Z) : 0 < z < 2 ^ 53 -> within 110 (PyFloat.of_int z).
Proof.
  intros Hz. destruct (of_int_normal z Hz) as (m & -> & _ & Hd & Hz').
  cbn [within]. lia.
Qed.

Lemma ceil_div_covers (n r : Z) :
  1 <= n -> 1 <= r -> n <= r * Layout.ceil_div n r /\ 1 <= Layout.ceil_div n r.
Proof.
  intros Hn Hr. unfold Layout.ceil_div.
  pose proof (ceil_div_bounds n r ltac:(lia)). nia.
Qed.

Section Search.

Variables n w h : Z.
Hypothesis Hn : 1 <= n < 2 ^ 53.
Hypothesis Hw : 0 < w < 2 ^ 53.
Hypothesis Hh : 0 < h < 2 ^ 53.

Local Abbreviation tr :=
  (SFdiv PyFloat.prec PyFloat.emax (PyFloat.of_int w) (PyFloat.of_int h)).

Lemma target_ratio_ok : PyFloat.truediv w h = Ok tr /\ within 110 tr.
Proof. split; [apply truediv_ok; lia | apply quotient_within; assumption]. Qed.

Lemma ratio_diff_not_nan (c r : Z) :
  0 < c < 2 ^ 53 -> 1 <= r <= 19 ->
  exists d, Layout.ratio_diff_of c r tr = Ok d /\ is_nan d = false.
Proof.
  intros Hc Hr. unfold Layout.ratio_diff_of. rewrite truediv_ok by lia. cbn [bind].
  eexists. split; [reflexivity|].
  apply SFabs_not_nan. apply (SFsub_not_nan _ _ 110); [|apply target_ratio_ok].
  destruct (of_int_normal r ltac:(lia)) as (mr & -> & _).
  apply SFdiv_not_nan, of_int_not_nan.
Qed.

(** Every row count of the range is a candidate, with the exact ceiling as
    its column count. *)
Lemma candidate_exact (r : Z) :
  1 <= r <= 19 ->
  exists d,
    Layout.cols_of n r = Ok (Layout.ceil_div n r) /\
    Layout.ratio_diff_of (Layout.ceil_div n r) r tr = Ok d /\
    is_nan d = false /\
    Layout.candidate n w h r = Ok (Some (Layout.ceil_div n r, d)).
Proof.
  intros Hr.
  assert (Hc : Layout.cols_of n r = Ok (Layout.ceil_div n r))
    by (apply cols_of_exact; lia).
  pose proof (ceil_div_covers n r ltac:(lia) ltac:(lia)) as Hcover.
  assert (Hcn : Layout.ceil_div n r <= n).
  { unfold Layout.ceil_div. apply Z.div_le_upper_bound; nia. }
  destruct (ratio_diff_not_nan (Layout.ceil_div n r) r ltac:(lia) Hr) as (d & Hd & Hnan).
  exists d. repeat split; try assumption.
  unfold Layout.candidate. rewrite (proj1 target_ratio_ok), Hc. cbn [bind].
  destruct (Z.geb_spec (r * Layout.ceil_div n r) n) as [_ | Hlt].
  - now rewrite Hd.
  - pose proof (ceil_div_covers n r ltac:(lia) ltac:(lia)). lia.
Qed.

Lemma first_candidate :
  exists d, Layout.candidate n w h 1 = Ok (Some (n, d)) /\ PyFloat.ltb d PyFloat.inf = true.
Proof.
  unfold Layout.candidate. rewrite (proj1 target_ratio_ok), cols_of_one by lia. cbn [bind].
  destruct (Z.geb_spec (1 * n) n); [|lia].
  unfold Layout.ratio_diff_of. rewrite truediv_by_one by lia. cbn [bind].
  eexists. split; [reflexivity|].
  apply (abs_lt_inf 971), sub_within; [apply of_int_within; lia | apply target_ratio_ok].
Qed.

Lemma search_inv_step (k : Z) (st : Layout.search) :
  1 <= k <= 19 -> Layout.search_inv n w h k st ->
  exists st', Layout.grid_step n w h tr st k = Ok st' /\ Layout.search_inv n w h (k + 1) st'.
Proof.
  intros Hk Hinv. destruct (candidate_exact k Hk) as (d & Hc & Hd & _ & Hcand).
  pose proof (ceil_div_covers n k ltac:(lia) ltac:(lia)) as [Hguard Hcols].
  set (c := Layout.ceil_div n k) in *.
  unfold Layout.grid_step. rewrite Hc. cbn [bind].
  destruct (Z.geb_spec (k * c) n) as [_ | Hlt]; [|lia].
  rewrite Hd. cbn [bind].
  rewrite (floordiv_ok w c) by lia. rewrite (floordiv_ok h k) by lia. cbn [bind].
  destruct (PyFloat.ltb d (Layout.best_ratio_diff st)) eqn:Hlt.
  - (* the candidate replaces the best so far *)
    eexists. split; [reflexivity|]. unfold Layout.search_inv. cbn [Layout.best_layout
      Layout.best_ratio_diff].
    split; [lia|]. split; [reflexivity|]. split; [reflexivity|].
    split; [exact Hcand|].
    intros r c' d' Hr Hcand'.
    destruct (Z.eq_dec r k) as [-> | Hne].
    + rewrite Hcand in Hcand'. injection Hcand' as <- <-.
      split; [apply ltb_irrefl | lia].
    + assert (Hold : PyFloat.ltb d' (Layout.best_ratio_diff st) = false).
      { unfold Layout.search_inv in Hinv.
        destruct (Layout.best_layout st) as [[[[rows cols] cw] ch]|].
        - destruct Hinv as (_ & _ & _ & _ & Hall).
          apply (Hall r c' d'); [lia | exact Hcand'].
        - destruct Hinv as (Hinf & Hall). rewrite Hinf.
          apply (Hall r c' d'); [lia | exact Hcand']. }
      split.
      * destruct (PyFloat.ltb d' d) eqn:E; [|reflexivity].
        rewrite (ltb_trans _ _ _ E Hlt) in Hold. discriminate.
      * intros _. destruct (PyFloat.leb d' d) eqn:E; [|reflexivity].
        rewrite (leb_ltb_trans _ _ _ E Hlt) in Hold. discriminate.
  - (* the best so far stays *)
    exists st. split; [reflexivity|]. unfold Layout.search_inv in *.
    destruct (Layout.best_layout st) as [[[[rows cols] cw] ch]|].
    + destruct Hinv as (Hrows & Hcw & Hch & Hbest & Hall).
      split; [lia|]. split; [exact Hcw|]. split; [exact Hch|]. split; [exact Hbest|].
      intros r c' d' Hr Hcand'.
      destruct (Z.eq_dec r k) as [-> | Hne].
      * rewrite Hcand in Hcand'. injection Hcand' as <- <-. split; [exact Hlt | lia].
      * apply (Hall r c' d'); [lia | exact Hcand'].
    + destruct Hinv as (Hinf & Hall). split; [exact Hinf|].
      intros r c' d' Hr Hcand'.
      destruct (Z.eq_dec r k) as [-> | Hne].
      * rewrite Hcand in Hcand'. injection Hcand' as <- <-. now rewrite <- Hinf.
      * apply (Hall r c' d'); [lia | exact Hcand'].
Qed.

Lemma search_loop (j : nat) :
  (j <= 19)%nat ->
  exists st,
    for_each (Layout.grid_step n w h tr) (range 1 (1 + Z.of_nat j)) Layout.search0 = Ok st /\
    Layout.search_inv n w h (1 + Z.of_nat j) st.
Proof.
  induction j as [|j IH]; intros Hj.
  - exists Layout.search0. split; [reflexivity|].
    unfold Layout.search_inv. cbn. split; [reflexivity|]. intros; lia.
  - destruct (IH ltac:(lia)) as (st & Hrun & Hinv).
    destruct (search_inv_step (1 + Z.of_nat j) st ltac:(lia) Hinv) as (st' & Hstep & Hinv').
    exists st'. replace (1 + Z.of_nat (S j)) with (1 + Z.of_nat j + 1) by lia.
    split; [|exact Hinv'].
    rewrite range_snoc by lia. rewrite for_each_app, Hrun. cbn [bind for_each].
    rewrite Hstep. reflexivity.
Qed.

End Search.

(** C1, as the code has it: for [1 <= num_videos < 2^53] and a canvas with
    [0 < width, height < 2^53] (where integers convert to binary64 exactly)
    the search returns a layout [(rows, cols, width // cols, height // rows)]
    with [rows] in [1..19], [cols] the exact ceiling of [num_videos / rows],
    [cols >= 1] and [rows * cols >= num_videos].  Every row count [r] in
    [1..19] is a candidate with [ceil(num_videos / r)] columns; the binary64
    difference [abs(cols/rows - width/height)] of the returned layout is at
    most that of each of them, and strictly below that of each with fewer
    rows.  The differences compared are the rounded binary64 values, and a
    tie is an equality of those. *)
Theorem compute_layout_binary64_argmin (num_videos target_width target_height : Z) :
  1 <= num_videos < 2 ^ 53 ->
  0 < target_width < 2 ^ 53 ->
  0 < target_height < 2 ^ 53 ->
  exists rows ratio_diff,
    let cols := Layout.ceil_div num_videos rows in
    Layout.calculate_optimal_grid num_videos target_width target_height =
      Ok (Some (rows, cols, target_width / cols, target_height / rows)) /\
    1 <= rows <= 19 /\ 1 <= cols /\ num_videos <= rows * cols /\
    Layout.candidate num_videos target_width target_height rows =
      Ok (Some (cols, ratio_diff)) /\
    forall r, 1 <= r <= 19 ->
      exists d,
        Layout.candidate num_videos target_width target_height r =
          Ok (Some (Layout.ceil_div num_videos r, d)) /\
        PyFloat.leb ratio_diff d = true /\
        (r < rows -> PyFloat.ltb ratio_diff d = true).
Proof.
  intros Hn Hw Hh.
  destruct (search_loop num_videos target_width target_height Hn Hw Hh 19 (le_n _))
    as (st & Hrun & Hinv).
  change (1 + Z.of_nat 19) with 20 in Hrun, Hinv.
  destruct (first_candidate num_videos target_width target_height Hn Hw Hh)
    as (d1 & Hcand1 & Hfinite).
  unfold Layout.search_inv in Hinv.
  destruct (Layout.best_layout st) as [[[[rows cols] cw] ch]|] eqn:Hbest.
  2:{ destruct Hinv as (_ & Hall).
      rewrite (Hall 1 num_videos d1 ltac:(lia) Hcand1) in Hfinite. discriminate. }
  destruct Hinv as (Hrows & -> & -> & Hcand & Hall).
  destruct (candidate_exact num_videos target_width target_height Hn Hw Hh rows
              ltac:(lia)) as (d0 & _ & _ & Hnan0 & Hcand0).
  rewrite Hcand in Hcand0. injection Hcand0 as -> <-.
  pose proof (ceil_div_covers num_videos rows ltac:(lia) ltac:(lia)) as [Hfill Hcols].
  exists rows, (Layout.best_ratio_diff st). cbn zeta.
  split.
  { unfold Layout.calculate_optimal_grid.
    rewrite (proj1 (target_ratio_ok target_width target_height Hw Hh)). cbn [bind].
    rewrite Hrun. cbn [bind]. now rewrite Hbest. }
  split; [lia|]. split; [exact Hcols|]. split; [exact Hfill|]. split; [exact Hcand|].
  intros r Hr.
  destruct (candidate_exact num_videos target_width target_height Hn Hw Hh r Hr)
    as (d & _ & _ & Hnan & Hcandr).
  exists d. split; [exact Hcandr|].
  destruct (Hall r _ d ltac:(lia) Hcandr) as [Hnot_less Hearlier].
  split; [apply leb_of_not_ltb; assumption|].
  intros Hbefore. apply ltb_of_not_leb; [exact Hnan | exact Hnan0 | now apply Hearlier].
Qed.

Lemma compute_layout_binary64_argmin_witness :
  exists rows cols,
    Layout.calculate_optimal_grid 80 1920 1080 =
      Ok (Some (rows, cols, 1920 / cols, 1080 / rows)) /\
    cols = Layout.ceil_div 80 rows /\ 80 <= rows * cols.
Proof.
  destruct (compute_layout_binary64_argmin 80 1920 1080)
    as (rows & d & Hrun & _ & _ & Hfill & _); [lia | lia | lia |].
  exists rows, (Layout.ceil_div 80 rows).
  split; [exact Hrun | split; [reflexivity | exact Hfill]].
Defined.

(** For 121 clips on a 1920x1080 canvas, 8 rows of 16 and 9 rows of 14 are
    both candidates at exactly the same distance 2/9 from 16/9; the search
    returns 9 rows, not the smaller row count. *)
Lemma compute_layout_exact_tie_not_first :
  Layout.calculate_optimal_grid 121 1920 1080 = Ok (Some (9, 14, 137, 120)) /\
  Layout.ceil_div 121 8 = 16 /\ Layout.ceil_div 121 9 = 14 /\
  Qeq (Layout.exact_diff 16 8 1920 1080) (Qmake 2 9) /\
  Qeq (Layout.exact_diff 14 9 1920 1080) (Qmake 2 9) /\
  ~ Layout.exact_argmin_first 121 1920 1080 9 14.
Proof.
  repeat split; try reflexivity.
  intros (_ & _ & Hall). destruct (Hall 8 ltac:(lia)) as [_ Hstrict].
  specialize (Hstrict ltac:(lia)). vm_compute in Hstrict. discriminate.
Qed.

(** ** Layout: what happens on inputs outside the contract *)

(** Zero divided by an integer that is not zero is a zero. *)
Lemma truediv_zero (b : Z) :
  b <> 0 -> exists s, PyFloat.truediv 0 b = Ok (S754_zero s).
Proof.
  intros Hb. unfold PyFloat.truediv. destruct (Z.eqb_spec b 0); [contradiction|].
  destruct b as [|p|p]; [contradiction | |]; eexists; reflexivity.
Qed.

(** A numerator below [2^1023] in magnitude cannot make the quotient of two
    integers overflow. *)
Lemma truediv_finite (a b : Z) :
  b <> 0 -> Z.abs a < 2 ^ 1023 -> exists q, PyFloat.truediv a b = Ok q.
Proof.
  intros Hb Ha. unfold PyFloat.truediv. destruct (Z.eqb_spec b 0); [contradiction|].
  assert (Hfin : forall s1 s2 m1 m2, Zpos m1 < 2 ^ 1023 ->
            exists q,
              match SFdiv PyFloat.prec PyFloat.emax
                      (S754_finite s1 m1 0) (S754_finite s2 m2 0) with
              | S754_infinity _ => Raise OverflowError
              | q => Ok q
              end = Ok q).
  { intros s1 s2 m1 m2 Hm.
    destruct (SFdiv_finite_spec s1 s2 m1 m2 0 0) as (m' & e' & -> & Hpos & He & _).
    assert (Hd : Zpos (digits2_pos m1) <= 1023)
      by (apply (Zdigits2_le_iff (Zpos m1) 1023); lia).
    unfold rounded. destruct m' as [|p|p]; [eexists; reflexivity | | lia].
    destruct (Z.leb_spec e' 971); [eexists; reflexivity | lia]. }
  destruct a as [|pa|pa], b as [|pb|pb]; try contradiction; cbn [PyFloat.exact_int];
    try (eexists; reflexivity); apply Hfin; lia.
Qed.

(** A candidate with [cols = 0] that passes the guard stops the search at
    [target_width // cols]. *)
Lemma grid_step_zero_cols (n w h rows : Z) (tr : PyFloat.float) (st : Layout.search) :
  rows <> 0 -> Layout.cols_of n rows = Ok 0 -> n <= 0 ->
  Layout.grid_step n w h tr st rows = Raise ZeroDivisionError.
Proof.
  intros Hrows Hcols Hn. unfold Layout.grid_step. rewrite Hcols. cbn [bind].
  destruct (Z.geb_spec (rows * 0) n) as [_ | Hlt]; [|lia].
  unfold Layout.ratio_diff_of. destruct (truediv_zero rows Hrows) as (s & ->).
  reflexivity.
Qed.

(** A step whose [cols] is not 0 does not raise, provided [cols / rows] is
    computed when the guard asks for it. *)
Lemma grid_step_nonzero_cols (n w h rows cols : Z) (tr : PyFloat.float)
    (st : Layout.search) :
  rows <> 0 -> Layout.cols_of n rows = Ok cols -> cols <> 0 ->
  ((rows * cols >=? n) = true -> exists q, PyFloat.truediv cols rows = Ok q) ->
  exists st', Layout.grid_step n w h tr st rows = Ok st'.
Proof.
  intros Hrows Hcols Hnz Hratio. unfold Layout.grid_step. rewrite Hcols. cbn [bind].
  destruct (rows * cols >=? n); [|eexists; reflexivity].
  unfold Layout.ratio_diff_of. destruct (Hratio eq_refl) as (q & ->). cbn [bind].
  rewrite !floordiv_ok by assumption. cbn [bind].
  destruct (PyFloat.ltb _ _); eexists; reflexivity.
Qed.

Lemma search_reaches_zero_cols (n w h : Z) (tr : PyFloat.float) (rs : list Z)
    (st : Layout.search) :
  n <= 0 -> Layout.reaches_zero_cols n rs = true ->
  for_each (Layout.grid_step n w h tr) rs st = Raise ZeroDivisionError.
Proof.
  intros Hn. revert st. induction rs as [|r rs IH]; intros st Hreach;
    cbn [Layout.reaches_zero_cols for_each] in *; [discriminate|].
  destruct (Layout.cols_of n r) as [c|] eqn:Hc; [|discriminate].
  apply andb_prop in Hreach. destruct Hreach as [Hr Hrest].
  destruct (Z.eqb_spec r 0) as [|Hr0]; [discriminate|].
  destruct (Z.eqb_spec c 0) as [-> | Hc0].
  - rewrite grid_step_zero_cols by assumption. reflexivity.
  - apply andb_prop in Hrest. destruct Hrest as [Hratio Hrest].
    destruct (grid_step_nonzero_cols n w h r c tr st Hr0 Hc Hc0) as (st' & ->).
    + intros Hguard. rewrite Hguard in Hratio.
      destruct (PyFloat.truediv c r) as [q|]; [now exists q | discriminate].
    + cbn [bind]. now apply IH.
Qed.

(** C7, as the code has it: neither function validates its arguments.  The
    layout search divides the canvas width by the height first: a height of 0
    is a [ZeroDivisionError] there, and a quotient too large for a float is
    an [OverflowError], which no width below [2^1023] in magnitude can cause.
    When that division returns and the count is between -18 and 0, the search
    stops with [ZeroDivisionError] at [target_width // cols], because the row
    count [1 - count] gets [cols = 0].  The sampler stops with [IndexError]
    when the groups supply no clip and at least one slot is asked for; a slot
    count of 0 or less is not an error and yields a plan. *)
Theorem unvalidated_inputs :
  (forall n w h, -18 <= n <= 0 ->
     Layout.calculate_optimal_grid n w h =
     match PyFloat.truediv w h with
     | Ok _ => Raise ZeroDivisionError
     | Raise e => Raise e
     end) /\
  (forall n w h, -18 <= n <= 0 -> Z.abs w < 2 ^ 1023 ->
     Layout.calculate_optimal_grid n w h = Raise ZeroDivisionError) /\
  (forall n w, Layout.calculate_optimal_grid n w 0 = Raise ZeroDivisionError) /\
  (forall (RNG : Type) choices shuffle (task_videos : Sampler.task_map)
          (rows cols : Z) (max_videos : option Z) (shuffle_on : bool) (g : RNG),
     Sampler.choices_contract RNG choices ->
     Sampler.tag_all task_videos = [] -> 1 <= rows * cols ->
     Sampler.create_balanced_video_list RNG choices shuffle task_videos (rows, cols)
       max_videos shuffle_on g = Raise IndexError) /\
  (forall (RNG : Type) choices shuffle (task_videos : Sampler.task_map)
          (rows cols : Z) (max_videos : option Z) (shuffle_on : bool) (g : RNG),
     rows * cols <= 0 ->
     exists plan g',
       Sampler.create_balanced_video_list RNG choices shuffle task_videos (rows, cols)
         max_videos shuffle_on g = Ok (plan, g') /\
       (rows * cols = 0 -> plan = [])).
Proof.
  assert (Hsearch : forall n w h, -18 <= n <= 0 ->
            Layout.calculate_optimal_grid n w h =
            match PyFloat.truediv w h with
            | Ok _ => Raise ZeroDivisionError
            | Raise e => Raise e
            end).
  { intros n w h Hn. unfold Layout.calculate_optimal_grid.
    destruct (PyFloat.truediv w h) as [tr | e]; [|reflexivity]. cbn [bind].
    rewrite search_reaches_zero_cols; [reflexivity | lia |].
    assert (Hcases : In n (range (-18) 1)) by (apply in_range; lia).
    vm_compute in Hcases.
    repeat (destruct Hcases as [<- | Hcases]; [vm_compute; reflexivity|]).
    contradiction. }
  split; [exact Hsearch | split; [|split; [|split]]].
  - intros n w h Hn Hw. rewrite Hsearch by assumption.
    destruct (Z.eq_dec h 0) as [-> | Hh].
    + unfold PyFloat.truediv. reflexivity.
    + destruct (truediv_finite w h Hh Hw) as (q & ->). reflexivity.
  - intros n w. reflexivity.
  - intros RNG choices shuffle task_videos rows cols max_videos shuffle_on g
           [_ Hempty] Hnone Hslots.
    unfold Sampler.create_balanced_video_list. rewrite Hnone, limit_nil.
    change (len (@nil Sampler.clip)) with 0.
    destruct (Z.ltb_spec 0 (rows * cols)); [|lia].
    rewrite Z.sub_0_r, Hempty by lia. reflexivity.
  - intros RNG choices shuffle task_videos rows cols max_videos shuffle_on g Hslots.
    unfold Sampler.create_balanced_video_list.
    set (capped := Sampler.limit max_videos (Sampler.tag_all task_videos)).
    pose proof (len_nonneg capped).
    destruct (Z.ltb_spec (len capped) (rows * cols)); [lia|]. cbn [bind].
    destruct (if shuffle_on then shuffle capped g else (capped, g)) as [sh g'].
    eexists _, _. split; [reflexivity|].
    intros ->. unfold slice_to. reflexivity.
Qed.

Lemma unvalidated_inputs_witness :
  Layout.calculate_optimal_grid 0 1920 1080 = Raise ZeroDivisionError /\
  Layout.calculate_optimal_grid (-3) (10 ^ 400) 1 = Raise OverflowError /\
  Layout.calculate_optimal_grid (-3) (10 ^ 400) (10 ^ 399) = Raise ZeroDivisionError /\
  Sampler.create_balanced_video_list nat Sampler.counter_choices Sampler.counter_shuffle
    [] (2, 2) None true 0%nat = Raise IndexError.
Proof.
  destruct unvalidated_inputs as (Hcount & Hsmall & _ & Hgroups & _).
  split; [|split; [|split]].
  - apply Hsmall; [lia | vm_compute; reflexivity].
  - rewrite Hcount by lia. vm_compute. reflexivity.
  - rewrite Hcount by lia. vm_compute. reflexivity.
  - apply Hgroups; [exact counter_choices_contract | reflexivity | lia].
Defined.

(** A canvas of width 0, a canvas of negative height and a count below -18
    are searched like any other input, and a slot count of 0 gives the empty
    plan. *)
Lemma unvalidated_inputs_accepted :
  Layout.calculate_optimal_grid 1 0 1080 = Ok (Some (19, 1, 0, 56)) /\
  Layout.calculate_optimal_grid (-19) 1920 1080 = Ok (Some (19, -1, -1920, 56)) /\
  Layout.calculate_optimal_grid 4 1920 (-1080) = Ok (Some (19, 1, 1920, -57)) /\
  Sampler.create_balanced_video_list nat Sampler.counter_choices Sampler.counter_shuffle
    demo_tasks (0, 3) None true 0%nat = Ok ([], 1%nat).
Proof. repeat split; vm_compute; reflexivity. Qed.

(** ** Filter graph: any selection *)

Lemma range_nil (a b : Z) : b <= a -> range a b = [].
Proof. intros H. unfold range. replace (Z.to_nat (b - a)) with 0%nat by lia. reflexivity. Qed.

Lemma map_seq_shift {A : Type} (f : nat -> A) (k s n : nat) :
  map f (seq (s + k) n) = map (fun i => f (i + k)%nat) (seq s n).
Proof.
  revert s. induction n as [|n IH]; intros s; cbn [seq map]; [reflexivity|].
  f_equal. apply (IH (S s)).
Qed.

Lemma range_split (a b c : Z) : a <= b <= c -> range a c = range a b ++ range b c.
Proof.
  intros H. unfold range.
  replace (Z.to_nat (c - a)) with (Z.to_nat (b - a) + Z.to_nat (c - b))%nat by lia.
  rewrite seq_app, map_app. f_equal. cbn [Nat.add].
  rewrite (map_seq_shift _ (Z.to_nat (b - a)) 0).
  apply map_ext. intros i. lia.
Qed.

Lemma range_shift (a b k : Z) : range (k + a) (k + b) = map (fun i => k + i) (range a b).
Proof.
  unfold range. rewrite map_map. replace (k + b - (k + a)) with (b - a) by lia.
  apply map_ext. intros i. lia.
Qed.

(** Row-major numbering: the cells of the rows below [rows], row after row,
    are the indices below [rows * cols]. *)
Lemma row_major (cols rows : Z) :
  0 <= cols -> 0 <= rows ->
  flat_map (fun row => map (fun col => row * cols + col) (range0 cols)) (range0 rows) =
  range0 (rows * cols).
Proof.
  intros Hc Hr. pattern rows. apply natlike_ind; [reflexivity| |exact Hr].
  intros k Hk IH. unfold range0 in *. unfold Z.succ.
  rewrite range_snoc by lia. rewrite flat_map_app, IH. cbn [flat_map].
  rewrite app_nil_r. rewrite (range_split 0 (k * cols) ((k + 1) * cols)) by nia.
  f_equal. replace (range (k * cols) ((k + 1) * cols))
    with (range (k * cols + 0) (k * cols + cols)) by (f_equal; lia).
  rewrite range_shift. reflexivity.
Qed.

Lemma filter_below (n a b : Z) :
  a <= n -> filter (fun i => negb (i <? n)) (range a b) = range n b.
Proof.
  intros Ha. destruct (Z.le_gt_cases b n) as [Hb | Hb].
  - rewrite (range_nil n b) by lia. apply filter_none.
    intros i Hi. apply in_range in Hi. destruct (Z.ltb_spec i n); [reflexivity | lia].
  - rewrite (range_split a n b) by lia. rewrite filter_app.
    rewrite filter_none.
    2:{ intros i Hi. apply in_range in Hi. destruct (Z.ltb_spec i n); [reflexivity | lia]. }
    cbn [app]. apply forallb_filter_id. apply forallb_forall.
    intros i Hi. apply in_range in Hi. destruct (Z.ltb_spec i n); [lia | reflexivity].
Qed.

Lemma filter_above (n a b : Z) :
  a <= n <= b -> filter (fun i => i <? n) (range a b) = range a n.
Proof.
  intros Ha. rewrite (range_split a n b) by lia. rewrite filter_app.
  rewrite (filter_none _ (range n b)).
  2:{ intros i Hi. apply in_range in Hi. destruct (Z.ltb_spec i n); [lia | reflexivity]. }
  rewrite app_nil_r. apply forallb_filter_id. apply forallb_forall.
  intros i Hi. apply in_range in Hi. destruct (Z.ltb_spec i n); [reflexivity | lia].
Qed.

(** The filler nodes of all rows, in closed form: one for each cell index
    from the number of clips on. *)
Lemma blacks_of_rows (rows cols cw ch duration n : Z) :
  0 <= cols -> 0 <= rows ->
  flat_map (Graph.blacks_of_row cols cw ch duration n) (range0 rows) =
  map (Graph.ColorFill cw ch duration) (range (Z.max 0 n) (rows * cols)).
Proof.
  intros Hc Hr.
  rewrite <- (filter_below (Z.max 0 n) 0) by lia.
  fold (range0 (rows * cols)). rewrite <- row_major by assumption.
  assert (Hrs : forall r, In r (range0 rows) -> 0 <= r)
    by (intros r Hin; apply in_range in Hin; lia).
  revert Hrs. generalize (range0 rows) as rs.
  induction rs as [|r rs IH]; intros Hrs; [reflexivity|].
  cbn [flat_map]. rewrite filter_app, map_app, IH by (intros; apply Hrs; now right).
  f_equal.
  unfold Graph.blacks_of_row. rewrite filter_map_swap, map_map.
  f_equal. apply filter_ext_in. intros col Hcol. apply in_range in Hcol.
  specialize (Hrs r (or_introl eq_refl)).
  destruct (Z.ltb_spec (r * cols + col) n), (Z.ltb_spec (r * cols + col) (Z.max 0 n));
    try reflexivity; nia.
Qed.

Lemma row_videos_of_rows (rows cols n : Z) :
  0 <= cols -> 0 <= rows ->
  flat_map (Graph.row_videos_of cols n) (range0 rows) =
  map (Graph.cell_label n) (range0 (rows * cols)).
Proof.
  intros Hc Hr. rewrite <- row_major by assumption.
  generalize (range0 rows) as rs. induction rs as [|r rs IH]; [reflexivity|].
  cbn [flat_map]. rewrite map_app, IH. f_equal.
  unfold Graph.row_videos_of. now rewrite map_map.
Qed.

Lemma cell_labels_split (n m : Z) :
  0 <= n <= m ->
  map (Graph.cell_label n) (range0 m) =
  map (Graph.label "v") (range0 n) ++ map (Graph.label "black") (range n m).
Proof.
  intros H. unfold range0. rewrite (range_split 0 n m) by lia. rewrite map_app.
  f_equal; apply map_ext_in; intros i Hi; apply in_range in Hi; unfold Graph.cell_label.
  - destruct (Z.ltb_spec i n); [reflexivity | lia].
  - destruct (Z.ltb_spec i n); [lia | reflexivity].
Qed.

Lemma flat_map_interleave {A B : Type} (f g : A -> list B) (l : list A) :
  Permutation (flat_map (fun x => f x ++ g x) l) (flat_map f l ++ flat_map g l).
Proof.
  induction l as [|x l IH]; cbn [flat_map app]; [constructor|].
  rewrite <- !app_assoc. apply Permutation_app_head.
  rewrite IH. apply Permutation_app_swap_app.
Qed.

(** *** Pad names *)

Lemma append_inv_head (s t1 t2 : string) : (s ++ t1 = s ++ t2)%string -> t1 = t2.
Proof.
  induction s as [|c s IH]; cbn [append]; intros H; [exact H|].
  injection H as H. now apply IH.
Qed.

Lemma append_one_inv (c : ascii) (t1 t2 : string) :
  (t1 ++ String c "" = t2 ++ String c "")%string -> t1 = t2.
Proof.
  revert t2. induction t1 as [|a t1 IH]; intros [|b t2]; cbn [append]; intros H.
  - reflexivity.
  - injection H as _ H. destruct t2; discriminate.
  - injection H as _ H. destruct t1; discriminate.
  - injection H as -> H. f_equal. now apply IH.
Qed.

Lemma str_inj (a b : Z) : str a = str b -> a = b.
Proof.
  unfold str. intros H.
  assert (Hnn : forall z, Z.to_int z <> Decimal.Pos Decimal.Nil /\
                          Z.to_int z <> Decimal.Neg Decimal.Nil).
  { intros [|p|p]; cbn; split; try discriminate; intros E; injection E as E;
      now apply (Unsigned.to_uint_nonnil p). }
  assert (E : Some (Z.to_int a) = Some (Z.to_int b)).
  { rewrite <- (NilZero.isi (Z.to_int a)), <- (NilZero.isi (Z.to_int b)) by apply Hnn.
    now rewrite H. }
  injection E as E. rewrite <- (of_to a), <- (of_to b). now rewrite E.
Qed.

Lemma label_inj (name : string) (a b : Z) :
  Graph.label name a = Graph.label name b -> a = b.
Proof.
  unfold Graph.label. intros H. apply append_inv_head in H.
  apply append_inv_head in H. apply append_one_inv in H. now apply str_inj.
Qed.

Lemma map_flat_map {A B C : Type} (f : B -> C) (g : A -> list B) (l : list A) :
  map f (flat_map g l) = flat_map (fun x => map f (g x)) l.
Proof.
  induction l as [|x l IH]; cbn [flat_map map]; [reflexivity|].
  now rewrite map_app, IH.
Qed.

Lemma flat_map_flat_map {A B C : Type} (f : B -> list C) (g : A -> list B) (l : list A) :
  flat_map f (flat_map g l) = flat_map (fun x => flat_map f (g x)) l.
Proof.
  induction l as [|x l IH]; cbn [flat_map]; [reflexivity|].
  now rewrite flat_map_app, IH.
Qed.

Lemma flat_map_nil {A B : Type} (f : A -> list B) (l : list A) :
  (forall x, In x l -> f x = []) -> flat_map f l = [].
Proof.
  induction l as [|x l IH]; intros H; cbn [flat_map]; [reflexivity|].
  rewrite (H x) by now left. apply IH. intros y Hy. apply H. now right.
Qed.

Lemma flat_map_singleton {A B : Type} (f : A -> B) (l : list A) :
  flat_map (fun x => [f x]) l = map f l.
Proof. induction l as [|x l IH]; cbn [flat_map map app]; [reflexivity | now rewrite IH]. Qed.

Section Pads.

Variables rows cols cell_width cell_height duration : Z.
Variable video_params : list Crop.crop_params.
Hypothesis Hrows : 1 <= rows.
Hypothesis Hcols : 1 <= cols.

Local Abbreviation n_videos := (len video_params).
Local Abbreviation emitted :=
  (Graph.crop_scale_nodes video_params cell_width cell_height ++
   flat_map (Graph.row_nodes cols cell_width cell_height duration n_videos) (range0 rows) ++
   (if rows >? 1
    then [Graph.VStack (map (Graph.row_label cols n_videos) (range0 rows))]
    else [])).

(** The pads written, up to order: one per clip, one per filler cell, one
    per row stack, and the final one. *)
Lemma emitted_outputs :
  Permutation (map Graph.node_output emitted)
    (map (Graph.label "v") (range0 n_videos) ++
     map (Graph.label "black") (range n_videos (rows * cols)) ++
     (if cols >? 1 then map (Graph.label "row") (range0 rows) else []) ++
     (if rows >? 1 then [Graph.final] else [])).
Proof.
  rewrite !map_app, crop_scale_outputs. apply Permutation_app_head.
  rewrite app_assoc. apply Permutation_app.
  2:{ destruct (rows >? 1); reflexivity. }
  rewrite map_flat_map.
  unfold Graph.row_nodes.
  rewrite (flat_map_ext _ (fun r =>
             map Graph.node_output
               (Graph.blacks_of_row cols cell_width cell_height duration n_videos r) ++
             (if cols >? 1 then [Graph.label "row" r] else []))).
  2:{ intros r. rewrite map_app. destruct (cols >? 1); reflexivity. }
  rewrite flat_map_interleave. apply Permutation_app.
  - rewrite <- map_flat_map, blacks_of_rows by lia.
    rewrite map_map. cbn [Graph.node_output].
    replace (Z.max 0 n_videos) with n_videos by (pose proof (len_nonneg video_params); lia).
    reflexivity.
  - destruct (cols >? 1).
    + now rewrite flat_map_singleton.
    + rewrite flat_map_nil; [reflexivity | reflexivity].
Qed.

(** The pads read, in order: the cells row by row when rows are stacked, then
    the rows when they are stacked. *)
Lemma emitted_inputs :
  flat_map Graph.node_inputs emitted =
  (if cols >? 1 then map (Graph.cell_label n_videos) (range0 (rows * cols)) else []) ++
  (if rows >? 1 then map (Graph.row_label cols n_videos) (range0 rows) else []).
Proof.
  rewrite !flat_map_app.
  rewrite (flat_map_nil Graph.node_inputs (Graph.crop_scale_nodes _ _ _))
    by (intros n Hn; now apply crop_scale_sources in Hn).
  cbn [app]. f_equal.
  - rewrite flat_map_flat_map. unfold Graph.row_nodes.
    rewrite (flat_map_ext _ (fun r =>
               if cols >? 1 then Graph.row_videos_of cols n_videos r else [])).
    2:{ intros r. rewrite flat_map_app.
        rewrite (flat_map_nil Graph.node_inputs (Graph.blacks_of_row _ _ _ _ _ _)).
        2:{ intros n Hn. now apply blacks_sources in Hn. }
        destruct (cols >? 1); cbn [flat_map app Graph.node_inputs];
          rewrite ?app_nil_r; reflexivity. }
    destruct (cols >? 1).
    + apply row_videos_of_rows; lia.
    + apply flat_map_nil. reflexivity.
  - destruct (rows >? 1); cbn [flat_map Graph.node_inputs]; rewrite ?app_nil_r; reflexivity.
Qed.

End Pads.

Lemma NoDup_map_injective {A B : Type} (f : A -> B) (l : list A) :
  (forall x y, In x l -> In y l -> f x = f y -> x = y) -> NoDup l -> NoDup (map f l).
Proof.
  intros Hinj Hnd. induction Hnd as [|x l Hx Hnd IH]; cbn [map]; constructor.
  - intros Hin. apply in_map_iff in Hin. destruct Hin as (y & Hy & Hyl).
    apply Hinj in Hy; [subst y; contradiction | now right | now left].
  - apply IH. intros a b Ha Hb. apply Hinj; now right.
Qed.

Lemma NoDup_range (a b : Z) : NoDup (range a b).
Proof.
  unfold range. apply NoDup_map_injective; [intros x y _ _; lia | apply seq_NoDup].
Qed.

Lemma NoDup_labels (name : string) (a b : Z) : NoDup (map (Graph.label name) (range a b)).
Proof.
  apply NoDup_map_injective; [|apply NoDup_range].
  intros x y _ _. apply label_inj.
Qed.

(** Pads of different kinds have different names. *)
Lemma pad_kinds_differ (i j : Z) :
  Graph.label "v" i <> Graph.label "black" j /\
  Graph.label "v" i <> Graph.label "row" j /\
  Graph.label "black" i <> Graph.label "row" j /\
  Graph.label "v" i <> Graph.final /\
  Graph.label "black" i <> Graph.final /\
  Graph.label "row" i <> Graph.final.
Proof. repeat split; discriminate. Qed.

Lemma pads_distinct (n m rows : Z) (with_rows with_final : bool) :
  NoDup (map (Graph.label "v") (range0 n) ++
         map (Graph.label "black") (range n m) ++
         (if with_rows then map (Graph.label "row") (range0 rows) else []) ++
         (if with_final then [Graph.final] else [])).
Proof.
  assert (Hr : NoDup (if with_rows then map (Graph.label "row") (range0 rows) else []))
    by (destruct with_rows; [apply NoDup_labels | constructor]).
  assert (Hf : NoDup (if with_final then [Graph.final] else []))
    by (destruct with_final; repeat constructor; intros []).
  repeat apply NoDup_app; try apply NoDup_labels; try assumption.
  - intros x Hx Hf'. destruct with_rows; [|destruct Hx].
    destruct with_final; [|destruct Hf']. destruct Hf' as [<- | []].
    apply in_map_iff in Hx. destruct Hx as (i & Hx & _).
    now apply (pad_kinds_differ i i).
  - intros x Hx Hy. apply in_map_iff in Hx. destruct Hx as (i & <- & _).
    apply in_app_or in Hy. destruct Hy as [Hy | Hy].
    + destruct with_rows; [|destruct Hy].
      apply in_map_iff in Hy. destruct Hy as (j & Hy & _).
      symmetry in Hy. now apply (pad_kinds_differ i j).
    + destruct with_final; [|destruct Hy]. destruct Hy as [Hy | []].
      symmetry in Hy. now apply (pad_kinds_differ i i).
  - intros x Hx Hy. apply in_map_iff in Hx. destruct Hx as (i & <- & _).
    apply in_app_or in Hy. destruct Hy as [Hy | Hy].
    + apply in_map_iff in Hy. destruct Hy as (j & Hy & _).
      symmetry in Hy. now apply (pad_kinds_differ i j).
    + apply in_app_or in Hy. destruct Hy as [Hy | Hy].
      * destruct with_rows; [|destruct Hy].
        apply in_map_iff in Hy. destruct Hy as (j & Hy & _).
        symmetry in Hy. now apply (pad_kinds_differ i j).
      * destruct with_final; [|destruct Hy]. destruct Hy as [Hy | []].
        symmetry in Hy. now apply (pad_kinds_differ i i).
Qed.

(** X3: for a layout with [rows >= 1] and [cols >= 1] and any number of
    clips the pads written by the emitted nodes have pairwise different
    names: no two filters of the graph write the same label. *)
Theorem pad_names_are_distinct (rows cols cell_width cell_height duration : Z)
    (video_params : list Crop.crop_params) :
  1 <= rows -> 1 <= cols ->
  exists nodes output_map,
    Graph.build_filter_graph rows cols cell_width cell_height duration video_params =
      Ok (nodes, output_map) /\
    NoDup (map Graph.node_output nodes).
Proof.
  intros Hr Hc. rewrite build_filter_graph_closed by assumption.
  eexists _, _. split; [reflexivity|].
  eapply Permutation_NoDup; [symmetry; apply emitted_outputs; assumption|].
  apply pads_distinct.
Qed.

(** X4: for a layout with [rows >= 1] and [cols >= 1] and at most
    [rows * cols] clips, the pads read by the emitted nodes together with the
    output pad are, up to order, exactly the pads written: every pad that is
    written is either the output or read by exactly one node, none dangles,
    and the output pad is read by no node. *)
Theorem every_pad_is_read_once (rows cols cell_width cell_height duration : Z)
    (video_params : list Crop.crop_params) :
  1 <= rows -> 1 <= cols -> len video_params <= rows * cols ->
  exists nodes output_map,
    Graph.build_filter_graph rows cols cell_width cell_height duration video_params =
      Ok (nodes, output_map) /\
    Permutation (output_map :: flat_map Graph.node_inputs nodes)
                (map Graph.node_output nodes) /\
    NoDup (flat_map Graph.node_inputs nodes) /\
    ~ In output_map (flat_map Graph.node_inputs nodes).
Proof.
  intros Hr Hc Hn. rewrite build_filter_graph_closed by assumption.
  eexists _, _. split; [reflexivity|].
  match goal with |- ?P /\ _ => assert (Hperm : P) end.
  { rewrite emitted_outputs, emitted_inputs by assumption.
    pose proof (len_nonneg video_params) as Hn0.
    destruct (Z.gtb_spec cols 1) as [Hwide | Hone], (Z.gtb_spec rows 1) as [Hmany | Hsingle].
    - rewrite cell_labels_split by lia. unfold Graph.row_label.
      destruct (Z.gtb_spec cols 1); [|lia].
      rewrite ?app_nil_r, <- ?app_assoc, ?app_assoc. apply Permutation_cons_append.
    - assert (rows = 1) by lia. subst rows. rewrite range0_one. cbn [map].
      rewrite cell_labels_split by lia. unfold Graph.row_label.
      destruct (Z.gtb_spec cols 1); [|lia]. rewrite !app_nil_r.
      rewrite ?app_nil_r, <- ?app_assoc, ?app_assoc. apply Permutation_cons_append.
    - assert (cols = 1) by lia. subst cols. cbn [app].
      rewrite (map_ext (Graph.row_label 1 (len video_params))
                       (Graph.cell_label (len video_params))).
      2:{ intros r. unfold Graph.row_label. cbn [Z.gtb Z.compare Pos.compare
            Pos.compare_cont]. f_equal. lia. }
      replace (rows * 1) with rows in * by lia.
      rewrite cell_labels_split by lia.
      rewrite ?app_nil_r, <- ?app_assoc, ?app_assoc. apply Permutation_cons_append.
    - assert (cols = 1) by lia. assert (rows = 1) by lia. subst cols rows.
      cbn [app]. rewrite !app_nil_r. unfold Graph.row_label.
      cbn [Z.gtb Z.compare Pos.compare Pos.compare_cont].
      change (1 * 1) with 1 in *. rewrite <- cell_labels_split by lia.
      reflexivity. }
  split; [exact Hperm|].
  pose proof (Permutation_NoDup (Permutation_sym Hperm)) as Hnd.
  assert (Hd : NoDup (map Graph.node_output
     (Graph.crop_scale_nodes video_params cell_width cell_height ++
      flat_map (Graph.row_nodes cols cell_width cell_height duration (len video_params))
        (range0 rows) ++
      (if rows >? 1
       then [Graph.VStack (map (Graph.row_label cols (len video_params)) (range0 rows))]
       else [])))).
  { eapply Permutation_NoDup; [symmetry; apply emitted_outputs; assumption|].
    apply pads_distinct. }
  specialize (Hnd Hd). inversion Hnd; subst. split; assumption.
Qed.

Lemma filter_flat_map {A B : Type} (p : B -> bool) (g : A -> list B) (l : list A) :
  filter p (flat_map g l) = flat_map (fun x => filter p (g x)) l.
Proof.
  induction l as [|x l IH]; cbn [flat_map]; [reflexivity|].
  now rewrite filter_app, IH.
Qed.

Lemma filter_all {A : Type} (p : A -> bool) (l : list A) :
  (forall x, In x l -> p x = true) -> filter p l = l.
Proof. intros H. apply forallb_filter_id. now apply forallb_forall. Qed.

Lemma emitted_fillers (rows cols cw ch duration : Z)
    (video_params : list Crop.crop_params) (tail : list Graph.node) :
  0 <= rows -> 0 <= cols -> forallb Graph.is_vstack tail = true ->
  filter is_color_fill
    (Graph.crop_scale_nodes video_params cw ch ++
     flat_map (Graph.row_nodes cols cw ch duration (len video_params)) (range0 rows) ++
     tail) =
  map (Graph.ColorFill cw ch duration) (range (len video_params) (rows * cols)).
Proof.
  intros Hr Hc Htail. pose proof (len_nonneg video_params) as Hn0.
  rewrite !filter_app.
  rewrite (filter_none is_color_fill (Graph.crop_scale_nodes _ _ _)).
  2:{ intros n Hn. unfold Graph.crop_scale_nodes in Hn. apply in_map_iff in Hn.
      destruct Hn as ([i p] & <- & _). reflexivity. }
  rewrite (filter_none is_color_fill tail).
  2:{ intros n Hn. rewrite forallb_forall in Htail. apply Htail in Hn.
      now destruct n. }
  cbn [app]. rewrite app_nil_r, filter_flat_map.
  rewrite (flat_map_ext _ (Graph.blacks_of_row cols cw ch duration (len video_params))).
  2:{ intros r. unfold Graph.row_nodes. rewrite filter_app.
      rewrite filter_all.
      2:{ intros n Hn. unfold Graph.blacks_of_row in Hn. apply in_map_iff in Hn.
          destruct Hn as (c & <- & _). reflexivity. }
      destruct (cols >? 1); cbn [filter is_color_fill]; now rewrite app_nil_r. }
  rewrite blacks_of_rows by lia.
  now replace (Z.max 0 (len video_params)) with (len video_params) by lia.
Qed.

Lemma emitted_crops (rows cols cw ch duration : Z)
    (video_params : list Crop.crop_params) (tail : list Graph.node) :
  forallb Graph.is_vstack tail = true ->
  filter is_crop_scale
    (Graph.crop_scale_nodes video_params cw ch ++
     flat_map (Graph.row_nodes cols cw ch duration (len video_params)) (range0 rows) ++
     tail) =
  Graph.crop_scale_nodes video_params cw ch.
Proof.
  intros Htail. rewrite !filter_app. rewrite filter_all.
  2:{ intros n Hn. unfold Graph.crop_scale_nodes in Hn. apply in_map_iff in Hn.
      destruct Hn as ([i p] & <- & _). reflexivity. }
  rewrite <- (app_nil_r (Graph.crop_scale_nodes _ _ _)) at 2. f_equal.
  rewrite (filter_none is_crop_scale tail).
  2:{ intros n Hn. rewrite forallb_forall in Htail. apply Htail in Hn.
      now destruct n. }
  rewrite app_nil_r. apply filter_none. intros n Hn. apply in_flat_map in Hn.
  destruct Hn as (r & _ & Hn). unfold Graph.row_nodes in Hn.
  apply in_app_or in Hn. destruct Hn as [Hn | Hn].
  - unfold Graph.blacks_of_row in Hn. apply in_map_iff in Hn.
    destruct Hn as (c & <- & _). reflexivity.
  - destruct (cols >? 1); [|destruct Hn]. destruct Hn as [<- | []]. reflexivity.
Qed.

Lemma vstack_tail (rows : Z) (l : list string) :
  forallb Graph.is_vstack (if rows >? 1 then [Graph.VStack l] else []) = true.
Proof. destruct (rows >? 1); reflexivity. Qed.

(** *** Counting the emitted nodes by kind *)

Lemma node_kinds_partition (l : list Graph.node) :
  len l = len (filter Graph.is_cell l) + len (filter Graph.is_hstack l) +
          len (filter Graph.is_vstack l).
Proof.
  unfold len. induction l as [|n l IH]; [reflexivity|].
  destruct n; cbn [filter Graph.is_cell Graph.is_hstack Graph.is_vstack length]; lia.
Qed.

Lemma cell_kinds_partition (l : list Graph.node) :
  len (filter Graph.is_cell l) =
  len (filter is_crop_scale l) + len (filter is_color_fill l).
Proof.
  unfold len. induction l as [|n l IH]; [reflexivity|].
  destruct n; cbn [filter Graph.is_cell is_crop_scale is_color_fill length]; lia.
Qed.

Lemma emitted_hstacks (rows cols cw ch duration : Z)
    (video_params : list Crop.crop_params) (tail : list Graph.node) :
  forallb Graph.is_vstack tail = true ->
  filter Graph.is_hstack
    (Graph.crop_scale_nodes video_params cw ch ++
     flat_map (Graph.row_nodes cols cw ch duration (len video_params)) (range0 rows) ++
     tail) =
  if cols >? 1
  then map (fun r => Graph.HStack (Graph.row_videos_of cols (len video_params) r) r)
           (range0 rows)
  else [].
Proof.
  intros Htail. rewrite !filter_app.
  rewrite (filter_none Graph.is_hstack (Graph.crop_scale_nodes _ _ _)).
  2:{ intros n Hn. unfold Graph.crop_scale_nodes in Hn. apply in_map_iff in Hn.
      destruct Hn as ([i p] & <- & _). reflexivity. }
  rewrite (filter_none Graph.is_hstack tail).
  2:{ intros n Hn. rewrite forallb_forall in Htail. apply Htail in Hn.
      now destruct n. }
  cbn [app]. rewrite app_nil_r, filter_flat_map.
  rewrite (flat_map_ext _ (fun r =>
             if cols >? 1
             then [Graph.HStack (Graph.row_videos_of cols (len video_params) r) r]
             else [])).
  2:{ intros r. unfold Graph.row_nodes. rewrite filter_app.
      rewrite filter_none.
      2:{ intros n Hn. unfold Graph.blacks_of_row in Hn. apply in_map_iff in Hn.
          destruct Hn as (c & <- & _). reflexivity. }
      destruct (cols >? 1); reflexivity. }
  destruct (cols >? 1); [apply flat_map_singleton | now apply flat_map_nil].
Qed.

Lemma emitted_vstacks (rows cols cw ch duration : Z)
    (video_params : list Crop.crop_params) (tail : list Graph.node) :
  forallb Graph.is_vstack tail = true ->
  filter Graph.is_vstack
    (Graph.crop_scale_nodes video_params cw ch ++
     flat_map (Graph.row_nodes cols cw ch duration (len video_params)) (range0 rows) ++
     tail) = tail.
Proof.
  intros Htail.
  pose proof (no_vstack_in_cells_and_rows cols cw ch duration video_params (range0 rows))
    as Hnone.
  rewrite app_assoc, filter_app. rewrite filter_none.
  - cbn [app]. now apply forallb_filter_id.
  - intros n Hn. rewrite forallb_forall in Hnone. apply Hnone in Hn.
    now destruct (Graph.is_vstack n).
Qed.

(** What the assembly emits for [rows >= 1] and [cols >= 1], counted by
    kind. *)
Lemma build_filter_graph_counts (rows cols cw ch duration : Z)
    (video_params : list Crop.crop_params) :
  1 <= rows -> 1 <= cols ->
  exists nodes output_map,
    Graph.build_filter_graph rows cols cw ch duration video_params =
      Ok (nodes, output_map) /\
    nodes =
      Graph.crop_scale_nodes video_params cw ch ++
      flat_map (Graph.row_nodes cols cw ch duration (len video_params)) (range0 rows) ++
      (if rows >? 1
       then [Graph.VStack (map (Graph.row_label cols (len video_params)) (range0 rows))]
       else []) /\
    Graph.topological nodes /\
    len (filter is_crop_scale nodes) = len video_params /\
    len (filter is_color_fill nodes) = Z.max 0 (rows * cols - len video_params) /\
    len (filter Graph.is_cell nodes) = Z.max (len video_params) (rows * cols) /\
    len (filter Graph.is_hstack nodes) = (if cols >? 1 then rows else 0) /\
    len (filter Graph.is_vstack nodes) = (if rows >? 1 then 1 else 0) /\
    len nodes = Z.max (len video_params) (rows * cols) +
                (if cols >? 1 then rows else 0) + (if rows >? 1 then 1 else 0).
Proof.
  intros Hr Hc. rewrite build_filter_graph_closed by assumption.
  eexists _, _. split; [reflexivity|]. split; [reflexivity|].
  match goal with |- Graph.topological ?l /\ _ => set (nodes := l) end.
  pose proof (len_nonneg video_params) as Hn0.
  assert (Hcrops : len (filter is_crop_scale nodes) = len video_params).
  { subst nodes. rewrite emitted_crops by apply vstack_tail.
    apply length_crop_scale_nodes. }
  assert (Hfills : len (filter is_color_fill nodes) =
                   Z.max 0 (rows * cols - len video_params)).
  { subst nodes. rewrite emitted_fillers by (try apply vstack_tail; lia).
    unfold len, range. rewrite !length_map, length_seq. lia. }
  assert (Hcells : len (filter Graph.is_cell nodes) =
                   Z.max (len video_params) (rows * cols)).
  { rewrite cell_kinds_partition, Hcrops, Hfills. lia. }
  assert (Hh : len (filter Graph.is_hstack nodes) = (if cols >? 1 then rows else 0)).
  { subst nodes. rewrite emitted_hstacks by apply vstack_tail.
    destruct (cols >? 1); [|reflexivity].
    unfold len. rewrite length_map. fold (len (range0 rows)).
    unfold range0. rewrite length_range; lia. }
  assert (Hv : len (filter Graph.is_vstack nodes) = (if rows >? 1 then 1 else 0)).
  { subst nodes. rewrite emitted_vstacks by apply vstack_tail.
    destruct (rows >? 1); reflexivity. }
  split; [apply ordered_topological; now apply emitted_sequence_ordered|].
  repeat (split; [assumption|]).
  rewrite (node_kinds_partition nodes), Hcells, Hh, Hv. reflexivity.
Qed.

(** C5, as the code has it: for a layout with [rows >= 1] and [cols >= 1]
    and any selection, the assembly emits one crop-and-scale node per clip,
    then row by row the black fillers of the row followed by its horizontal
    stack (when [cols > 1]), then the vertical stack (when [rows > 1]); no
    node reads a pad written at a later position.  There are as many
    crop-and-scale nodes as clips and one filler per cell left over, hence
    [rows * cols] cell nodes when the clips do not exceed the cells, [rows]
    row stacks when [cols > 1] (none otherwise) and one final stack when
    [rows > 1] (none otherwise).  When the clips fill the grid there is no
    filler and the order is cell nodes, row stacks, final stack.  The first
    generator cuts the file list to the grid size, so it always emits
    [rows * cols] cell nodes. *)
Theorem compiled_graph_well_formed (rows cols cell_width cell_height duration : Z)
    (video_params : list Crop.crop_params) :
  1 <= rows -> 1 <= cols ->
  (exists nodes output_map,
     Graph.build_filter_graph rows cols cell_width cell_height duration video_params =
       Ok (nodes, output_map) /\
     nodes =
       Graph.crop_scale_nodes video_params cell_width cell_height ++
       flat_map (Graph.row_nodes cols cell_width cell_height duration (len video_params))
                (range0 rows) ++
       (if rows >? 1
        then [Graph.VStack (map (Graph.row_label cols (len video_params)) (range0 rows))]
        else []) /\
     Graph.topological nodes /\
     len (filter is_crop_scale nodes) = len video_params /\
     len (filter is_color_fill nodes) = Z.max 0 (rows * cols - len video_params) /\
     len (filter Graph.is_cell nodes) = Z.max (len video_params) (rows * cols) /\
     len (filter Graph.is_hstack nodes) = (if cols >? 1 then rows else 0) /\
     len (filter Graph.is_vstack nodes) = (if rows >? 1 then 1 else 0) /\
     len nodes = Z.max (len video_params) (rows * cols) +
                 (if cols >? 1 then rows else 0) + (if rows >? 1 then 1 else 0) /\
     (len video_params = rows * cols ->
      Graph.well_formed_grid_graph rows cols (Ok (nodes, output_map)))) /\
  forall (video_files : list string) (params : Crop.crop_params),
    exists nodes output_map,
      Graph.build_filter_graph_v1 rows cols cell_width cell_height duration
                                  video_files params = Ok (nodes, output_map) /\
      Graph.topological nodes /\
      len (filter is_crop_scale nodes) = Z.min (len video_files) (rows * cols) /\
      len (filter is_color_fill nodes) = Z.max 0 (rows * cols - len video_files) /\
      len (filter Graph.is_cell nodes) = rows * cols /\
      len (filter Graph.is_hstack nodes) = (if cols >? 1 then rows else 0) /\
      len (filter Graph.is_vstack nodes) = (if rows >? 1 then 1 else 0) /\
      len nodes = rows * cols + (if cols >? 1 then rows else 0) +
                  (if rows >? 1 then 1 else 0) /\
      (rows * cols <= len video_files ->
       Graph.well_formed_grid_graph rows cols (Ok (nodes, output_map))).
Proof.
  intros Hr Hc. split.
  - destruct (build_filter_graph_counts rows cols cell_width cell_height duration
                video_params Hr Hc)
      as (nodes & output_map & Hrun & Hnodes & Htop & Hcrops & Hfills & Hcells & Hh & Hv
          & Hall).
    exists nodes, output_map. repeat (split; [assumption|]).
    intros Hfull. rewrite <- Hrun. now apply build_filter_graph_full.
  - intros video_files params. unfold Graph.build_filter_graph_v1.
    set (used := map (fun _ => params) (slice_to video_files (rows * cols))).
    assert (Hused : len used = Z.min (len video_files) (rows * cols)).
    { subst used. unfold len. rewrite length_map, slice_to_nonneg by nia.
      rewrite length_firstn. nia. }
    destruct (build_filter_graph_counts rows cols cell_width cell_height duration
                used Hr Hc)
      as (nodes & output_map & Hrun & Hnodes & Htop & Hcrops & Hfills & Hcells & Hh & Hv
          & Hall).
    exists nodes, output_map. rewrite Hused in *.
    split; [exact Hrun|]. split; [exact Htop|]. split; [exact Hcrops|].
    split; [lia|]. split; [lia|]. split; [exact Hh|]. split; [exact Hv|].
    split; [lia|].
    intros Hfull. rewrite <- Hrun. apply build_filter_graph_full; try assumption.
    lia.
Qed.

Lemma compiled_graph_well_formed_witness :
  exists nodes output_map,
    Graph.build_filter_graph 2 3 640 540 30
      (map (fun _ => Crop.get_video_crop_params (Crop.mkStream 1920 1080 (30, 1)) "center")
           (range0 5)) = Ok (nodes, output_map) /\
    Graph.topological nodes /\
    len (filter is_crop_scale nodes) = 5 /\
    len (filter is_color_fill nodes) = 1 /\
    len (filter Graph.is_cell nodes) = 2 * 3 /\
    len nodes = 2 * 3 + 2 + 1.
Proof.
  destruct (compiled_graph_well_formed 2 3 640 540 30
              (map (fun _ => Crop.get_video_crop_params (Crop.mkStream 1920 1080 (30, 1))
                               "center") (range0 5)))
    as [(nodes & output_map & Hrun & _ & Htop & Hcrops & Hfills & Hcells & _ & _ & Hall & _)
        _]; [lia | lia |].
  exists nodes, output_map. repeat split; assumption.
Defined.

(** Five files get a 2x3 grid from the layout search; the filler of the last
    cell is emitted inside the loop over the second row, after the stack of
    the first row, so the nodes do not come as cell nodes, then row nodes,
    then the final node. *)
Lemma compiled_graph_filler_after_row_stack :
  let p := Crop.get_video_crop_params (Crop.mkStream 1920 1080 (30, 1)) "center" in
  let files := ["a.mp4"; "b.mp4"; "c.mp4"; "d.mp4"; "e.mp4"]%string in
  Layout.calculate_optimal_grid 5 1920 1080 = Ok (Some (2, 3, 640, 540)) /\
  Graph.build_filter_graph_v1 2 3 640 540 30 files p =
    Ok ([Graph.CropScale 0 p 640 540; Graph.CropScale 1 p 640 540;
         Graph.CropScale 2 p 640 540; Graph.CropScale 3 p 640 540;
         Graph.CropScale 4 p 640 540;
         Graph.HStack [Graph.label "v" 0; Graph.label "v" 1; Graph.label "v" 2] 0;
         Graph.ColorFill 640 540 30 5;
         Graph.HStack [Graph.label "v" 3; Graph.label "v" 4; Graph.label "black" 5] 1;
         Graph.VStack [Graph.label "row" 0; Graph.label "row" 1]],
        Graph.final) /\
  ~ Graph.well_formed_grid_graph 2 3 (Graph.build_filter_graph_v1 2 3 640 540 30 files p).
Proof.
  intros p files.
  assert (Hrun : Graph.build_filter_graph_v1 2 3 640 540 30 files p =
    Ok ([Graph.CropScale 0 p 640 540; Graph.CropScale 1 p 640 540;
         Graph.CropScale 2 p 640 540; Graph.CropScale 3 p 640 540;
         Graph.CropScale 4 p 640 540;
         Graph.HStack [Graph.label "v" 0; Graph.label "v" 1; Graph.label "v" 2] 0;
         Graph.ColorFill 640 540 30 5;
         Graph.HStack [Graph.label "v" 3; Graph.label "v" 4; Graph.label "black" 5] 1;
         Graph.VStack [Graph.label "row" 0; Graph.label "row" 1]],
        Graph.final)) by (vm_compute; reflexivity).
  split; [vm_compute; reflexivity|]. split; [exact Hrun|].
  rewrite Hrun.
  intros (cells & stacks & finals & om & Heq & Hcells & _ & _ & Hlen & _).
  injection Heq as Hnodes _.
  destruct cells as [|c0 [|c1 [|c2 [|c3 [|c4 [|c5 [|c6 rest]]]]]]];
    try (vm_compute in Hlen; discriminate).
  - cbn [app] in Hnodes. injection Hnodes as E0 E1 E2 E3 E4 E5 _. subst.
    cbn in Hcells. discriminate.
  - unfold len in Hlen. cbn [length] in Hlen. lia.
Qed.

(** X2: for a layout with [rows >= 1] and [cols >= 1] and any number of
    clips, the assembly emits one crop-and-scale node per clip and one black
    filler for each cell index from the number of clips up to [rows * cols],
    in increasing order: [max 0 (rows * cols - clips)] fillers, none when the
    clips fill the grid. *)
Theorem fillers_complete_the_grid (rows cols cell_width cell_height duration : Z)
    (video_params : list Crop.crop_params) :
  1 <= rows -> 1 <= cols ->
  exists nodes output_map,
    Graph.build_filter_graph rows cols cell_width cell_height duration video_params =
      Ok (nodes, output_map) /\
    filter is_crop_scale nodes =
      Graph.crop_scale_nodes video_params cell_width cell_height /\
    filter is_color_fill nodes =
      map (Graph.ColorFill cell_width cell_height duration)
          (range (len video_params) (rows * cols)) /\
    len (filter is_color_fill nodes) = Z.max 0 (rows * cols - len video_params).
Proof.
  intros Hr Hc. rewrite build_filter_graph_closed by assumption.
  eexists _, _. split; [reflexivity|].
  rewrite emitted_crops, emitted_fillers by (try apply vstack_tail; lia).
  split; [reflexivity|]. split; [reflexivity|].
  unfold len, range. rewrite !length_map, length_seq. lia.
Qed.

(** X1: for a layout with [rows >= 1] and [cols >= 1] the assembly returns
    for any number of clips, fewer or more than the cells; no emitted node
    reads a pad written at a later position, and the output pad is written by
    an emitted node. *)
Theorem any_selection_is_ordered (rows cols cell_width cell_height duration : Z)
    (video_params : list Crop.crop_params) :
  1 <= rows -> 1 <= cols ->
  exists nodes output_map,
    Graph.build_filter_graph rows cols cell_width cell_height duration video_params =
      Ok (nodes, output_map) /\
    Graph.topological nodes /\
    In output_map (map Graph.node_output nodes).
Proof.
  intros Hr Hc. rewrite build_filter_graph_closed by assumption.
  eexists _, _. split; [reflexivity|]. split.
  - apply ordered_topological. now apply emitted_sequence_ordered.
  - rewrite !map_app. destruct (Z.gtb_spec rows 1) as [Hmany | Hone].
    + apply in_or_app. right. apply in_or_app. right. now left.
    + rewrite app_nil_r.
      assert (H0 : In 0 (range0 rows)) by (apply in_range; lia).
      pose proof (row_label_written cols cell_width cell_height duration video_params
                    (range0 rows) 0 Hc (Z.le_refl 0) H0) as Hw.
      apply in_app_or in Hw. apply in_or_app. tauto.
Qed.

(** X5: with [rows <= 0], or with [cols <= 0], the assembly raises
    [IndexError] (from [rows_inputs[0]] or [row_videos[0]]) whatever the
    clips are; nothing checks the layout before. *)
Theorem empty_grid_raises (rows cols cell_width cell_height duration : Z)
    (video_params : list Crop.crop_params) :
  rows <= 0 \/ cols <= 0 ->
  Graph.build_filter_graph rows cols cell_width cell_height duration video_params =
    Raise IndexError.
Proof.
  intros Hbad. unfold Graph.build_filter_graph.
  destruct (Z.le_gt_cases rows 0) as [Hr | Hr].
  - unfold range0. rewrite range_nil by lia. reflexivity.
  - assert (Hc : cols <= 0) by lia.
    unfold range0. rewrite (range_split 0 1 rows) by lia.
    change (range 0 1) with [0]. cbn [app for_each].
    unfold Graph.row_step at 1. unfold range0. rewrite (range_nil 0 cols) by lia.
    reflexivity.
Qed.

Lemma any_selection_is_ordered_witness :
  exists nodes output_map,
    Graph.build_filter_graph 2 2 960 540 30
      (map (fun _ => Crop.get_video_crop_params (Crop.mkStream 1920 1080 (30, 1)) "center")
           (range0 3)) = Ok (nodes, output_map) /\
    Graph.topological nodes /\ In output_map (map Graph.node_output nodes).
Proof. apply (any_selection_is_ordered 2 2 960 540 30); lia. Defined.

Lemma fillers_complete_the_grid_witness :
  exists nodes output_map,
    Graph.build_filter_graph 2 2 960 540 30
      (map (fun _ => Crop.get_video_crop_params (Crop.mkStream 1920 1080 (30, 1)) "center")
           (range0 3)) = Ok (nodes, output_map) /\
    filter is_color_fill nodes = [Graph.ColorFill 960 540 30 3].
Proof.
  destruct (fillers_complete_the_grid 2 2 960 540 30
              (map (fun _ => Crop.get_video_crop_params (Crop.mkStream 1920 1080 (30, 1))
                               "center") (range0 3)))
    as (nodes & output_map & Hrun & _ & Hfill & _); [lia | lia |].
  exists nodes, output_map. split; [exact Hrun | exact Hfill].
Defined.

Lemma pad_names_are_distinct_witness :
  exists nodes output_map,
    Graph.build_filter_graph 2 3 640 540 30
      (map (fun _ => Crop.get_video_crop_params (Crop.mkStream 1920 1080 (30, 1)) "center")
           (range0 8)) = Ok (nodes, output_map) /\
    NoDup (map Graph.node_output nodes).
Proof. apply (pad_names_are_distinct 2 3 640 540 30); lia. Defined.

Lemma every_pad_is_read_once_witness :
  exists nodes output_map,
    Graph.build_filter_graph 2 3 640 540 30
      (map (fun _ => Crop.get_video_crop_params (Crop.mkStream 1920 1080 (30, 1)) "center")
           (range0 5)) = Ok (nodes, output_map) /\
    Permutation (output_map :: flat_map Graph.node_inputs nodes)
                (map Graph.node_output nodes) /\
    NoDup (flat_map Graph.node_inputs nodes) /\
    ~ In output_map (flat_map Graph.node_inputs nodes).
Proof.
  apply (every_pad_is_read_once 2 3 640 540 30); [lia | lia | vm_compute; discriminate].
Defined.

Lemma empty_grid_raises_witness :
  Graph.build_filter_graph (-2) (-3) (-640) (-540) 30
    (map (fun _ => Crop.get_video_crop_params (Crop.mkStream 1920 1080 (30, 1)) "center")
         (range0 6)) = Raise IndexError.
Proof. apply (empty_grid_raises (-2) (-3)). left. lia. Defined.

(** ** Discovery *)

Lemma append_to_keys (tv : Sampler.task_map) (k p : string) (x : string) :
  In x (map fst (Discovery.append_to tv k p)) <-> In x (map fst tv) \/ x = k.
Proof.
  induction tv as [|[t vs] tv IH]; cbn [Discovery.append_to map In fst].
  - intuition congruence.
  - destruct (String.eqb_spec t k) as [-> | Hne]; cbn [map In fst].
    + intuition congruence.
    + rewrite IH. tauto.
Qed.

Lemma append_to_nodup (tv : Sampler.task_map) (k p : string) :
  NoDup (map fst tv) -> NoDup (map fst (Discovery.append_to tv k p)).
Proof.
  induction tv as [|[t vs] tv IH]; cbn [Discovery.append_to map fst]; intros Hnd.
  - repeat constructor. intros [].
  - inversion Hnd as [|? ? Hnotin Hnd']; subst.
    destruct (String.eqb_spec t k) as [-> | Hne]; cbn [map fst].
    + now constructor.
    + constructor; [|now apply IH].
      rewrite append_to_keys. intros [H | H]; [contradiction | congruence].
Qed.

Lemma append_to_groups (P : string * list string -> Prop) (tv : Sampler.task_map)
    (k p : string) :
  (forall vs, P (k, vs ++ [p])) -> P (k, [p]) ->
  Forall P tv -> Forall P (Discovery.append_to tv k p).
Proof.
  intros Hext Hnew. induction tv as [|[t vs] tv IH]; cbn [Discovery.append_to]; intros Hall.
  - repeat constructor. exact Hnew.
  - inversion Hall as [|? ? Hhd Htl]; subst.
    destruct (String.eqb_spec t k) as [-> | Hne].
    + constructor; [apply Hext | exact Htl].
    + constructor; [exact Hhd | now apply IH].
Qed.

Lemma append_to_tagged (tv : Sampler.task_map) (k p : string) :
  Permutation (Sampler.tag_all (Discovery.append_to tv k p))
              (Sampler.tag_all tv ++ [(p, k)]).
Proof.
  unfold Sampler.tag_all.
  induction tv as [|[t vs] tv IH]; cbn [Discovery.append_to flat_map].
  - reflexivity.
  - destruct (String.eqb_spec t k) as [-> | Hne]; cbn [flat_map].
    + rewrite map_app. cbn [map]. rewrite <- !app_assoc.
      apply Permutation_app_head. apply Permutation_app_comm.
    + rewrite IH. now rewrite app_assoc.
Qed.

Section DiscoveryFacts.

Variable basename : string -> string.
Variable join : string -> string -> string.
Variable lower : string -> string.

Local Abbreviation is_mp4 := (Discovery.is_mp4 lower).
Local Abbreviation visit_file := (Discovery.visit_file join lower).
Local Abbreviation visit_folder := (Discovery.visit_folder basename join lower).
Local Abbreviation is_task_folder := (Discovery.is_task_folder basename).

(** What a folder contributes: its clips, tagged with the folder's name. *)
Local Abbreviation tagged_files root folder_name files :=
  (map (fun file => (join root file, folder_name)) (filter is_mp4 files)).

Lemma visit_files_tagged (root k : string) (files : list string) (tv : Sampler.task_map) :
  Permutation (Sampler.tag_all (fold_left (visit_file root k) files tv))
              (Sampler.tag_all tv ++ tagged_files root k files).
Proof.
  revert tv. induction files as [|f files IH]; intros tv; cbn [fold_left filter map].
  - now rewrite app_nil_r.
  - rewrite IH. unfold Discovery.visit_file.
    destruct (is_mp4 f); cbn [map]; [|reflexivity].
    rewrite append_to_tagged, <- app_assoc. reflexivity.
Qed.

Lemma visit_files_groups (top root k : string) (files : list string) (tv : Sampler.task_map) :
  k <> ""%string -> k <> top ->
  NoDup (map fst tv) /\ Forall (group_ok top) tv ->
  NoDup (map fst (fold_left (visit_file root k) files tv)) /\
  Forall (group_ok top) (fold_left (visit_file root k) files tv).
Proof.
  intros Hk Htop. revert tv.
  induction files as [|f files IH]; intros tv Hinv; cbn [fold_left]; [exact Hinv|].
  apply IH. unfold Discovery.visit_file. destruct (is_mp4 f); [|exact Hinv].
  destruct Hinv as [Hnd Hall]. split; [now apply append_to_nodup|].
  apply append_to_groups; [| |exact Hall]; unfold group_ok; cbn [fst snd].
  - intros vs. split; [|now split]. destruct vs; discriminate.
  - split; [discriminate | now split].
Qed.

Lemma is_task_folder_spec (directory root : string) (dirs files : list string) :
  is_task_folder directory (root, dirs, files) = true <->
  basename root <> ""%string /\ basename root <> basename directory.
Proof.
  unfold Discovery.is_task_folder.
  destruct (String.eqb_spec (basename root) ""), (String.eqb_spec (basename root)
    (basename directory)); cbn [negb andb]; intuition congruence.
Qed.

Lemma walk_groups (directory : string) (walk : list Discovery.walk_entry)
    (tv : Sampler.task_map) :
  NoDup (map fst tv) /\ Forall (group_ok (basename directory)) tv ->
  NoDup (map fst (fold_left (visit_folder directory) walk tv)) /\
  Forall (group_ok (basename directory)) (fold_left (visit_folder directory) walk tv).
Proof.
  revert tv. induction walk as [|[[root dirs] files] walk IH]; intros tv Hinv;
    cbn [fold_left]; [exact Hinv|].
  apply IH. unfold Discovery.visit_folder.
  destruct (is_task_folder directory (root, dirs, files)) eqn:E; [|exact Hinv].
  apply is_task_folder_spec in E. destruct E as [Hk Htop].
  now apply visit_files_groups.
Qed.

Lemma walk_tagged (directory : string) (walk : list Discovery.walk_entry)
    (tv : Sampler.task_map) :
  Permutation (Sampler.tag_all (fold_left (visit_folder directory) walk tv))
    (Sampler.tag_all tv ++
     flat_map (fun '(root, _, files) => tagged_files root (basename root) files)
              (filter (is_task_folder directory) walk)).
Proof.
  revert tv. induction walk as [|[[root dirs] files] walk IH]; intros tv;
    cbn [fold_left filter flat_map].
  - now rewrite app_nil_r.
  - rewrite IH. unfold Discovery.visit_folder.
    destruct (is_task_folder directory (root, dirs, files)); cbn [flat_map]; [|reflexivity].
    rewrite visit_files_tagged, <- app_assoc. reflexivity.
Qed.

Lemma tag_all_nonempty (top : string) (tv : Sampler.task_map) :
  Forall (group_ok top) tv -> tv <> [] -> Sampler.tag_all tv <> [].
Proof.
  intros Hall Hne. destruct tv as [|[k vs] tv]; [congruence|].
  inversion Hall as [|? ? [Hvs _] _]; subst. cbn [snd] in Hvs.
  unfold Sampler.tag_all. cbn [flat_map]. destruct vs; [congruence | discriminate].
Qed.

(** X6: whatever listing [os.walk] yields, the groups that
    [find_mp4_files_by_task] returns have pairwise different names, none of
    them empty or equal to the base name of the directory searched, and no
    group is empty; their videos are, up to order, the files that
    [find_mp4_files] finds in the folders with such a name, so files lying
    directly in the directory searched are left out; every video is tagged
    with the base name of the folder it lies in; and a non-empty result
    supplies at least one clip. *)
Theorem discovery_groups_by_folder (walk : list Discovery.walk_entry) (directory : string) :
  let task_videos :=
    Discovery.find_mp4_files_by_task basename join lower walk directory in
  NoDup (map fst task_videos) /\
  (forall task_name videos, In (task_name, videos) task_videos ->
     videos <> [] /\ task_name <> ""%string /\ task_name <> basename directory) /\
  Permutation (map fst (Sampler.tag_all task_videos))
    (Discovery.find_mp4_files join lower (filter (is_task_folder directory) walk)) /\
  (forall video task_name, In (video, task_name) (Sampler.tag_all task_videos) ->
     exists root dirs files file,
       In (root, dirs, files) walk /\ task_name = basename root /\
       In file files /\ is_mp4 file = true /\ video = join root file) /\
  (task_videos <> [] -> Sampler.tag_all task_videos <> []).
Proof.
  intros task_videos. subst task_videos. unfold Discovery.find_mp4_files_by_task.
  destruct (walk_groups directory walk []) as [Hnd Hall];
    [split; constructor|].
  pose proof (walk_tagged directory walk []) as Hperm. cbn [Sampler.tag_all flat_map app] in Hperm.
  change (flat_map _ (@nil (string * list string))) with (@nil Sampler.clip) in Hperm.
  cbn [app] in Hperm.
  split; [exact Hnd|]. split; [|split; [|split]].
  - intros t vs Hin. rewrite Forall_forall in Hall. apply (Hall (t, vs) Hin).
  - rewrite Hperm. rewrite map_flat_map. unfold Discovery.find_mp4_files.
    apply Permutation_refl'. apply flat_map_ext. intros [[root dirs] files].
    rewrite map_map. reflexivity.
  - intros video t Hin. apply (Permutation_in _ Hperm) in Hin.
    apply in_flat_map in Hin. destruct Hin as ([[root dirs] files] & Hentry & Hin).
    apply filter_In in Hentry. destruct Hentry as [Hentry _].
    apply in_map_iff in Hin. destruct Hin as (file & Heq & Hfile).
    apply filter_In in Hfile. destruct Hfile as [Hfile Hmp4].
    injection Heq as <- <-. now exists root, dirs, files, file.
  - now apply tag_all_nonempty with (top := basename directory).
Qed.

End DiscoveryFacts.

(** ** Slot sampling, continued *)

Section SamplerRuns.

Variable RNG : Type.
Variable choices : list Sampler.clip -> Z -> RNG -> result (list Sampler.clip * RNG).
Variable shuffle : list Sampler.clip -> RNG -> list Sampler.clip * RNG.
Hypothesis Hchoices : Sampler.choices_contract RNG choices.
Hypothesis Hshuffle : Sampler.shuffle_contract RNG shuffle.

Local Abbreviation select := (Sampler.create_balanced_video_list RNG choices shuffle).

(** Every run that returns went through the same steps. *)
Lemma select_run_shape (task_videos : Sampler.task_map) (rows cols : Z)
    (max_videos : option Z) (shuffle_on : bool) (g g' : RNG) (plan : list string) :
  select task_videos (rows, cols) max_videos shuffle_on g = Ok (plan, g') ->
  exists extras extended,
    incl extras (Sampler.limit max_videos (Sampler.tag_all task_videos)) /\
    len extras =
      Z.max 0 (rows * cols - len (Sampler.limit max_videos (Sampler.tag_all task_videos))) /\
    Permutation (Sampler.limit max_videos (Sampler.tag_all task_videos) ++ extras) extended /\
    plan = map fst (slice_to extended (rows * cols)).
Proof.
  unfold Sampler.create_balanced_video_list.
  set (capped := Sampler.limit max_videos (Sampler.tag_all task_videos)).
  set (slots := rows * cols).
  pose proof (len_nonneg capped) as Hc0.
  intros Hrun.
  assert (Hfill : exists extras g1,
    (if len capped <? slots then
       '(additional_videos, g') <- choices capped (slots - len capped) g ;;
       Ok (capped ++ additional_videos, g')
     else Ok (capped, g)) = Ok (capped ++ extras, g1) /\
    len extras = Z.max 0 (slots - len capped) /\ incl extras capped).
  { destruct (Z.ltb_spec (len capped) slots) as [Hshort | Henough].
    - destruct capped as [|c capped'] eqn:Ecap.
      + rewrite (proj2 Hchoices) in Hrun by (cbn in *; lia). discriminate.
      + destruct (proj1 Hchoices (c :: capped') (slots - len (c :: capped')) g
                    ltac:(discriminate) ltac:(lia)) as (l & g1 & Hl & Hlen & Hincl).
        exists l, g1. rewrite Hl. cbn [bind]. repeat split; [lia | exact Hincl].
    - exists [], g. rewrite app_nil_r. repeat split; [cbn; lia | intros x []]. }
  destruct Hfill as (extras & g1 & Hfill & Hlen & Hincl).
  rewrite Hfill in Hrun. cbn [bind] in Hrun.
  exists extras, (fst (if shuffle_on then shuffle (capped ++ extras) g1
                       else (capped ++ extras, g1))).
  split; [exact Hincl|]. split; [exact Hlen|]. split.
  - destruct shuffle_on; [apply Hshuffle | reflexivity].
  - destruct (if shuffle_on then shuffle (capped ++ extras) g1 else (capped ++ extras, g1))
      as [sh g2]. cbn [fst]. now injection Hrun as <- _.
Qed.

End SamplerRuns.

Lemma incl_slice_to {A : Type} (l : list A) (k : Z) : incl (slice_to l k) l.
Proof. unfold slice_to. destruct (0 <=? k); apply incl_firstn. Qed.

Lemma incl_limit (max_videos : option Z) (l : list Sampler.clip) :
  incl (Sampler.limit max_videos l) l.
Proof.
  unfold Sampler.limit. destruct max_videos as [m|]; [|apply incl_refl].
  destruct (negb (m =? 0) && (len l >? m)); [apply incl_slice_to | apply incl_refl].
Qed.

Lemma in_tag_all (task_videos : Sampler.task_map) (video task_name : string) :
  In (video, task_name) (Sampler.tag_all task_videos) <->
  exists videos, In (task_name, videos) task_videos /\ In video videos.
Proof.
  unfold Sampler.tag_all. rewrite in_flat_map. split.
  - intros ([t vs] & Hin & Hv). apply in_map_iff in Hv.
    destruct Hv as (v & Heq & Hv). injection Heq as -> ->. now exists vs.
  - intros (vs & Hin & Hv). exists (task_name, vs). split; [exact Hin|].
    now apply (in_map (fun v => (v, task_name))).
Qed.

Lemma task_of_found (task_videos : Sampler.task_map) (video task_name : string)
    (videos : list string) :
  In (task_name, videos) task_videos -> In video videos ->
  exists task_name' videos',
    Driver.task_of task_videos video = Some task_name' /\
    In (task_name', videos') task_videos /\ In video videos'.
Proof.
  intros Hin Hv. unfold Driver.task_of.
  destruct (find _ task_videos) as [[t vs]|] eqn:E.
  - apply find_some in E. destruct E as [Ht Hex].
    apply existsb_exists in Hex. destruct Hex as (v & Hv' & Heq).
    apply String.eqb_eq in Heq. subst v. now exists t, vs.
  - apply (find_none _ _ E) in Hin. cbn in Hin.
    assert (Hex : existsb (String.eqb video) videos = true).
    { apply existsb_exists. exists video. split; [exact Hv | apply String.eqb_refl]. }
    congruence.
Qed.

Section SamplerRunFacts.

Variable RNG : Type.
Variable choices : list Sampler.clip -> Z -> RNG -> result (list Sampler.clip * RNG).
Variable shuffle : list Sampler.clip -> RNG -> list Sampler.clip * RNG.

Local Abbreviation select := (Sampler.create_balanced_video_list RNG choices shuffle).

(** X7: when the library calls keep their contracts, every video of a plan
    the sampler returns is one of the videos left after the cap, and the
    driver's lookup of its task finds a task that lists it: the task name
    printed beside a selected video is never [None]. *)
Theorem selected_videos_are_discovered (task_videos : Sampler.task_map) (rows cols : Z)
    (max_videos : option Z) (shuffle_on : bool) (g g' : RNG) (plan : list string) :
  Sampler.choices_contract RNG choices ->
  Sampler.shuffle_contract RNG shuffle ->
  select task_videos (rows, cols) max_videos shuffle_on g = Ok (plan, g') ->
  incl plan (map fst (Sampler.limit max_videos (Sampler.tag_all task_videos))) /\
  forall video, In video plan ->
    exists task_name videos,
      Driver.task_of task_videos video = Some task_name /\
      In (task_name, videos) task_videos /\ In video videos.
Proof.
  intros Hc Hs Hrun.
  destruct (select_run_shape RNG choices shuffle Hc Hs _ _ _ _ _ _ _ _ Hrun)
    as (extras & extended & Hincl & _ & Hperm & ->).
  assert (Hsub : incl (map fst (slice_to extended (rows * cols)))
                      (map fst (Sampler.limit max_videos (Sampler.tag_all task_videos)))).
  { apply incl_map. intros x Hx. apply incl_slice_to in Hx.
    apply (Permutation_in _ (Permutation_sym Hperm)) in Hx.
    apply in_app_or in Hx. destruct Hx as [Hx | Hx]; [exact Hx | now apply Hincl]. }
  split; [exact Hsub|].
  intros video Hv. apply Hsub in Hv. apply in_map_iff in Hv.
  destruct Hv as ([v t] & Heq & Hv). cbn [fst] in Heq. subst v.
  apply incl_limit in Hv. apply in_tag_all in Hv. destruct Hv as (vs & Hin & Hv).
  now apply (task_of_found task_videos video t vs).
Qed.

(** X8: when the library calls keep their contracts and the clips left
    after the cap are at most [rows * cols], the plan has exactly
    [rows * cols] entries and is, up to order, these clips followed by
    [rows * cols - supply] further ones drawn from them: every clip is shown
    at least once. *)
Theorem short_supply_shows_every_clip (task_videos : Sampler.task_map) (rows cols : Z)
    (max_videos : option Z) (shuffle_on : bool) (g g' : RNG) (plan : list string) :
  Sampler.choices_contract RNG choices ->
  Sampler.shuffle_contract RNG shuffle ->
  select task_videos (rows, cols) max_videos shuffle_on g = Ok (plan, g') ->
  len (Sampler.limit max_videos (Sampler.tag_all task_videos)) <= rows * cols ->
  len plan = rows * cols /\
  incl (map fst (Sampler.limit max_videos (Sampler.tag_all task_videos))) plan /\
  exists extras,
    incl extras (Sampler.limit max_videos (Sampler.tag_all task_videos)) /\
    len extras = rows * cols - len (Sampler.limit max_videos (Sampler.tag_all task_videos)) /\
    Permutation
      (map fst (Sampler.limit max_videos (Sampler.tag_all task_videos)) ++ map fst extras)
      plan.
Proof.
  intros Hc Hs Hrun Hshort.
  destruct (select_run_shape RNG choices shuffle Hc Hs _ _ _ _ _ _ _ _ Hrun)
    as (extras & extended & Hincl & Hlen & Hperm & ->).
  set (capped := Sampler.limit max_videos (Sampler.tag_all task_videos)) in *.
  pose proof (len_nonneg capped) as Hc0.
  assert (Hext : len extended = rows * cols).
  { unfold len in *. rewrite <- (Permutation_length Hperm), length_app. lia. }
  assert (Hall : slice_to extended (rows * cols) = extended).
  { rewrite slice_to_nonneg by lia. apply firstn_all2. unfold len in Hext. lia. }
  rewrite Hall.
  assert (Hp : Permutation (map fst capped ++ map fst extras) (map fst extended)).
  { rewrite <- map_app. now apply Permutation_map. }
  split; [|split].
  - unfold len in *. rewrite length_map. exact Hext.
  - intros x Hx. apply (Permutation_in _ Hp). apply in_or_app. now left.
  - exists extras. split; [exact Hincl|]. split; [lia | exact Hp].
Qed.

End SamplerRunFacts.

Lemma selected_videos_are_discovered_witness :
  incl ["b.mp4"; "a.mp4"]%string
       (map fst (Sampler.limit (Some 2) (Sampler.tag_all demo_tasks))).
Proof.
  refine (proj1 (selected_videos_are_discovered nat Sampler.counter_choices
                   Sampler.counter_shuffle demo_tasks 1 2 (Some 2) true 1%nat 2%nat
                   ["b.mp4"; "a.mp4"]%string
                   counter_choices_contract counter_shuffle_contract _)).
  reflexivity.
Defined.

Lemma short_supply_shows_every_clip_witness :
  incl (map fst (Sampler.tag_all demo_tasks))
       ["a.mp4"; "b.mp4"; "c.mp4"; "a.mp4"; "b.mp4"; "c.mp4"]%string.
Proof.
  refine (proj1 (proj2 (short_supply_shows_every_clip nat Sampler.counter_choices
                   Sampler.counter_shuffle demo_tasks 2 3 None true 0%nat 4%nat _
                   counter_choices_contract counter_shuffle_contract _ _))).
  - reflexivity.
  - vm_compute. discriminate.
Defined.

(** ** The layout the search returns *)

Lemma search_returns (n w h : Z) :
  1 <= n < 2 ^ 53 -> 0 < w < 2 ^ 53 -> 0 < h < 2 ^ 53 ->
  exists rows,
    1 <= rows <= 19 /\
    Layout.calculate_optimal_grid n w h =
      Ok (Some (rows, Layout.ceil_div n rows, w / Layout.ceil_div n rows, h / rows)).
Proof.
  intros Hn Hw Hh.
  destruct (search_loop n w h Hn Hw Hh 19 (le_n _)) as (st & Hrun & Hinv).
  change (1 + Z.of_nat 19) with 20 in Hrun, Hinv.
  destruct (first_candidate n w h Hn Hw Hh) as (d1 & Hcand1 & Hfinite).
  unfold Layout.search_inv in Hinv.
  destruct (Layout.best_layout st) as [[[[rows cols] cw] ch]|] eqn:Hbest.
  2:{ destruct Hinv as (_ & Hall).
      rewrite (Hall 1 n d1 ltac:(lia) Hcand1) in Hfinite. discriminate. }
  destruct Hinv as (Hrows & -> & -> & Hcand & _).
  destruct (candidate_exact n w h Hn Hw Hh rows ltac:(lia)) as (d0 & _ & _ & _ & Hcand0).
  rewrite Hcand in Hcand0. injection Hcand0 as -> _.
  exists rows. split; [lia|].
  unfold Layout.calculate_optimal_grid.
  rewrite (proj1 (target_ratio_ok w h Hw Hh)). cbn [bind].
  rewrite Hrun. cbn [bind]. now rewrite Hbest.
Qed.

Lemma ceil_div_tight (n r : Z) :
  1 <= n -> 1 <= r ->
  r * Layout.ceil_div n r < n + r /\ r * (Layout.ceil_div n r - 1) < n.
Proof.
  intros Hn Hr. unfold Layout.ceil_div.
  pose proof (Z.div_mod (n + r - 1) r ltac:(lia)).
  pose proof (Z.mod_pos_bound (n + r - 1) r ltac:(lia)). nia.
Qed.

(** X9: inside the contract the layout returned has fewer than [rows] cells
    more than there are clips, would not hold the clips with one column less,
    and has at most as many columns as clips. *)
Theorem layout_wastes_less_than_a_column (num_videos target_width target_height : Z) :
  1 <= num_videos < 2 ^ 53 ->
  0 < target_width < 2 ^ 53 ->
  0 < target_height < 2 ^ 53 ->
  exists rows cols cell_width cell_height,
    Layout.calculate_optimal_grid num_videos target_width target_height =
      Ok (Some (rows, cols, cell_width, cell_height)) /\
    num_videos <= rows * cols < num_videos + rows /\
    rows * (cols - 1) < num_videos /\
    cols <= num_videos.
Proof.
  intros Hn Hw Hh.
  destruct (search_returns _ _ _ Hn Hw Hh) as (rows & Hrows & Hrun).
  eexists _, _, _, _. split; [exact Hrun|].
  pose proof (ceil_div_covers num_videos rows ltac:(lia) ltac:(lia)).
  pose proof (ceil_div_tight num_videos rows ltac:(lia) ltac:(lia)).
  nia.
Qed.

(** X10: inside the contract the cells of the layout returned never exceed
    the canvas: [cols] cells side by side leave fewer than [cols] pixels of
    the width unused and [rows] cells fewer than [rows] pixels of the height.
    A cell is 0 pixels wide exactly when there are more columns than pixels;
    with at most [target_width] clips and a canvas at least 19 pixels high no
    cell is empty. *)
Theorem cells_tile_the_canvas (num_videos target_width target_height : Z) :
  1 <= num_videos < 2 ^ 53 ->
  0 < target_width < 2 ^ 53 ->
  0 < target_height < 2 ^ 53 ->
  exists rows cols cell_width cell_height,
    Layout.calculate_optimal_grid num_videos target_width target_height =
      Ok (Some (rows, cols, cell_width, cell_height)) /\
    0 <= target_width - cols * cell_width < cols /\
    0 <= target_height - rows * cell_height < rows /\
    (cell_width = 0 <-> target_width < cols) /\
    (cell_height = 0 <-> target_height < rows) /\
    (num_videos <= target_width -> 1 <= cell_width) /\
    (19 <= target_height -> 1 <= cell_height).
Proof.
  intros Hn Hw Hh.
  destruct (search_returns _ _ _ Hn Hw Hh) as (rows & Hrows & Hrun).
  eexists _, _, _, _. split; [exact Hrun|].
  pose proof (ceil_div_covers num_videos rows ltac:(lia) ltac:(lia)) as [_ Hc].
  pose proof (ceil_div_tight num_videos rows ltac:(lia) ltac:(lia)) as [_ Ht].
  set (cols := Layout.ceil_div num_videos rows) in *.
  pose proof (Z.div_mod target_width cols ltac:(lia)).
  pose proof (Z.mod_pos_bound target_width cols ltac:(lia)).
  pose proof (Z.div_mod target_height rows ltac:(lia)).
  pose proof (Z.mod_pos_bound target_height rows ltac:(lia)).
  assert (0 <= target_width / cols) by (apply Z.div_pos; lia).
  assert (0 <= target_height / rows) by (apply Z.div_pos; lia).
  repeat split; try nia.
Qed.

Lemma cells_tile_the_canvas_witness :
  exists rows cols cell_width cell_height,
    Layout.calculate_optimal_grid 80 1920 1080 =
      Ok (Some (rows, cols, cell_width, cell_height)) /\
    0 <= 1920 - cols * cell_width < cols /\
    0 <= 1080 - rows * cell_height < rows.
Proof.
  destruct (cells_tile_the_canvas 80 1920 1080)
    as (rows & cols & cw & ch & Hrun & Hw & Hh & _); [lia | lia | lia |].
  exists rows, cols, cw, ch. split; [exact Hrun | split; assumption].
Defined.

Lemma layout_wastes_less_than_a_column_witness :
  exists rows cols cell_width cell_height,
    Layout.calculate_optimal_grid 80 1920 1080 =
      Ok (Some (rows, cols, cell_width, cell_height)) /\
    80 <= rows * cols < 80 + rows /\ rows * (cols - 1) < 80 /\ cols <= 80.
Proof. apply (layout_wastes_less_than_a_column 80 1920 1080); lia. Defined.

(** ** The drivers *)

Lemma fold_add_shift (l : list Z) (a : Z) : fold_left Z.add l a = a + fold_left Z.add l 0.
Proof.
  revert a. induction l as [|x l IH]; intros a; cbn [fold_left]; [lia|].
  rewrite IH, (IH (0 + x)). lia.
Qed.

Lemma total_videos_len (task_videos : Sampler.task_map) :
  Driver.total_videos task_videos = len (Sampler.tag_all task_videos).
Proof.
  unfold Driver.total_videos, Sampler.tag_all.
  induction task_videos as [|[t vs] tv IH]; cbn [map fold_left flat_map]; [reflexivity|].
  rewrite fold_add_shift, IH, len_app. unfold len. rewrite length_map. lia.
Qed.

Lemma len_limit_le (max_videos : option Z) (l : list Sampler.clip) :
  len (Sampler.limit max_videos l) <= len l.
Proof.
  unfold Sampler.limit. destruct max_videos as [m|]; [|lia].
  destruct (negb (m =? 0) && (len l >? m)); [|lia].
  unfold slice_to, len. destruct (0 <=? m); rewrite length_firstn; lia.
Qed.

Section SamplerReturns.

Variable RNG : Type.
Variable choices : list Sampler.clip -> Z -> RNG -> result (list Sampler.clip * RNG).
Variable shuffle : list Sampler.clip -> RNG -> list Sampler.clip * RNG.
Hypothesis Hchoices : Sampler.choices_contract RNG choices.

Lemma select_returns (task_videos : Sampler.task_map) (rows cols : Z)
    (max_videos : option Z) (shuffle_on : bool) (g : RNG) :
  Sampler.tag_all task_videos <> [] ->
  (forall m, max_videos = Some m -> 0 < m) ->
  exists plan g',
    Sampler.create_balanced_video_list RNG choices shuffle task_videos (rows, cols)
      max_videos shuffle_on g = Ok (plan, g').
Proof.
  intros Hne Hmax. unfold Sampler.create_balanced_video_list.
  set (capped := Sampler.limit max_videos (Sampler.tag_all task_videos)).
  assert (Hcapped : capped <> []) by (apply limit_nonempty; assumption).
  destruct (Z.ltb_spec (len capped) (rows * cols)) as [Hshort | Henough].
  - destruct (proj1 Hchoices capped (rows * cols - len capped) g Hcapped ltac:(lia))
      as (l & g1 & -> & _). cbn [bind].
    destruct (if shuffle_on then _ else _) as [sh g2]. cbn [bind]. now eexists _, _.
  - cbn [bind]. destruct (if shuffle_on then _ else _) as [sh g2]. now eexists _, _.
Qed.

End SamplerReturns.

Section DriverFacts.

Variable RNG : Type.
Variable choices : list Sampler.clip -> Z -> RNG -> result (list Sampler.clip * RNG).
Variable shuffle : list Sampler.clip -> RNG -> list Sampler.clip * RNG.
Variable shuffle_files : list string -> RNG -> list string * RNG.
Variable probe : string -> result Crop.stream.

Lemma analyse_loop (task_videos : Sampler.task_map) (crop_mode : string) (verbose : bool)
    (selected : list string) (acc : list Crop.crop_params) :
  (forall v, In v selected ->
     (exists s, probe v = Ok s) /\ Driver.task_of task_videos v <> None) ->
  exists params,
    for_each (Driver.analyse_step probe task_videos crop_mode verbose) selected acc =
      Ok (acc ++ params) /\
    Forall2 (Driver.analysed probe crop_mode) selected params.
Proof.
  revert acc. induction selected as [|v selected IH]; intros acc Hok; cbn [for_each].
  - exists []. rewrite app_nil_r. split; [reflexivity | constructor].
  - destruct (Hok v (or_introl eq_refl)) as [[s Hs] Htask].
    unfold Driver.analyse_step at 1, Driver.probe_crop_params. rewrite Hs. cbn [bind].
    replace (if verbose then _ else Ok tt) with (@Ok unit tt).
    2:{ destruct verbose; [|reflexivity].
        destruct (Driver.task_of task_videos v); [reflexivity | congruence]. }
    cbn [bind].
    destruct (IH (acc ++ [Crop.get_video_crop_params s crop_mode])
                 (fun v' Hv' => Hok v' (or_intror Hv'))) as (params & Hrun & Hall).
    exists (Crop.get_video_crop_params s crop_mode :: params).
    rewrite Hrun, <- app_assoc. split; [reflexivity|].
    constructor; [now exists s | exact Hall].
Qed.

Lemma Forall2_len {A B : Type} (R : A -> B -> Prop) (la : list A) (lb : list B) :
  Forall2 R la lb -> len la = len lb.
Proof. intros H. unfold len. now rewrite (Forall2_length H). Qed.

(** X11: [create_video_grid_v2_advanced] with the automatic layout, on a
    discovery that supplies at least one and fewer than [2^53] clips, a
    canvas inside the contract, a cap that is unset or positive and files
    that the probe can read: it plans a grid of [rows * cols] inputs with
    [rows] in [1..19] and [cols = ceil(total / rows)], where [total] counts
    the clips before the cap; every input is a discovered video; without a
    cap every discovered video is an input; each input is cropped by the
    window of its own stream; and the graph is well formed and has no
    filler.  With [verbose] on no task name is missing. *)
Theorem grid_v2_fills_every_cell (task_videos : Sampler.task_map)
    (target_width target_height duration : Z) (max_videos : option Z)
    (shuffle_on : bool) (crop_mode : string) (verbose : bool) (g : RNG) :
  Sampler.choices_contract RNG choices ->
  Sampler.shuffle_contract RNG shuffle ->
  Sampler.tag_all task_videos <> [] ->
  Driver.total_videos task_videos < 2 ^ 53 ->
  0 < target_width < 2 ^ 53 ->
  0 < target_height < 2 ^ 53 ->
  (forall m, max_videos = Some m -> 0 < m) ->
  (forall video, In video (map fst (Sampler.tag_all task_videos)) ->
     exists video_stream, probe video = Ok video_stream) ->
  exists plan g' rows cols,
    Driver.create_video_grid_v2_advanced RNG choices shuffle probe task_videos
      target_width target_height duration None max_videos shuffle_on crop_mode verbose g
      = Ok (Some (plan, g')) /\
    Driver.grid plan = (rows, cols, target_width / cols, target_height / rows) /\
    1 <= rows <= 19 /\
    cols = Layout.ceil_div (Driver.total_videos task_videos) rows /\
    len (Driver.inputs plan) = rows * cols /\
    incl (Driver.inputs plan) (map fst (Sampler.tag_all task_videos)) /\
    (max_videos = None ->
     incl (map fst (Sampler.tag_all task_videos)) (Driver.inputs plan)) /\
    Forall2 (Driver.analysed probe crop_mode) (Driver.inputs plan) (Driver.video_params plan) /\
    Graph.well_formed_grid_graph rows cols
      (Ok (Driver.filter_complex plan, Driver.output_map plan)) /\
    filter is_color_fill (Driver.filter_complex plan) = [] /\
    filter is_crop_scale (Driver.filter_complex plan) =
      Graph.crop_scale_nodes (Driver.video_params plan)
                             (target_width / cols) (target_height / rows).
Proof.
  intros Hc Hs Hne Htotal Hw Hh Hmax Hprobe.
  pose proof (total_videos_len task_videos) as Hlen.
  assert (Hn : 1 <= Driver.total_videos task_videos < 2 ^ 53).
  { split; [|exact Htotal]. rewrite Hlen.
    destruct (Sampler.tag_all task_videos); [congruence | unfold len; cbn [length]; lia]. }
  destruct (search_returns _ _ _ Hn Hw Hh) as (rows & Hrows & Hlayout).
  set (cols := Layout.ceil_div (Driver.total_videos task_videos) rows) in *.
  pose proof (ceil_div_covers _ rows (proj1 Hn) ltac:(lia)) as [Hcover Hcols].
  fold cols in Hcover, Hcols.
  destruct (select_returns RNG choices shuffle Hc task_videos rows cols max_videos
              shuffle_on g Hne Hmax) as (selected & g' & Hsel).
  destruct (select_run_shape RNG choices shuffle Hc Hs _ _ _ _ _ _ _ _ Hsel)
    as (extras & extended & Hincl & Hextras & Hperm & Hplan).
  set (capped := Sampler.limit max_videos (Sampler.tag_all task_videos)) in *.
  pose proof (len_nonneg capped) as Hc0.
  pose proof (len_limit_le max_videos (Sampler.tag_all task_videos)) as Hcap.
  fold capped in Hcap.
  assert (Hext : len extended = rows * cols).
  { unfold len in *. rewrite <- (Permutation_length Hperm), length_app. lia. }
  assert (Hall : slice_to extended (rows * cols) = extended).
  { rewrite slice_to_nonneg by lia. apply firstn_all2. unfold len in Hext. lia. }
  rewrite Hall in Hplan.
  assert (Hsel_len : len selected = rows * cols).
  { subst selected. unfold len in *. now rewrite length_map. }
  assert (Hsub : incl selected (map fst (Sampler.tag_all task_videos))).
  { subst selected. apply incl_map. intros x Hx.
    apply (Permutation_in _ (Permutation_sym Hperm)) in Hx.
    apply in_app_or in Hx. apply (incl_limit max_videos).
    destruct Hx as [Hx | Hx]; [exact Hx | now apply Hincl]. }
  destruct (analyse_loop task_videos crop_mode verbose selected []) as (params & Hloop & Hparams).
  { intros v Hv. apply Hsub in Hv. split; [now apply Hprobe|].
    apply in_map_iff in Hv. destruct Hv as ([v' t] & Heq & Hv). cbn [fst] in Heq. subst v'.
    apply in_tag_all in Hv. destruct Hv as (vs & Hin & Hv).
    destruct (task_of_found task_videos v t vs Hin Hv) as (t' & _ & -> & _). discriminate. }
  cbn [app] in Hloop.
  assert (Hfull : len params = rows * cols)
    by (rewrite <- (Forall2_len _ _ _ Hparams); exact Hsel_len).
  pose proof (build_filter_graph_full rows cols (target_width / cols) (target_height / rows)
                duration params ltac:(lia) Hcols Hfull) as Hwf.
  pose proof (build_filter_graph_closed rows cols (target_width / cols)
                (target_height / rows) duration params ltac:(lia) Hcols) as Hclosed.
  eexists (Driver.mkPlan (rows, cols, target_width / cols, target_height / rows)
             selected params _ _), g', rows, cols.
  split.
  { unfold Driver.create_video_grid_v2_advanced.
    destruct task_videos as [|tv0 tvs]; [now contradiction Hne|].
    unfold Layout.choose_layout. rewrite Hlayout. cbn [bind].
    fold cols. rewrite Hsel. cbn [bind]. rewrite Hloop. cbn [bind].
    rewrite Hclosed. cbn [bind]. reflexivity. }
  cbn [Driver.grid Driver.inputs Driver.video_params Driver.filter_complex
       Driver.output_map].
  split; [reflexivity|]. split; [exact Hrows|]. split; [reflexivity|].
  split; [exact Hsel_len|]. split; [exact Hsub|]. split.
  { intros ->. subst selected. cbn [Sampler.limit] in *. subst capped.
    apply incl_map. intros x Hx. apply (Permutation_in _ Hperm).
    apply in_or_app. now left. }
  split; [exact Hparams|]. split; [rewrite <- Hclosed; exact Hwf|].
  rewrite emitted_crops, emitted_fillers by (try apply vstack_tail; lia).
  split; [|reflexivity]. rewrite Hfull, range_nil by lia. reflexivity.
Qed.

Lemma limit_files_shape (max_videos : option Z) (video_files : list string) :
  (forall m, max_videos = Some m -> 0 < m) -> video_files <> [] ->
  Driver.limit_files max_videos video_files <> [] /\
  len (Driver.limit_files max_videos video_files) <= len video_files /\
  incl (Driver.limit_files max_videos video_files) video_files.
Proof.
  intros Hmax Hne. unfold Driver.limit_files.
  destruct max_videos as [m|]; [|repeat split; [exact Hne | lia | apply incl_refl]].
  specialize (Hmax m eq_refl).
  destruct (negb (m =? 0) && (len video_files >? m));
    [|repeat split; [exact Hne | lia | apply incl_refl]].
  rewrite slice_to_nonneg by lia. repeat split.
  - destruct video_files as [|v l]; [congruence|].
    replace (Z.to_nat m) with (S (Z.to_nat (m - 1))) by lia. discriminate.
  - unfold len. rewrite length_firstn. lia.
  - apply incl_firstn.
Qed.

Lemma create_video_grid_is_advanced (video_files : list string)
    (target_width target_height duration : Z) (grid_layout : option (Z * Z))
    (shuffle_on : bool) (g : RNG) :
  Driver.create_video_grid RNG shuffle_files probe video_files target_width target_height
    duration grid_layout shuffle_on g =
  Driver.create_video_grid_advanced RNG shuffle_files probe video_files target_width
    target_height duration grid_layout None shuffle_on "center" g.
Proof.
  unfold Driver.create_video_grid, Driver.create_video_grid_advanced.
  destruct video_files as [|v l]; [reflexivity|].
  cbn [Driver.limit_files].
  destruct (if shuffle_on then _ else _) as [files g1].
  destruct (Layout.choose_layout _ _ _ _) as [[[[rows cols] cw] ch]|e]; [|reflexivity].
  cbn [bind]. destruct (item0 files) as [first|e]; [|reflexivity]. cbn [bind].
  unfold Driver.probe_crop_params.
  destruct (probe first) as [s|e]; reflexivity.
Qed.

(** X12: [create_video_grid_advanced] with the automatic layout, on at
    least one and fewer than [2^53] files, a canvas with
    [0 < target_width < 2^53] and [0 < target_height < 2^53], a cap that is
    unset or positive and files that the probe can read: the
    inputs are the files left after the cap, each once, in the order the
    shuffle gives (the same order without shuffle); fewer than [rows] cells
    are fillers; every clip is cropped by the one window of the first input;
    and no node reads a pad written later.  [create_video_grid] is the same
    function without a cap and with the centred crop. *)
Theorem grid_v1_uses_every_file (video_files : list string)
    (target_width target_height duration : Z) (max_videos : option Z)
    (shuffle_on : bool) (crop_mode : string) (g : RNG) :
  Driver.shuffle_files_contract RNG shuffle_files ->
  video_files <> [] ->
  len video_files < 2 ^ 53 ->
  0 < target_width < 2 ^ 53 ->
  0 < target_height < 2 ^ 53 ->
  (forall m, max_videos = Some m -> 0 < m) ->
  (forall video, In video video_files -> exists video_stream, probe video = Ok video_stream) ->
  (exists plan g' rows cols params,
     Driver.create_video_grid_advanced RNG shuffle_files probe video_files target_width
       target_height duration None max_videos shuffle_on crop_mode g = Ok (Some (plan, g')) /\
     Driver.grid plan = (rows, cols, target_width / cols, target_height / rows) /\
     1 <= rows <= 19 /\
     Permutation (Driver.limit_files max_videos video_files) (Driver.inputs plan) /\
     (shuffle_on = false -> Driver.inputs plan = Driver.limit_files max_videos video_files) /\
     0 <= rows * cols - len (Driver.inputs plan) < rows /\
     (exists first, item0 (Driver.inputs plan) = Ok first /\
                    Driver.analysed probe crop_mode first params) /\
     Driver.video_params plan = map (fun _ => params) (Driver.inputs plan) /\
     filter is_crop_scale (Driver.filter_complex plan) =
       Graph.crop_scale_nodes (Driver.video_params plan)
                              (target_width / cols) (target_height / rows) /\
     filter is_color_fill (Driver.filter_complex plan) =
       map (Graph.ColorFill (target_width / cols) (target_height / rows) duration)
           (range (len (Driver.inputs plan)) (rows * cols)) /\
     Graph.topological (Driver.filter_complex plan)) /\
  forall grid_layout,
    Driver.create_video_grid RNG shuffle_files probe video_files target_width target_height
      duration grid_layout shuffle_on g =
    Driver.create_video_grid_advanced RNG shuffle_files probe video_files target_width
      target_height duration grid_layout None shuffle_on "center" g.
Proof.
  intros Hs Hne Hlen Hw Hh Hmax Hprobe.
  split; [|intros grid_layout; apply create_video_grid_is_advanced].
  destruct (limit_files_shape max_videos video_files Hmax Hne) as (Hcne & Hcle & Hcin).
  set (capped := Driver.limit_files max_videos video_files) in *.
  set (shuffled := if shuffle_on then shuffle_files capped g else (capped, g)).
  assert (Hperm : Permutation capped (fst shuffled)).
  { subst shuffled. destruct shuffle_on; [apply Hs | reflexivity]. }
  assert (Hslen : len (fst shuffled) = len capped).
  { unfold len. now rewrite (Permutation_length Hperm). }
  assert (Hn : 1 <= len (fst shuffled) < 2 ^ 53).
  { rewrite Hslen. split; [|lia].
    destruct capped; [congruence | unfold len; cbn [length]; lia]. }
  destruct (search_returns _ _ _ Hn Hw Hh) as (rows & Hrows & Hlayout).
  set (cols := Layout.ceil_div (len (fst shuffled)) rows) in *.
  pose proof (ceil_div_covers _ rows (proj1 Hn) ltac:(lia)) as [Hcover Hcols].
  pose proof (ceil_div_tight _ rows (proj1 Hn) ltac:(lia)) as [Htight _].
  fold cols in Hcover, Hcols, Htight.
  assert (Hused : slice_to (fst shuffled) (rows * cols) = fst shuffled).
  { rewrite slice_to_nonneg by lia. apply firstn_all2. unfold len in *. lia. }
  destruct (fst shuffled) as [|first rest] eqn:Eshuffled.
  { unfold len in Hn. cbn [length] in Hn. lia. }
  destruct (Hprobe first) as [s Hs1].
  { apply Hcin. apply (Permutation_in _ (Permutation_sym Hperm)). now left. }
  set (params := Crop.get_video_crop_params s crop_mode).
  pose proof (build_filter_graph_closed rows cols (target_width / cols)
                (target_height / rows) duration
                (map (fun _ => params) (first :: rest)) ltac:(lia) Hcols) as Hclosed.
  assert (Hplen : len (map (fun _ : string => params) (first :: rest)) = len (first :: rest))
    by (unfold len; now rewrite length_map).
  eexists (Driver.mkPlan (rows, cols, target_width / cols, target_height / rows)
             (first :: rest) (map (fun _ => params) (first :: rest)) _ _),
          (snd shuffled), rows, cols, params.
  split.
  { unfold Driver.create_video_grid_advanced.
    destruct video_files as [|v0 vs]; [now contradiction Hne|].
    fold capped. fold shuffled. destruct shuffled as [files g1].
    cbn [fst snd] in *. subst files.
    unfold Layout.choose_layout. rewrite Hlayout. cbn [bind item0].
    unfold Driver.probe_crop_params. rewrite Hs1. cbn [bind]. fold params.
    unfold Graph.build_filter_graph_v1. fold cols. rewrite Hused, Hclosed.
    cbn [bind]. reflexivity. }
  cbn [Driver.grid Driver.inputs Driver.video_params Driver.filter_complex
       Driver.output_map].
  split; [reflexivity|]. split; [exact Hrows|]. split; [exact Hperm|]. split.
  { intros ->. subst shuffled. cbn [fst] in Eshuffled. now symmetry. }
  split; [lia|].
  split; [exists first; split; [reflexivity | exists s; split; [exact Hs1 | reflexivity]]|].
  split; [reflexivity|].
  rewrite emitted_crops, emitted_fillers by (try apply vstack_tail; lia).
  split; [reflexivity|]. split; [now rewrite Hplen|].
  apply ordered_topological. now apply emitted_sequence_ordered.
Qed.

End DriverFacts.

Lemma grid_v2_fills_every_cell_witness :
  exists plan g' rows cols,
    Driver.create_video_grid_v2_advanced nat Sampler.counter_choices
      Sampler.counter_shuffle (fun _ => Ok (Crop.mkStream 1280 720 (30, 1)))
      demo_tasks 1920 1080 30 None None true "center" true 0%nat = Ok (Some (plan, g')) /\
    len (Driver.inputs plan) = rows * cols /\
    incl (map fst (Sampler.tag_all demo_tasks)) (Driver.inputs plan) /\
    filter is_color_fill (Driver.filter_complex plan) = [].
Proof.
  destruct (grid_v2_fills_every_cell nat Sampler.counter_choices Sampler.counter_shuffle
              (fun _ => Ok (Crop.mkStream 1280 720 (30, 1)))
              demo_tasks 1920 1080 30 None true "center" true 0%nat
              counter_choices_contract counter_shuffle_contract)
    as (plan & g' & rows & cols & Hrun & _ & _ & _ & Hlen & _ & Hall & _ & _ & Hfill & _).
  - discriminate.
  - vm_compute. reflexivity.
  - lia.
  - lia.
  - intros m Hm. discriminate.
  - intros video _. eexists. reflexivity.
  - exists plan, g', rows, cols.
    split; [exact Hrun|]. split; [exact Hlen|]. split; [now apply Hall | exact Hfill].
Defined.

Lemma grid_v1_uses_every_file_witness :
  exists plan g' rows,
    Driver.create_video_grid_advanced nat (fun l g => (rev l, S g))
      (fun _ => Ok (Crop.mkStream 1280 720 (30, 1)))
      ["a.mp4"; "b.mp4"; "c.mp4"]%string 1920 1080 30 None (Some 2) true "top" 0%nat
      = Ok (Some (plan, g')) /\
    Permutation ["a.mp4"; "b.mp4"]%string (Driver.inputs plan) /\
    1 <= rows <= 19.
Proof.
  destruct (grid_v1_uses_every_file nat (fun l g => (rev l, S g))
              (fun _ => Ok (Crop.mkStream 1280 720 (30, 1)))
              ["a.mp4"; "b.mp4"; "c.mp4"]%string 1920 1080 30 (Some 2) true "top" 0%nat)
    as [(plan & g' & rows & cols & params & Hrun & _ & Hrows & Hperm & _) _].
  - intros l g. apply Permutation_rev.
  - discriminate.
  - vm_compute. reflexivity.
  - lia.
  - lia.
  - intros m Hm. injection Hm as <-. lia.
  - intros video _. eexists. reflexivity.
  - exists plan, g', rows. split; [exact Hrun|]. split; [exact Hperm | exact Hrows].
Defined.

(** *** An explicit layout *)

Section OverrideFacts.

Variable RNG : Type.
Variable choices : list Sampler.clip -> Z -> RNG -> result (list Sampler.clip * RNG).
Variable shuffle : list Sampler.clip -> RNG -> list Sampler.clip * RNG.
Variable probe : string -> result Crop.stream.

(** X16: [create_video_grid_v2_advanced] with an explicit layout of
    [rows >= 1] by [cols >= 1] cells, however many clips were discovered: the
    sampler cuts or fills the selection to [rows * cols] inputs, all of them
    discovered videos, each cropped by the window of its own stream, and the
    graph is well formed and has no filler: the branch that emits a black
    cell is never taken. *)
Theorem grid_v2_override_has_no_filler (task_videos : Sampler.task_map)
    (target_width target_height duration rows cols : Z) (max_videos : option Z)
    (shuffle_on : bool) (crop_mode : string) (verbose : bool) (g : RNG) :
  Sampler.choices_contract RNG choices ->
  Sampler.shuffle_contract RNG shuffle ->
  Sampler.tag_all task_videos <> [] ->
  1 <= rows -> 1 <= cols ->
  (forall m, max_videos = Some m -> 0 < m) ->
  (forall video, In video (map fst (Sampler.tag_all task_videos)) ->
     exists video_stream, probe video = Ok video_stream) ->
  exists plan g',
    Driver.create_video_grid_v2_advanced RNG choices shuffle probe task_videos
      target_width target_height duration (Some (rows, cols)) max_videos shuffle_on
      crop_mode verbose g = Ok (Some (plan, g')) /\
    Driver.grid plan = (rows, cols, target_width / cols, target_height / rows) /\
    len (Driver.inputs plan) = rows * cols /\
    incl (Driver.inputs plan) (map fst (Sampler.tag_all task_videos)) /\
    Forall2 (Driver.analysed probe crop_mode) (Driver.inputs plan)
            (Driver.video_params plan) /\
    Graph.well_formed_grid_graph rows cols
      (Ok (Driver.filter_complex plan, Driver.output_map plan)) /\
    filter is_color_fill (Driver.filter_complex plan) = [].
Proof.
  intros Hc Hs Hne Hrows Hcols Hmax Hprobe.
  destruct (select_returns RNG choices shuffle Hc task_videos rows cols max_videos
              shuffle_on g Hne Hmax) as (selected & g' & Hsel).
  destruct (select_run_shape RNG choices shuffle Hc Hs _ _ _ _ _ _ _ _ Hsel)
    as (extras & extended & Hincl & Hextras & Hperm & Hplan).
  set (capped := Sampler.limit max_videos (Sampler.tag_all task_videos)) in *.
  pose proof (len_nonneg capped) as Hc0.
  assert (Hslots : 1 <= rows * cols) by nia.
  assert (Hext : rows * cols <= len extended).
  { unfold len in *. rewrite <- (Permutation_length Hperm), length_app. lia. }
  assert (Hsel_len : len selected = rows * cols).
  { subst selected. unfold len in *. rewrite length_map.
    rewrite slice_to_nonneg by lia. rewrite length_firstn. lia. }
  assert (Hsub : incl selected (map fst (Sampler.tag_all task_videos))).
  { subst selected. apply incl_map. intros x Hx. apply incl_slice_to in Hx.
    apply (Permutation_in _ (Permutation_sym Hperm)) in Hx.
    apply in_app_or in Hx. apply (incl_limit max_videos).
    destruct Hx as [Hx | Hx]; [exact Hx | now apply Hincl]. }
  destruct (analyse_loop probe task_videos crop_mode verbose selected [])
    as (params & Hloop & Hparams).
  { intros v Hv. apply Hsub in Hv. split; [now apply Hprobe|].
    apply in_map_iff in Hv. destruct Hv as ([v' t] & Heq & Hv). cbn [fst] in Heq. subst v'.
    apply in_tag_all in Hv. destruct Hv as (vs & Hin & Hv).
    destruct (task_of_found task_videos v t vs Hin Hv) as (t' & _ & -> & _). discriminate. }
  cbn [app] in Hloop.
  assert (Hfull : len params = rows * cols)
    by (rewrite <- (Forall2_len _ _ _ Hparams); exact Hsel_len).
  pose proof (build_filter_graph_full rows cols (target_width / cols) (target_height / rows)
                duration params Hrows Hcols Hfull) as Hwf.
  pose proof (build_filter_graph_closed rows cols (target_width / cols)
                (target_height / rows) duration params Hrows Hcols) as Hclosed.
  eexists (Driver.mkPlan (rows, cols, target_width / cols, target_height / rows)
             selected params _ _), g'.
  split.
  { unfold Driver.create_video_grid_v2_advanced.
    destruct task_videos as [|tv0 tvs]; [now contradiction Hne|].
    unfold Layout.choose_layout. rewrite !floordiv_ok by lia. cbn [bind].
    rewrite Hsel. cbn [bind]. rewrite Hloop. cbn [bind].
    rewrite Hclosed. cbn [bind]. reflexivity. }
  cbn [Driver.grid Driver.inputs Driver.video_params Driver.filter_complex
       Driver.output_map].
  split; [reflexivity|]. split; [exact Hsel_len|]. split; [exact Hsub|].
  split; [exact Hparams|]. split; [rewrite <- Hclosed; exact Hwf|].
  rewrite emitted_fillers by (try apply vstack_tail; lia).
  rewrite Hfull, range_nil by lia. reflexivity.
Qed.

End OverrideFacts.

Lemma grid_v2_override_has_no_filler_witness :
  exists plan g',
    Driver.create_video_grid_v2_advanced nat Sampler.counter_choices
      Sampler.counter_shuffle (fun _ => Ok (Crop.mkStream 1280 720 (30, 1)))
      demo_tasks 1920 1080 30 (Some (2, 4)) None true "center" true 0%nat
      = Ok (Some (plan, g')) /\
    len (Driver.inputs plan) = 2 * 4 /\
    filter is_color_fill (Driver.filter_complex plan) = [].
Proof.
  destruct (grid_v2_override_has_no_filler nat Sampler.counter_choices
              Sampler.counter_shuffle (fun _ => Ok (Crop.mkStream 1280 720 (30, 1)))
              demo_tasks 1920 1080 30 2 4 None true "center" true 0%nat
              counter_choices_contract counter_shuffle_contract)
    as (plan & g' & Hrun & _ & Hlen & _ & _ & _ & Hfill).
  - discriminate.
  - lia.
  - lia.
  - intros m Hm. discriminate.
  - intros video _. eexists. reflexivity.
  - exists plan, g'. split; [exact Hrun|]. split; [exact Hlen | exact Hfill].
Defined.

(** ** The list file of the concatenators *)

Lemma unquote_escape (video tail : string) :
  Concat.unquote (Concat.escape video ++ "'" ++ Concat.newline ++ tail) =
  Some (video, (Concat.newline ++ tail)%string).
Proof.
  induction video as [|c video IH]; cbn [Concat.escape append].
  - cbn. destruct tail as [|c2 [|c3 tail]]; reflexivity.
  - destruct (Ascii.eqb_spec c "'") as [-> | Hne].
    + cbn [append Concat.unquote Ascii.eqb Bool.eqb andb]. 
      change (Concat.unquote (Concat.escape video ++ String "'" (Concat.newline ++ tail)))
        with (Concat.unquote (Concat.escape video ++ "'" ++ Concat.newline ++ tail)).
      now rewrite IH.
    + cbn [append Concat.unquote]. destruct (Ascii.eqb_spec c "'"); [contradiction|].
      change (Concat.unquote (Concat.escape video ++ String "'" (Concat.newline ++ tail)))
        with (Concat.unquote (Concat.escape video ++ "'" ++ Concat.newline ++ tail)).
      now rewrite IH.
Qed.

Lemma concat_empty_cons (x : string) (xs : list string) :
  String.concat "" (x :: xs) = (x ++ String.concat "" xs)%string.
Proof.
  destruct xs as [|y ys]; cbn [String.concat append]; [|reflexivity].
  induction x as [|c x IH]; cbn [append]; [reflexivity | now rewrite <- IH].
Qed.

Lemma list_file_cons (video : string) (video_files : list string) :
  Concat.create_video_list_file (video :: video_files) =
  ("file '" ++ Concat.escape video ++ "'" ++ Concat.newline ++
   Concat.create_video_list_file video_files)%string.
Proof.
  unfold Concat.create_video_list_file. cbn [map]. rewrite concat_empty_cons.
  unfold Concat.list_file_line.
  generalize (String.concat "" (map Concat.list_file_line video_files)) as tail.
  intros tail. cbn [append]. do 6 f_equal.
  generalize (Concat.escape video) as e. intros e.
  induction e as [|c e IH]; cbn [append]; [reflexivity | now rewrite IH].
Qed.

Lemma escape_without_quote (video : string) :
  Concat.has_quote video = false -> Concat.escape video = video.
Proof.
  unfold Concat.has_quote.
  induction video as [|c video IH]; cbn [list_ascii_of_string existsb Concat.escape];
    [reflexivity|].
  intros H. apply orb_false_iff in H. destruct H as [Hc Hrest].
  rewrite Ascii.eqb_sym in Hc. rewrite Hc. f_equal. now apply IH.
Qed.

(** X13: the list file keeps every path apart: reading the quoted part of a
    line back gives the path, whatever quotes it holds; two different lists
    of files never give the same text; and a path without a quote is written
    as it is. *)
Theorem list_file_is_lossless :
  (forall video tail,
     Concat.unquote (Concat.escape video ++ "'" ++ Concat.newline ++ tail) =
     Some (video, (Concat.newline ++ tail)%string)) /\
  (forall video_files1 video_files2,
     Concat.create_video_list_file video_files1 =
     Concat.create_video_list_file video_files2 ->
     video_files1 = video_files2) /\
  (forall video, Concat.has_quote video = false -> Concat.escape video = video).
Proof.
  split; [exact unquote_escape|]. split; [|exact escape_without_quote].
  induction video_files1 as [|v1 l1 IH]; intros [|v2 l2] H.
  - reflexivity.
  - rewrite list_file_cons in H. discriminate.
  - rewrite list_file_cons in H. discriminate.
  - rewrite !list_file_cons in H. apply (append_inv_head "file '") in H.
    assert (E : Some (v1, (Concat.newline ++ Concat.create_video_list_file l1)%string) =
                Some (v2, (Concat.newline ++ Concat.create_video_list_file l2)%string)).
    { rewrite <- !unquote_escape. now rewrite H. }
    injection E as -> E. f_equal. apply IH.
    first [exact E | now apply (append_inv_head Concat.newline) in E].
Qed.

Lemma list_file_is_lossless_witness :
  ["it's.mp4"; "b.mp4"]%string = ["it's.mp4"; "b.mp4"]%string /\
  Concat.create_video_list_file ["it's.mp4"; "b.mp4"]%string =
  ("file 'it'\''s.mp4'" ++ Concat.newline ++ "file 'b.mp4'" ++ Concat.newline)%string.
Proof.
  split; [|reflexivity].
  apply (proj1 (proj2 list_file_is_lossless)). reflexivity.
Defined.

(** ** Binary64: how far a rounded result is from the exact one *)

Lemma Zdigits2_lower (m : Z) : 0 < m -> 2 ^ (Zdigits2 m - 1) <= m.
Proof.
  intros Hm. destruct m as [|p|p]; try lia.
  pose proof (Zdigits2_pos_bounds p) as H. cbn [Zdigits2]. lia.
Qed.

(** Rounding a mantissa of at least 53 bits in the normal range: the result
    is within one unit in the last place of the number rounded. *)
Lemma binary_round_aux_normal (m e : Z) (l : location) :
  2 ^ 52 <= m -> -1000 <= e -> Zdigits2 m + e <= 1000 ->
  exists M k,
    binary_round_aux false m e l = S754_finite false (Z.to_pos M) (e + k) /\
    2 ^ 52 <= M < 2 ^ 53 /\
    Zdigits2 m - 53 <= k <= Zdigits2 m - 52 /\
    m - 2 ^ k < M * 2 ^ k <= m + 2 ^ k.
Proof.
  intros Hm He Hde.
  assert (Hm0 : 0 <= m) by lia.
  assert (Hd : 53 <= Zdigits2 m).
  { destruct (Z.le_gt_cases 53 (Zdigits2 m)) as [|Hlt]; [assumption|].
    assert (m < 2 ^ 52) by (apply Zdigits2_le_iff; lia). lia. }
  set (k1 := Zdigits2 m - 53).
  assert (Hk1 : 0 <= k1) by (subst k1; lia).
  assert (Hp1 : 0 < 2 ^ k1) by (apply Z.pow_pos_nonneg; lia).
  unfold SpecFloat.binary_round_aux.
  pose proof (shr_fexp_spec m e l Hm0) as [Hm1 He1].
  destruct (shr_fexp m e l) as [mrs1 e1]. cbn [fst snd] in Hm1, He1.
  replace (Z.max 0 (fexp (Zdigits2 m + e) - e)) with k1 in Hm1, He1
    by (rewrite fexp_eq; subst k1; lia).
  set (m1 := shr_m mrs1) in *.
  assert (Hm1b : 2 ^ 52 <= m1 < 2 ^ 53).
  { rewrite Hm1. pose proof (Zdigits2_lower m ltac:(lia)) as Hlo.
    pose proof (Zdigits2_lt_pow m Hm0) as Hhi.
    replace (Zdigits2 m - 1) with (52 + k1) in Hlo by (subst k1; lia).
    replace (Zdigits2 m) with (53 + k1) in Hhi by (subst k1; lia).
    rewrite Z.pow_add_r in Hlo, Hhi by lia.
    split; [apply Z.div_le_lower_bound; lia | apply Z.div_lt_upper_bound; lia]. }
  pose proof (round_nearest_even_bounds m1 (loc_of_shr_record mrs1)) as Hr.
  set (mr := round_nearest_even m1 (loc_of_shr_record mrs1)) in *.
  pose proof (shr_fexp_spec mr e1 loc_Exact ltac:(lia)) as [Hm2 He2].
  destruct (shr_fexp mr e1 loc_Exact) as [mrs2 e2]. cbn [fst snd] in Hm2, He2.
  set (k2 := Zdigits2 mr - 53).
  assert (Hk2 : (k2 = 0 /\ mr < 2 ^ 53) \/ (k2 = 1 /\ mr = 2 ^ 53)).
  { subst k2. destruct (Z.lt_ge_cases mr (2 ^ 53)).
    - left. rewrite (Zdigits2_eq mr 53); lia.
    - right. assert (mr = 2 ^ 53) as -> by lia. split; reflexivity. }
  replace (Z.max 0 (fexp (Zdigits2 mr + e1) - e1)) with k2 in Hm2, He2
    by (rewrite fexp_eq; subst k2 e1 k1; destruct Hk2 as [[? ?] | [? ?]]; lia).
  assert (Hm2b : 2 ^ 52 <= shr_m mrs2 < 2 ^ 53 /\ shr_m mrs2 * 2 ^ k2 = mr).
  { rewrite Hm2. destruct Hk2 as [[-> Hlt] | [-> ->]].
    - change (2 ^ 0) with 1. rewrite Z.div_1_r. lia.
    - split; [split; reflexivity || (cbn; lia) | reflexivity]. }
  destruct Hm2b as [Hm2b Hmul].
  exists (shr_m mrs2), (k1 + k2).
  destruct (shr_m mrs2) as [|p|p] eqn:Ep; try lia.
  change (PyFloat.emax - PyFloat.prec) with 971.
  destruct (Z.leb_spec e2 971) as [_ | Hbig];
    [|subst e2 e1 k1; destruct Hk2 as [[? ?] | [? ?]]; lia].
  split; [cbn [Z.to_pos]; f_equal; lia|].
  split; [exact Hm2b|].
  split; [subst k1; destruct Hk2 as [[? ?] | [? ?]]; lia|].
  assert (Hk2' : 0 <= k2 <= 1) by (destruct Hk2 as [[? ?] | [? ?]]; lia).
  rewrite Z.pow_add_r by lia. 
  assert (Hp2 : 1 <= 2 ^ k2) by (destruct Hk2 as [[-> ?] | [-> ?]]; cbn; lia).
  pose proof (Z.div_mod m (2 ^ k1) ltac:(lia)) as Hdm.
  pose proof (Z.mod_pos_bound m (2 ^ k1) Hp1) as Hmod.
  rewrite <- Hm1 in Hdm.
  replace (Z.pos p * (2 ^ k1 * 2 ^ k2)) with (mr * 2 ^ k1) by (rewrite <- Hmul; ring).
  nia.
Qed.

Lemma SFdiv_of_ints (a b : Z) :
  0 < a < 2 ^ 53 -> 0 < b < 2 ^ 53 ->
  let F := 53 + Zdigits2 b - Zdigits2 a in
  exists l,
    SFdiv PyFloat.prec PyFloat.emax (PyFloat.of_int a) (PyFloat.of_int b) =
      binary_round_aux false (a * 2 ^ F / b) (- F) l /\
    2 ^ 52 <= a * 2 ^ F / b < 2 ^ 54 /\ 1 <= F <= 105.
Proof.
  intros Ha Hb F.
  destruct (of_int_normal a Ha) as (ma & -> & Hma & Hda & Hda').
  destruct (of_int_normal b Hb) as (mb & -> & Hmb & Hdb & Hdb').
  set (da := Zdigits2 a) in *. set (db := Zdigits2 b) in *.
  pose proof (Zdigits2_53_bounds ma Hda) as Hma53.
  pose proof (Zdigits2_53_bounds mb Hdb) as Hmb53.
  set (G := 53 - db).
  assert (HF : 1 <= F <= 105) by (subst F; lia). assert (HG : 0 <= G) by (subst G; lia).
  assert (HpF : 0 < 2 ^ F) by (apply Z.pow_pos_nonneg; lia).
  assert (HpG : 0 < 2 ^ G) by (apply Z.pow_pos_nonneg; lia).
  assert (Hnum : Zpos ma * 2 ^ 53 = a * 2 ^ F * 2 ^ G).
  { rewrite Hma, <- !Z.mul_assoc, <- !Z.pow_add_r by lia.
    f_equal. f_equal. subst F G. lia. }
  assert (Hden : Zpos mb = b * 2 ^ G) by (rewrite Hmb; reflexivity).
  cbn [SFdiv xorb]. unfold SFdiv_core_binary. cbn [Zdigits2]. rewrite Hda, Hdb.
  replace (Z.min (SpecFloat.fexp PyFloat.prec PyFloat.emax
                    (53 + (da - 53) - (53 + (db - 53))))
                 (da - 53 - (db - 53))) with (- F)
    by (rewrite fexp_eq; subst F; lia).
  replace (da - 53 - (db - 53) - - F) with 53 by (subst F; lia).
  rewrite Z.shiftl_mul_pow2 by lia. rewrite div_eucl_div_mod.
  rewrite Hnum, Hden.
  rewrite Z.div_mul_cancel_r by lia.
  eexists. split; [reflexivity|]. split; [|exact HF].
  assert (Hqeq : a * 2 ^ F / b = Zpos ma * 2 ^ 53 / Zpos mb).
  { rewrite Hnum, Hden. rewrite Z.div_mul_cancel_r by lia. reflexivity. }
  rewrite Hqeq. split.
  - apply Z.div_le_lower_bound; [lia|].
    change (2 ^ 53) with (2 * 2 ^ 52) at 1. change (2 ^ 53) with (2 * 2 ^ 52) in Hmb53.
    nia.
  - apply Z.div_lt_upper_bound; [lia|].
    change (2 ^ 54) with (4 * 2 ^ 52). change (2 ^ 53) with (2 * 2 ^ 52) in *. nia.
Qed.

(** The quotient of two integers: a normal number within two units in the
    last place of the exact quotient. *)
Lemma quotient_value (a b : Z) :
  0 < a < 2 ^ 53 -> 0 < b < 2 ^ 53 ->
  let x := SFdiv PyFloat.prec PyFloat.emax (PyFloat.of_int a) (PyFloat.of_int b) in
  normal (-105) 1 x /\
  a * 2 ^ 200 - 2 * b * scaled_ulp x < scaled_value x * b <= a * 2 ^ 200 + b * scaled_ulp x.
Proof.
  intros Ha Hb x. subst x.
  destruct (SFdiv_of_ints a b Ha Hb) as (l & -> & Hq & HF).
  set (F := 53 + Zdigits2 b - Zdigits2 a) in *.
  set (q := a * 2 ^ F / b) in *.
  assert (Hdq : 53 <= Zdigits2 q <= 54).
  { split.
    - destruct (Z.le_gt_cases 53 (Zdigits2 q)) as [|Hlt]; [assumption|].
      assert (q < 2 ^ 52) by (apply Zdigits2_le_iff; lia). lia.
    - apply Zdigits2_le_iff; lia. }
  destruct (binary_round_aux_normal q (- F) l ltac:(lia) ltac:(lia) ltac:(lia))
    as (M & k & -> & HM & Hk & Hval).
  assert (HMpos : Zpos (Z.to_pos M) = M) by (apply Z2Pos.id; lia).
  split.
  - exists (Z.to_pos M), (- F + k). rewrite HMpos. repeat split; lia.
  - cbn [scaled_value scaled_ulp]. rewrite HMpos.
    assert (HpF : 0 < 2 ^ F) by (apply Z.pow_pos_nonneg; lia).
    pose proof (Z.div_mod (a * 2 ^ F) b ltac:(lia)) as Hdm.
    pose proof (Z.mod_pos_bound (a * 2 ^ F) b ltac:(lia)) as Hmod.
    fold q in Hdm.
    assert (Hpk : 1 <= 2 ^ k) by (pose proof (Z.pow_pos_nonneg 2 k); lia).
    set (T := 2 ^ (200 - F)).
    assert (HT : 0 < T) by (apply Z.pow_pos_nonneg; lia).
    assert (E1 : 2 ^ (- F + k + 200) = 2 ^ k * T).
    { unfold T. rewrite <- Z.pow_add_r by lia. f_equal. lia. }
    assert (E2 : 2 ^ 200 = 2 ^ F * T).
    { unfold T. rewrite <- Z.pow_add_r by lia. f_equal. lia. }
    rewrite E1, E2.
    set (P := 2 ^ F) in *. set (K := 2 ^ k) in *.
    assert (Hup : M * K * b <= a * P + b * K) by nia.
    assert (Hlo : a * P - 2 * b * K < M * K * b) by nia.
    split; nia.
Qed.

(** The product of an integer and a normal number: within one unit in the
    last place of the exact product. *)
Lemma product_value (n : Z) (m : positive) (e : Z) :
  0 < n < 2 ^ 53 -> 2 ^ 52 <= Zpos m < 2 ^ 53 -> -140 <= e <= 100 ->
  let y := S754_finite false m e in
  let p := SFmul PyFloat.prec PyFloat.emax (PyFloat.of_int n) y in
  normal (-200) 200 p /\
  n * scaled_value y - scaled_ulp p < scaled_value p <= n * scaled_value y + scaled_ulp p.
Proof.
  intros Hn Hm He y p. subst y p.
  destruct (of_int_normal n Hn) as (mo & -> & Hmo & Hdo & Hdn).
  pose proof (Zdigits2_53_bounds mo Hdo) as Hmo53.
  set (eo := Zdigits2 n - 53) in *.
  cbn [SFmul xorb]. rewrite Pos2Z.inj_mul.
  set (mm := Zpos mo * Zpos m).
  assert (Hmm : 2 ^ 104 <= mm < 2 ^ 106).
  { subst mm. change (2 ^ 104) with (2 ^ 52 * 2 ^ 52).
    change (2 ^ 106) with (2 ^ 53 * 2 ^ 53). nia. }
  assert (Hdm : 105 <= Zdigits2 mm <= 106).
  { split.
    - destruct (Z.le_gt_cases 105 (Zdigits2 mm)) as [|Hlt]; [assumption|].
      assert (mm < 2 ^ 104) by (apply Zdigits2_le_iff; lia). lia.
    - apply Zdigits2_le_iff; lia. }
  destruct (binary_round_aux_normal mm (eo + e) loc_Exact)
    as (M & k & -> & HM & Hk & Hval).
  { assert (2 ^ 52 <= 2 ^ 104) by (apply Z.pow_le_mono_r; lia). lia. }
  { subst eo. lia. }
  { subst eo. lia. }
  assert (HMpos : Zpos (Z.to_pos M) = M) by (apply Z2Pos.id; lia).
  split.
  - exists (Z.to_pos M), (eo + e + k). rewrite HMpos. subst eo. repeat split; lia.
  - cbn [scaled_value scaled_ulp]. rewrite HMpos.
    assert (Hk0 : 0 <= k) by lia.
    assert (Hbase : 0 <= eo + e + 200) by (subst eo; lia).
    replace (eo + e + k + 200) with (k + (eo + e + 200)) by lia.
    rewrite (Z.pow_add_r 2 k (eo + e + 200)) by lia.
    set (T := 2 ^ (eo + e + 200)).
    assert (HT : 0 < T) by (apply Z.pow_pos_nonneg; lia).
    assert (Hexact : n * (Zpos m * 2 ^ (e + 200)) = mm * T).
    { subst mm T. rewrite Hmo.
      replace (e + 200) with ((53 - Zdigits2 n) + (eo + e + 200)) by (subst eo; lia).
      rewrite Z.pow_add_r by (subst eo; lia). ring. }
    rewrite Hexact. set (K := 2 ^ k) in *. nia.
Qed.

(** ** The concatenators: scaling into the frame *)

Lemma normal_order (x y : PyFloat.float) :
  normal (-200) 200 x -> normal (-200) 200 y ->
  (PyFloat.ltb y x = true -> scaled_value y <= scaled_value x) /\
  (PyFloat.ltb y x = false -> scaled_value x <= scaled_value y).
Proof.
  intros (mx & ex & -> & Hmx & Hex) (my & ey & -> & Hmy & Hey).
  unfold PyFloat.ltb. cbn [scaled_value].
  assert (Hmono : forall m1 e1 m2 e2,
            2 ^ 52 <= m1 < 2 ^ 53 -> 2 ^ 52 <= m2 < 2 ^ 53 ->
            -200 <= e1 -> -200 <= e2 ->
            e1 < e2 \/ (e1 = e2 /\ m1 <= m2) ->
            m1 * 2 ^ (e1 + 200) <= m2 * 2 ^ (e2 + 200)).
  { intros m1 e1 m2 e2 H1 H2 He1 He2 [Hlt | [-> Hle]].
    - replace (e2 + 200) with ((e2 - e1 - 1) + 1 + (e1 + 200)) by lia.
      rewrite (Z.pow_add_r 2 (e2 - e1 - 1 + 1)), (Z.pow_add_r 2 (e2 - e1 - 1) 1) by lia.
      change (2 ^ 1) with 2.
      assert (0 < 2 ^ (e1 + 200)) by (apply Z.pow_pos_nonneg; lia).
      assert (1 <= 2 ^ (e2 - e1 - 1)) by (pose proof (Z.pow_pos_nonneg 2 (e2 - e1 - 1)); lia).
      set (Q := 2 ^ (e1 + 200)) in *. set (P := 2 ^ (e2 - e1 - 1)) in *.
      apply Z.le_trans with (2 * m2 * Q); [|nia].
      apply Z.mul_le_mono_nonneg_r; lia.
    - assert (0 < 2 ^ (e2 + 200)) by (apply Z.pow_pos_nonneg; lia). nia. }
  destruct (SFltb (S754_finite false my ey) (S754_finite false mx ex)) eqn:E; split;
    try discriminate; intros _.
  - apply SFltb_key in E. unfold flt in E. cbn [key key_lt] in E.
    apply Hmono; try lia.
  - assert (Hn : ~ flt (S754_finite false my ey) (S754_finite false mx ex)).
    { intros Hf. apply SFltb_key in Hf. congruence. }
    unfold flt in Hn. cbn [key key_lt] in Hn.
    apply Hmono; try lia.
Qed.

Lemma int_of_float_bounds (x : PyFloat.float) (lo hi : Z) :
  normal (-200) 200 x -> 0 <= lo ->
  lo * 2 ^ 200 <= scaled_value x < (hi + 1) * 2 ^ 200 ->
  exists i, Concat.int_of_float x = Ok i /\ lo <= i <= hi.
Proof.
  intros (m & e & -> & Hm & He) Hlo Hv. cbn [scaled_value] in Hv.
  cbn [Concat.int_of_float cond_Zopp]. eexists. split; [reflexivity|].
  destruct (Z.leb_spec 0 e) as [Hpos | Hneg].
  - rewrite (Z.pow_add_r 2 e 200) in Hv by lia.
    assert (0 < 2 ^ 200) by (apply Z.pow_pos_nonneg; lia). nia.
  - assert (Hs : 2 ^ 200 = 2 ^ (- e) * 2 ^ (e + 200)).
    { rewrite <- Z.pow_add_r by lia. f_equal. lia. }
    assert (0 < 2 ^ (e + 200)) by (apply Z.pow_pos_nonneg; lia).
    assert (0 < 2 ^ (- e)) by (apply Z.pow_pos_nonneg; lia).
    rewrite Hs in Hv. split.
    + apply Z.div_le_lower_bound; [lia | nia].
    + assert (Zpos m / 2 ^ (- e) < hi + 1); [|lia].
      apply Z.div_lt_upper_bound; [lia | nia].
Qed.

Lemma normal_weaken (lo hi lo' hi' : Z) (x : PyFloat.float) :
  lo' <= lo -> hi <= hi' -> normal lo hi x -> normal lo' hi' x.
Proof.
  intros Hlo Hhi (m & e & -> & Hm & He). exists m, e. repeat split; lia.
Qed.

Lemma normal_ulp (lo hi : Z) (x : PyFloat.float) :
  -200 <= lo -> normal lo hi x ->
  0 < scaled_ulp x /\ scaled_ulp x * 2 ^ 52 <= scaled_value x.
Proof.
  intros Hlo (m & e & -> & Hm & He). cbn [scaled_ulp scaled_value].
  assert (0 < 2 ^ (e + 200)) by (apply Z.pow_pos_nonneg; lia). split; [lia | nia].
Qed.

(** One axis: scaling [original] by a ratio that is at most the rounded
    [target / original] gives at most [target] pixels, and at least
    [target - 1] when the ratio is that quotient itself. *)
Lemma scaled_axis (target original : Z) (scale_ratio : PyFloat.float) :
  0 < target < 2 ^ 48 -> 0 < original < 2 ^ 48 ->
  let ratio := SFdiv PyFloat.prec PyFloat.emax (PyFloat.of_int target)
                     (PyFloat.of_int original) in
  normal (-105) 1 scale_ratio ->
  scaled_value scale_ratio <= scaled_value ratio ->
  exists scaled,
    Concat.int_of_float (Concat.mul_int original scale_ratio) = Ok scaled /\
    0 <= scaled <= target /\
    (scale_ratio = ratio -> target - 1 <= scaled).
Proof.
  intros Ht Ho ratio Hs Hle.
  destruct (quotient_value target original ltac:(lia) ltac:(lia)) as [Hnx Hx].
  fold ratio in Hnx, Hx.
  destruct (normal_ulp (-105) 1 ratio ltac:(lia) Hnx) as [Hux0 Hux].
  destruct Hs as (m & e & -> & Hm & He).
  destruct (product_value original m e ltac:(lia) Hm ltac:(lia)) as [Hnp Hp].
  fold (Concat.mul_int original (S754_finite false m e)) in Hnp, Hp.
  set (p := Concat.mul_int original (S754_finite false m e)) in *.
  destruct (normal_ulp (-200) 200 p ltac:(lia) Hnp) as [Hup0 Hup].
  set (K := 2 ^ 200) in *.
  assert (HK : 0 < K) by (apply Z.pow_pos_nonneg; lia).
  set (S := scaled_value (S754_finite false m e)) in *.
  set (X := scaled_value ratio) in *. set (UX := scaled_ulp ratio) in *.
  set (P := scaled_value p) in *. set (UP := scaled_ulp p) in *.
  assert (HT : K <= target * K <= (2 ^ 48 - 1) * K) by nia.
  assert (HA : original * S <= X * original) by nia.
  assert (HOU : original * UX * 2 ^ 52 <= X * original) by nia.
  assert (HOU0 : 0 <= original * UX) by nia.
  set (T := target * K) in *. set (A := X * original) in *.
  set (A' := original * S) in *. set (OU := original * UX) in *.
  replace (2 * original * UX) with (2 * OU) in Hx by (subst OU; ring).
  assert (Hhi : P < (target + 1) * K).
  { replace ((target + 1) * K) with (T + K) by (subst T; ring).
    change (2 ^ 52) with 4503599627370496 in *.
    change (2 ^ 48) with 281474976710656 in *. lia. }
  assert (Hlo0 : 0 * K <= P) by lia.
  assert (Hcase : S754_finite false m e = ratio -> (target - 1) * K <= P).
  { intros E. replace ((target - 1) * K) with (T - K) by (subst T; ring).
    assert (A' = A) by (subst A' A S X; rewrite E; ring).
    change (2 ^ 52) with 4503599627370496 in *.
    change (2 ^ 48) with 281474976710656 in *. lia. }
  destruct (int_of_float_bounds p 0 target Hnp ltac:(lia) (conj Hlo0 Hhi))
    as (i & Hi & Hib).
  exists i. split; [exact Hi|]. split; [exact Hib|].
  intros E. specialize (Hcase E).
  destruct (int_of_float_bounds p (target - 1) target Hnp ltac:(lia) (conj Hcase Hhi))
    as (i' & Hi' & Hib').
  rewrite Hi in Hi'. injection Hi' as <-. lia.
Qed.

Lemma even_floor (i t : Z) :
  0 <= i <= t ->
  let s := i - i mod 2 in
  let pad := (t - s) / 2 in
  s mod 2 = 0 /\ 0 <= s <= i /\ i - 1 <= s /\
  0 <= pad /\ pad + s <= t /\ t - s - 1 <= 2 * pad <= t - s.
Proof.
  intros Hi s pad. subst s pad.
  pose proof (Z.mod_pos_bound i 2 ltac:(lia)) as Hm.
  split.
  - rewrite Zminus_mod_idemp_r, Z.sub_diag. reflexivity.
  - pose proof (Z.div_mod (t - (i - i mod 2)) 2 ltac:(lia)) as Hd.
    pose proof (Z.mod_pos_bound (t - (i - i mod 2)) 2 ltac:(lia)) as Hm2.
    assert (i mod 2 <= i).
    { destruct (Z.eq_dec i 0) as [-> | Hne]; [reflexivity | lia]. }
    lia.
Qed.

Lemma scale_and_pad_shape (target_width target_height original_width original_height : Z) :
  0 < target_width < 2 ^ 48 -> 0 < target_height < 2 ^ 48 ->
  0 < original_width < 2 ^ 48 -> 0 < original_height < 2 ^ 48 ->
  exists w h,
    Concat.scale_and_pad target_width target_height original_width original_height =
      Ok (w - w mod 2, h - h mod 2,
          (target_width - (w - w mod 2)) / 2, (target_height - (h - h mod 2)) / 2) /\
    0 <= w <= target_width /\ 0 <= h <= target_height /\
    (target_width - 1 <= w \/ target_height - 1 <= h).
Proof.
  intros Htw Hth How Hoh.
  unfold Concat.scale_and_pad. rewrite !truediv_ok by lia. cbn [bind].
  set (X := SFdiv PyFloat.prec PyFloat.emax (PyFloat.of_int target_width)
                  (PyFloat.of_int original_width)).
  set (Y := SFdiv PyFloat.prec PyFloat.emax (PyFloat.of_int target_height)
                  (PyFloat.of_int original_height)).
  destruct (quotient_value target_width original_width ltac:(lia) ltac:(lia)) as [HX _].
  destruct (quotient_value target_height original_height ltac:(lia) ltac:(lia)) as [HY _].
  fold X in HX. fold Y in HY.
  destruct (normal_order X Y
              (normal_weaken (-105) 1 (-200) 200 X ltac:(lia) ltac:(lia) HX)
              (normal_weaken (-105) 1 (-200) 200 Y ltac:(lia) ltac:(lia) HY)) as [Hlt Hge].
  assert (Hs : exists s, Concat.min_float X Y = s /\ normal (-105) 1 s /\
                         scaled_value s <= scaled_value X /\
                         scaled_value s <= scaled_value Y /\ (s = X \/ s = Y)).
  { unfold Concat.min_float. destruct (PyFloat.ltb Y X).
    - exists Y. repeat split; try assumption; [now apply Hlt | lia | now right].
    - exists X. repeat split; try assumption; [lia | now apply Hge | now left]. }
  destruct Hs as (s & -> & Hns & HsX & HsY & Hwhich).
  destruct (scaled_axis target_width original_width s Htw How Hns HsX)
    as (iw & -> & Hiw & Hbw).
  destruct (scaled_axis target_height original_height s Hth Hoh Hns HsY)
    as (ih & -> & Hih & Hbh).
  cbn [bind]. exists iw, ih. split; [reflexivity|].
  split; [exact Hiw|]. split; [exact Hih|].
  fold X in Hbw. fold Y in Hbh.
  destruct Hwhich as [E | E]; [left; exact (Hbw E) | right; exact (Hbh E)].
Qed.

(** X14: for a frame and a first clip with sides below [2^48], the
    concatenators' scale and pad arguments are computed without an exception;
    both scaled sides are even and at most the frame's; both pads are
    non-negative and the padded picture lies inside the frame, centred within
    one pixel; and on at least one axis the picture is less than 3 pixels
    short of the frame.  The binary64 quotient, minimum, product and
    truncation are those of the interpreter. *)
Theorem letterbox_fits (target_width target_height original_width original_height : Z) :
  0 < target_width < 2 ^ 48 -> 0 < target_height < 2 ^ 48 ->
  0 < original_width < 2 ^ 48 -> 0 < original_height < 2 ^ 48 ->
  exists scaled_width scaled_height pad_x pad_y,
    Concat.scale_and_pad target_width target_height original_width original_height =
      Ok (scaled_width, scaled_height, pad_x, pad_y) /\
    scaled_width mod 2 = 0 /\ scaled_height mod 2 = 0 /\
    0 <= scaled_width <= target_width /\ 0 <= scaled_height <= target_height /\
    0 <= pad_x /\ 0 <= pad_y /\
    pad_x + scaled_width <= target_width /\ pad_y + scaled_height <= target_height /\
    target_width - scaled_width - 1 <= 2 * pad_x <= target_width - scaled_width /\
    target_height - scaled_height - 1 <= 2 * pad_y <= target_height - scaled_height /\
    (target_width - 2 <= scaled_width \/ target_height - 2 <= scaled_height).
Proof.
  intros Htw Hth How Hoh.
  destruct (scale_and_pad_shape _ _ _ _ Htw Hth How Hoh) as (w & h & Hrun & Hw & Hh & Hfull).
  eexists _, _, _, _. split; [exact Hrun|].
  pose proof (even_floor w target_width Hw) as (Ew & Hw1 & Hw2 & Hw3 & Hw4 & Hw5).
  pose proof (even_floor h target_height Hh) as (Eh & Hh1 & Hh2 & Hh3 & Hh4 & Hh5).
  repeat split; try assumption; try lia.
Qed.

Lemma letterbox_fits_witness :
  exists scaled_width scaled_height pad_x pad_y,
    Concat.scale_and_pad 1920 1080 640 480 =
      Ok (scaled_width, scaled_height, pad_x, pad_y) /\
    pad_x + scaled_width <= 1920 /\ pad_y + scaled_height <= 1080.
Proof.
  destruct (letterbox_fits 1920 1080 640 480)
    as (sw & sh & px & py & Hrun & _ & _ & _ & _ & _ & _ & Hx & Hy & _); try lia.
  exists sw, sh, px, py. split; [exact Hrun | split; assumption].
Defined.

Example letterbox_of_vga_clip :
  Concat.scale_and_pad 1920 1080 640 480 = Ok (1440, 1080, 240, 0).
Proof. reflexivity. Qed.

(** ** The concatenators: the drivers *)

Section ConcatFacts.

Variable RNG : Type.
Variable shuffle_files : list string -> RNG -> list string * RNG.
Variable probe : string -> result Crop.stream.

Lemma concatenate_videos_is_advanced (video_files : list string)
    (target_width target_height : Z) (g : RNG) :
  Concat.concatenate_videos RNG shuffle_files probe video_files
    target_width target_height g =
  Concat.concatenate_videos_advanced RNG shuffle_files probe video_files
    target_width target_height None true "black" g.
Proof.
  unfold Concat.concatenate_videos, Concat.concatenate_videos_advanced.
  destruct video_files; reflexivity.
Qed.

(** X15: [concatenate_videos_advanced], on at least one file, a frame with
    sides below [2^48], a cap that is unset or positive and files that the
    probe reads with sides below [2^48]: the list file lists the files left
    after the cap, each once, in the order the shuffle gives (the same order
    without shuffle), and the [-vf] argument is built from even scaled sides
    and non-negative pads that keep the picture inside the frame.
    [concatenate_videos] is the same function without a cap, shuffled, with
    black bars. *)
Theorem concatenation_lists_every_file (video_files : list string)
    (target_width target_height : Z) (max_videos : option Z) (shuffle_on : bool)
    (background_color : string) (g : RNG) :
  Driver.shuffle_files_contract RNG shuffle_files ->
  video_files <> [] ->
  0 < target_width < 2 ^ 48 -> 0 < target_height < 2 ^ 48 ->
  (forall m, max_videos = Some m -> 0 < m) ->
  (forall video, In video video_files ->
     exists video_stream,
       probe video = Ok video_stream /\
       0 < Crop.width video_stream < 2 ^ 48 /\ 0 < Crop.height video_stream < 2 ^ 48) ->
  (exists plan g' files scaled_width scaled_height pad_x pad_y,
     Concat.concatenate_videos_advanced RNG shuffle_files probe video_files
       target_width target_height max_videos shuffle_on background_color g =
       Ok (Some (plan, g')) /\
     Permutation (Driver.limit_files max_videos video_files) files /\
     (shuffle_on = false -> files = Driver.limit_files max_videos video_files) /\
     Concat.list_file plan = Concat.create_video_list_file files /\
     Concat.vf plan =
       Concat.video_filter scaled_width scaled_height target_width target_height
                                 pad_x pad_y background_color /\
     scaled_width mod 2 = 0 /\ scaled_height mod 2 = 0 /\
     0 <= pad_x /\ 0 <= pad_y /\
     pad_x + scaled_width <= target_width /\ pad_y + scaled_height <= target_height) /\
  Concat.concatenate_videos RNG shuffle_files probe video_files
    target_width target_height g =
  Concat.concatenate_videos_advanced RNG shuffle_files probe video_files
    target_width target_height None true "black" g.
Proof.
  intros Hs Hne Htw Hth Hmax Hprobe.
  split; [|apply concatenate_videos_is_advanced].
  destruct (limit_files_shape max_videos video_files Hmax Hne) as (Hcne & _ & Hcin).
  set (capped := Driver.limit_files max_videos video_files) in *.
  set (shuffled := if shuffle_on then shuffle_files capped g else (capped, g)).
  assert (Hperm : Permutation capped (fst shuffled)).
  { subst shuffled. destruct shuffle_on; [apply Hs | reflexivity]. }
  destruct (fst shuffled) as [|first rest] eqn:Eshuffled.
  { apply Permutation_sym, Permutation_nil in Hperm. contradiction. }
  destruct (Hprobe first) as (vs & Hvs & Hw & Hh).
  { apply Hcin. apply (Permutation_in _ (Permutation_sym Hperm)). now left. }
  destruct (scale_and_pad_shape target_width target_height (Crop.width vs) (Crop.height vs)
              Htw Hth Hw Hh) as (w & h & Hrun & Hwb & Hhb & _).
  pose proof (even_floor w target_width Hwb) as (Ew & Hw1 & Hw2 & Hw3 & Hw4 & Hw5).
  pose proof (even_floor h target_height Hhb) as (Eh & Hh1 & Hh2 & Hh3 & Hh4 & Hh5).
  eexists _, (snd shuffled), (first :: rest), _, _, _, _.
  split.
  { unfold Concat.concatenate_videos_advanced.
    destruct video_files as [|v0 l0]; [now contradiction Hne|].
    fold capped. fold shuffled. destruct shuffled as [files g1].
    cbn [fst snd] in *. subst files. cbn [item0 bind]. rewrite Hvs. cbn [bind].
    rewrite Hrun. cbn [bind]. reflexivity. }
  cbn [Concat.list_file Concat.vf].
  split; [exact Hperm|]. split.
  { intros ->. subst shuffled. cbn [fst] in Eshuffled. now symmetry. }
  split; [reflexivity|]. split; [reflexivity|].
  repeat split; assumption.
Qed.

End ConcatFacts.

Lemma concatenation_lists_every_file_witness :
  exists plan g',
    Concat.concatenate_videos_advanced nat (fun l g => (rev l, S g))
      (fun _ => Ok (Crop.mkStream 640 480 (30, 1)))
      ["a.mp4"; "it's.mp4"]%string 1920 1080 None true "black" 0%nat = Ok (Some (plan, g')) /\
    Concat.vf plan = "scale=1440:1080,pad=1920:1080:240:0:black"%string.
Proof.
  destruct (concatenation_lists_every_file nat (fun l g => (rev l, S g))
              (fun _ => Ok (Crop.mkStream 640 480 (30, 1)))
              ["a.mp4"; "it's.mp4"]%string 1920 1080 None true "black" 0%nat)
    as [(plan & g' & files & sw & sh & px & py & Hrun & _) _].
  - intros l g. apply Permutation_rev.
  - discriminate.
  - lia.
  - lia.
  - intros m Hm. discriminate.
  - intros video _. eexists. split; [reflexivity|]. cbn. lia.
  - exists plan, g'. split; [exact Hrun|].
    vm_compute in Hrun. injection Hrun as <- _. reflexivity.
Defined.

(** ** Worked examples *)

Example layout_for_80_clips :
  Layout.calculate_optimal_grid 80 1920 1080 = Ok (Some (7, 12, 160, 154)).
Proof. reflexivity. Qed.

Example layout_for_6_clips :
  Layout.calculate_optimal_grid 6 1920 1080 = Ok (Some (2, 3, 640, 540)).
Proof. reflexivity. Qed.

Example layout_for_portrait_canvas :
  Layout.calculate_optimal_grid 100 1080 1920 = Ok (Some (14, 8, 135, 137)).
Proof. reflexivity. Qed.

Example crop_of_portrait_clip :
  Crop.get_video_crop_params (Crop.mkStream 720 1280 (30, 1)) "bottom" =
  Crop.mkCrop 720 1280 720 0 560 (30, 1).
Proof. reflexivity. Qed.

(** Three clips on a forced 2x2 grid: the fourth cell is a filler, emitted
    inside the loop of its row. *)
Example rendered_grid_with_filler :
  let p := Crop.get_video_crop_params (Crop.mkStream 1920 1080 (30, 1)) "center" in
  match Graph.build_filter_graph 2 2 960 540 30 [p; p; p] with
  | Ok (nodes, output_map) => (map Graph.render nodes, output_map)
  | Raise _ => ([], EmptyString)
  end =
  (["[0:v]crop=1080:1080:420:0,scale=960:540[v0]";
    "[1:v]crop=1080:1080:420:0,scale=960:540[v1]";
    "[2:v]crop=1080:1080:420:0,scale=960:540[v2]";
    "[v0][v1]hstack=inputs=2[row0]";
    "color=black:960x540:duration=30[black3]";
    "[v2][black3]hstack=inputs=2[row1]";
    "[row0][row1]vstack=inputs=2[final]"]%string,
   "[final]"%string).
Proof. reflexivity. Qed.

Example sampling_with_short_supply :
  Sampler.create_balanced_video_list nat Sampler.counter_choices Sampler.counter_shuffle
    demo_tasks (2, 3) None true 0%nat =
  Ok (["a.mp4"; "b.mp4"; "c.mp4"; "a.mp4"; "b.mp4"; "c.mp4"]%string, 4%nat).
Proof. reflexivity. Qed.
